(** * mcp-shell: the STDIO <-> Unix-socket bridge, embedded in Rocq

    The development follows the three TypeScript modules of the bridge
    and the server the daemon runs behind its socket:

    - [daemon-proxy.ts]: [ReadBuffer], [serializeMessage],
      [validateSocketPermissions], [waitForSocketReady], [runDaemonProxy]
      and the two stdin listeners;
    - [index.ts]: [main], which asks the server manager for the child
      daemon's socket path;
    - [mcp-daemon.ts]: [startMcpDaemon], the listening side;
    - [server.ts]: [DISABLED_TOOLS], the handlers of the tool list and of a
      tool call, and [getProcessNotificationInfo].

    Part I holds the definitions, Part II the theorems. *)

From Stdlib Require Import ZArith Lia.
From Stdlib Require Import Strings.Byte.
From stdpp Require Import base option list strings gmap pretty.

#[local] Open Scope Z_scope.

(* ===================================================================== *)
(** * Part I: definitions *)
(* ===================================================================== *)

(** ** JavaScript values the bridge touches *)

(** [error.code] of a Node.js system error. *)
Inductive Errno : Type :=
| ENOENT | EACCES | EPERM | ECONNREFUSED | EADDRINUSE | EEXIST | ENOTDIR | ENOTSOCK.

#[global] Instance Errno_eq_dec : EqDecision Errno.
Proof. solve_decision. Defined.

(** An [Error] object: its message and, for system errors, its [code]
    ([undefined] otherwise, e.g. for [new Error('...')]). *)
Record JsError : Type := mkError { message : string; code : option Errno }.

#[global] Instance JsError_eq_dec : EqDecision JsError.
Proof. solve_decision. Defined.

(** How a call completes: it returns a value or throws. *)
Inductive completion (A : Type) : Type :=
| Returned (a : A)
| Thrown (e : JsError).
Arguments Returned {A} a.
Arguments Thrown {A} e.

(** A JavaScript string: its UTF-16 code units. *)
Definition jsstring : Type := list N.

Definition byte_eqb (a b : byte) : bool := Byte.eqb a b.

(** ['\n'] as a byte of a [Buffer], and as a code unit of a string. *)
Definition LF : byte := x0a.
Definition char_LF : N := 10%N.
Definition char_CR : N := 13%N.

(** ** The runtime the framer calls into

    [JSON], the UTF-8 codec of [Buffer] and the SDK's [JSONRPCMessageSchema]
    are not code of this repository; the framer is written against them,
    and so is the model. *)
Class Codec : Type := {
  (** what [JSON.parse] returns *)
  JSONValue : Type;
  (** [JSONRPCMessage], the output type of [JSONRPCMessageSchema] *)
  Message : Type;
  (** [buf.toString('utf8')] *)
  utf8_decode : list byte -> jsstring;
  (** the bytes [process.stdout.write(s)] emits for a string *)
  utf8_encode : jsstring -> list byte;
  (** [JSON.parse(text)]: a value, or a thrown [SyntaxError] *)
  JSON_parse : jsstring -> completion JSONValue;
  (** [JSON.stringify(message)] *)
  JSON_stringify : Message -> jsstring;
  (** [JSONRPCMessageSchema.parse(value)]: the validated message, or a
      thrown [ZodError] *)
  JSONRPCMessageSchema_parse : JSONValue -> completion Message;
}.

(** ** daemon-proxy.ts: [ReadBuffer] *)

(** [private buffer: Buffer | undefined] *)
Record ReadBuffer : Type := mkReadBuffer { buffer : option (list byte) }.

(** [new ReadBuffer()] *)
Definition newReadBuffer : ReadBuffer := {| buffer := None |}.

(** [append(chunk)]: a [Buffer] is an object, hence truthy even when empty,
    so the concatenation branch is taken as soon as a buffer exists. *)
Definition append (rb : ReadBuffer) (chunk : list byte) : ReadBuffer :=
  {| buffer := Some (match buffer rb with
                     | Some b => b ++ chunk
                     | None => chunk
                     end) |}.

(** [buf.indexOf('\n')]: offset of the first occurrence, [-1] when absent. *)
Fixpoint indexOf (b : list byte) (x : byte) : Z :=
  match b with
  | [] => -1
  | y :: b' =>
      if byte_eqb y x then 0
      else let i := indexOf b' x in
           if i =? -1 then -1 else i + 1
  end.

(** [s.replace(/\r$/, '')]: without the [m] flag [$] matches at the end of
    the string only, so at most the last code unit goes. *)
Fixpoint replace_trailing_CR (s : jsstring) : jsstring :=
  match s with
  | [] => []
  | c :: s' =>
      match s' with
      | [] => if (c =? char_CR)%N then [] else [c]
      | _ :: _ => c :: replace_trailing_CR s'
      end
  end.

(** [JSONRPCMessageSchema.parse(JSON.parse(line))] *)
Definition parseLine `{Codec} (line : jsstring) : completion Message :=
  match JSON_parse line with
  | Returned v => JSONRPCMessageSchema_parse v
  | Thrown e => Thrown e
  end.

(** The text of the record whose bytes are [l]:
    [toString('utf8', 0, index).replace(/\r$/, '')]. *)
Definition recordText `{Codec} (l : list byte) : jsstring :=
  replace_trailing_CR (utf8_decode l).

(** [readMessage()]: the completion of the call and the object afterwards.
    [Returned None] is the [null] return. The buffer is advanced past the
    newline before the line is parsed. *)
Definition readMessage `{Codec} (rb : ReadBuffer)
  : completion (option Message) * ReadBuffer :=
  match buffer rb with
  | None => (Returned None, rb)
  | Some b =>
      let index := indexOf b LF in
      if index =? -1 then (Returned None, rb)
      else
        let line := recordText (take (Z.to_nat index) b) in
        let rb' := {| buffer := Some (drop (Z.to_nat (index + 1)) b) |} in
        match parseLine line with
        | Returned m => (Returned (Some m), rb')
        | Thrown e => (Thrown e, rb')
        end
  end.

(** [clear()] *)
Definition clear (rb : ReadBuffer) : ReadBuffer := {| buffer := None |}.

(** [serializeMessage(message)]:
    [`${JSON.stringify(message)}\n`] *)
Definition serializeMessage `{Codec} (message : Message) : jsstring :=
  JSON_stringify message ++ [char_LF].

(** *** Reading a buffer dry

    A consumer that calls [readMessage] until it returns [null], keeping
    every completion (a message or a thrown parse error) in order. Each
    call that does not return [null] removes at least one byte, so
    [S (length buffer)] calls are enough; [None] means the budget ran out. *)
Fixpoint readAll `{Codec} (fuel : nat) (rb : ReadBuffer)
  : option (list (completion Message) * ReadBuffer) :=
  match fuel with
  | O => None
  | S fuel' =>
      match readMessage rb with
      | (Returned None, rb') => Some ([], rb')
      | (Returned (Some m), rb') =>
          '(out, rb'') ← readAll fuel' rb'; Some (Returned m :: out, rb'')
      | (Thrown e, rb') =>
          '(out, rb'') ← readAll fuel' rb'; Some (Thrown e :: out, rb'')
      end
  end.

Definition pendingBytes (rb : ReadBuffer) : list byte :=
  default [] (buffer rb).

Definition drain `{Codec} (rb : ReadBuffer)
  : option (list (completion Message) * ReadBuffer) :=
  readAll (S (length (pendingBytes rb))) rb.

(** Deliver the chunks one by one, reading the buffer dry after each. *)
Fixpoint feed `{Codec} (rb : ReadBuffer) (chunks : list (list byte))
  : option (list (completion Message) * ReadBuffer) :=
  match chunks with
  | [] => Some ([], rb)
  | chunk :: chunks' =>
      '(out, rb') ← drain (append rb chunk);
      '(out', rb'') ← feed rb' chunks';
      Some (out ++ out', rb'')
  end.

(** Deliver all the chunks first, then read the buffer dry once. *)
Definition feedThenDrain `{Codec} (rb : ReadBuffer) (chunks : list (list byte))
  : option (list (completion Message) * ReadBuffer) :=
  drain (foldl append rb chunks).

(** The messages among a list of completions. *)
Fixpoint messagesOf {A} (out : list (completion A)) : list A :=
  match out with
  | [] => []
  | Returned m :: out' => m :: messagesOf out'
  | Thrown _ :: out' => messagesOf out'
  end.

(** *** The framing, stated on bytes

    [splitLines b] cuts [b] at every newline: the complete lines in order,
    and the bytes after the last newline. *)
Fixpoint splitLines (b : list byte) : list (list byte) * list byte :=
  match b with
  | [] => ([], [])
  | x :: b' =>
      let '(ls, tl) := splitLines b' in
      if byte_eqb x LF then ([] :: ls, tl)
      else match ls with
           | [] => ([], x :: tl)
           | l :: ls' => ((x :: l) :: ls', tl)
           end
  end.

(** What [readMessage] makes of the complete line whose bytes are [l]. *)
Definition parseRecord `{Codec} (l : list byte) : completion Message :=
  parseLine (recordText l).

(** The completions a buffer holding [b] gives when read dry. *)
Definition framed `{Codec} (b : list byte) : list (completion Message) :=
  parseRecord <$> (splitLines b).1.

(** [readMessage]'s completion for a record that parses to [c]. *)
Definition asRead {A} (c : completion A) : completion (option A) :=
  match c with
  | Returned m => Returned (Some m)
  | Thrown e => Thrown e
  end.

(** What the runtime promises about the JSON text of a message the schema
    accepts, in the terms the framer depends on: [JSON.stringify] escapes
    control characters, so the encoded text holds no newline byte and does
    not end in a carriage return; the text is well-formed UTF-16, so
    decoding its UTF-8 encoding gives it back, and the newline appended to
    it is encoded as the single byte [0x0A]; and the text parses back to a
    value the schema validates as the same message. *)
Record validMessage `{Codec} (m : Message) : Prop := {
  stringify_no_newline : LF ∉ utf8_encode (JSON_stringify m);
  encode_newline :
    utf8_encode (JSON_stringify m ++ [char_LF]) =
      utf8_encode (JSON_stringify m) ++ [LF];
  decode_encode : utf8_decode (utf8_encode (JSON_stringify m)) = JSON_stringify m;
  no_trailing_CR : replace_trailing_CR (JSON_stringify m) = JSON_stringify m;
  parse_stringify : parseLine (JSON_stringify m) = Returned m;
}.

(** ** Effects

    Asynchronous functions are modelled as state transformers that may
    throw: a computation takes the state of the process and its
    surroundings and gives back its completion and the state afterwards.
    [None] is reserved for a loop that used up its iteration budget. *)
Definition Eff (S A : Type) : Type := S → option (completion A * S).

#[global] Instance Eff_ret {S} : MRet (Eff S) :=
  λ A a s, Some (Returned a, s).

#[global] Instance Eff_bind {S} : MBind (Eff S) :=
  λ A B f m s,
    match m s with
    | None => None
    | Some (Returned a, s') => f a s'
    | Some (Thrown e, s') => Some (Thrown e, s')
    end.

(** [throw e] *)
Definition throw {S A} (e : JsError) : Eff S A :=
  λ s, Some (Thrown e, s).

(** [try { m } catch (error) { ... }], as the completion of [m]. *)
Definition try {S A} (m : Eff S A) : Eff S (completion A) :=
  λ s, match m s with
       | None => None
       | Some (c, s') => Some (Returned c, s')
       end.

Definition gets {S A} (f : S → A) : Eff S A :=
  λ s, Some (Returned (f s), s).

Definition modify {S} (f : S → S) : Eff S unit :=
  λ s, Some (Returned tt, f s).

Definition outOfFuel {S A} : Eff S A := λ _, None.

(** ** The process and its surroundings *)

(** The fields of [fs.Stats] the bridge reads. *)
Record Stats : Type := mkStats { st_mode : Z; st_uid : Z }.

(** File-type bits of [st_mode] (octal 0170000, 0140000, 0100000, 0040000). *)
Definition S_IFMT : Z := 61440.
Definition S_IFSOCK : Z := 49152.
Definition S_IFREG : Z := 32768.
Definition S_IFDIR : Z := 16384.

(** [stat.isSocket()] *)
Definition isSocket (stat : Stats) : bool :=
  Z.land (st_mode stat) S_IFMT =? S_IFSOCK.

(** Octal 0777 and 0600. *)
Definition mode_0777 : Z := 511.
Definition mode_0600 : Z := 384.

Inductive LogLevel : Type := LogInfo | LogError.

(** What [serverManager.get] resolves to, as far as [main] inspects it:
    [null] or [undefined]; a value that is no object; or an object, with
    the value of its [childSocketPath] property if it has one. *)
Inductive ServerInfo : Type :=
| InfoNullish
| InfoPrimitive
| InfoObject (childSocketPath : option string).

(** Everything the process does that can be observed from outside, with
    the completion the surroundings answered with. *)
Inductive Event (M : Type) : Type :=
| EvStat (path : string) (r : completion Stats)
| EvSleep (ms : Z)
| EvConnect (path : string) (r : completion unit)
| EvSend (m : M) (r : completion unit)
| EvTransportClose (r : completion unit)
| EvStdout (payload : jsstring)
| EvLog (level : LogLevel) (msg : string) (error : option JsError)
| EvManagerStart (cwd : string) (allowExisting : bool) (r : completion string)
| EvManagerGet (serverId : string) (r : completion ServerInfo)
| EvManagerStop (serverId : string) (force : bool) (r : completion unit)
| EvExit (exitCode : Z).
Arguments EvStat {M} path r.
Arguments EvSleep {M} ms.
Arguments EvConnect {M} path r.
Arguments EvSend {M} m r.
Arguments EvTransportClose {M} r.
Arguments EvStdout {M} payload.
Arguments EvLog {M} level msg error.
Arguments EvManagerStart {M} cwd allowExisting r.
Arguments EvManagerGet {M} serverId r.
Arguments EvManagerStop {M} serverId force r.
Arguments EvExit {M} exitCode.

(** The state of the proxy process and of what it talks to.

    - [now] is the clock [Date.now()] reads;
    - [fs_stat t path] is what [fs.stat(path)] completes with when called
      at time [t] (the daemon creates its socket on its own schedule);
    - [transport_start t path] likewise for [transport.start()];
    - [transport_send k m] is how the promise of the [k]-th
      [transport.send] settles;
    - [io_latency t] and [timer_lag t] are how long an I/O call started at
      [t] takes, and how late a timer armed at [t] fires;
    - [process_getuid] is [None] where [process.getuid] is not a function;
    - [readBuffer] and [listening] are the framing buffer of stdin and
      whether the stdin listeners are installed;
    - [exited] is the exit code once [process.exit] was called;
    - [trace] lists the events so far, oldest first. *)
Record World (M : Type) : Type := mkWorld {
  now : Z;
  fs_stat : Z → string → completion Stats;
  transport_start : Z → string → completion unit;
  transport_send : nat → M → completion unit;
  transport_close : completion unit;
  io_latency : Z → N;
  timer_lag : Z → N;
  process_getuid : option Z;
  sent : nat;
  readBuffer : ReadBuffer;
  listening : bool;
  exited : option Z;
  trace : list (Event M);
}.
Arguments mkWorld {M}.
Arguments now {M} w.
Arguments fs_stat {M} w.
Arguments transport_start {M} w.
Arguments transport_send {M} w.
Arguments transport_close {M} w.
Arguments io_latency {M} w.
Arguments timer_lag {M} w.
Arguments process_getuid {M} w.
Arguments sent {M} w.
Arguments readBuffer {M} w.
Arguments listening {M} w.
Arguments exited {M} w.
Arguments trace {M} w.

Definition set_now {M} (t : Z) (w : World M) : World M :=
  mkWorld t (fs_stat w) (transport_start w) (transport_send w) (transport_close w)
    (io_latency w) (timer_lag w) (process_getuid w) (sent w) (readBuffer w)
    (listening w) (exited w) (trace w).

Definition set_sent {M} (k : nat) (w : World M) : World M :=
  mkWorld (now w) (fs_stat w) (transport_start w) (transport_send w) (transport_close w)
    (io_latency w) (timer_lag w) (process_getuid w) k (readBuffer w)
    (listening w) (exited w) (trace w).

Definition set_readBuffer {M} (rb : ReadBuffer) (w : World M) : World M :=
  mkWorld (now w) (fs_stat w) (transport_start w) (transport_send w) (transport_close w)
    (io_latency w) (timer_lag w) (process_getuid w) (sent w) rb
    (listening w) (exited w) (trace w).

Definition set_listening {M} (b : bool) (w : World M) : World M :=
  mkWorld (now w) (fs_stat w) (transport_start w) (transport_send w) (transport_close w)
    (io_latency w) (timer_lag w) (process_getuid w) (sent w) (readBuffer w)
    b (exited w) (trace w).

Definition set_exited {M} (c : option Z) (w : World M) : World M :=
  mkWorld (now w) (fs_stat w) (transport_start w) (transport_send w) (transport_close w)
    (io_latency w) (timer_lag w) (process_getuid w) (sent w) (readBuffer w)
    (listening w) c (trace w).

Definition set_trace {M} (tr : list (Event M)) (w : World M) : World M :=
  mkWorld (now w) (fs_stat w) (transport_start w) (transport_send w) (transport_close w)
    (io_latency w) (timer_lag w) (process_getuid w) (sent w) (readBuffer w)
    (listening w) (exited w) tr.

(** Record an event. *)
Definition emit {M} (ev : Event M) : Eff (World M) unit :=
  modify (λ w, set_trace (trace w ++ [ev]) w).

(** [Date.now()] *)
Definition Date_now {M} : Eff (World M) Z := gets now.

(** An I/O call started now: the clock moves on by its latency. *)
Definition io_elapse {M} : Eff (World M) unit :=
  modify (λ w, set_now (now w + Z.of_N (io_latency w (now w))) w).

(** [await fs.stat(path)] *)
Definition fs_stat_call {M} (path : string) : Eff (World M) Stats :=
  r ← gets (λ w, fs_stat w (now w) path);
  io_elapse;;
  emit (EvStat path r);;
  match r with
  | Returned stat => mret stat
  | Thrown e => throw e
  end.

(** [await new Promise((resolve) => setTimeout(resolve, ms))] *)
Definition sleep {M} (ms : Z) : Eff (World M) unit :=
  modify (λ w, set_now (now w + ms + Z.of_N (timer_lag w (now w))) w);;
  emit (EvSleep ms).

(** [logger.info] and [logger.error] *)
Definition logger_info {M} (msg : string) : Eff (World M) unit :=
  emit (EvLog LogInfo msg None).

Definition logger_error {M} (msg : string) (error : option JsError)
  : Eff (World M) unit :=
  emit (EvLog LogError msg error).

(** [process.exit(code)] *)
Definition process_exit {M} (exitCode : Z) : Eff (World M) unit :=
  modify (set_exited (Some exitCode));;
  emit (EvExit exitCode).

(** ** daemon-proxy.ts: the socket readiness check *)

Definition SOCKET_READY_TIMEOUT_MS : Z := 3000.
Definition SOCKET_READY_INTERVAL_MS : Z := 200.
Definition TRANSPORT_READY_TIMEOUT_MS : Z := 2000.
Definition TRANSPORT_READY_INTERVAL_MS : Z := 200.

Definition err_not_socket : JsError :=
  mkError "Socket path is not a Unix domain socket." None.
Definition err_permissions : JsError :=
  mkError "Socket permissions must be 600." None.
Definition err_owner : JsError :=
  mkError "Socket owner does not match current user." None.
Definition err_socket_timeout : JsError :=
  mkError "Timed out waiting for daemon socket." None.
Definition err_transport_timeout : JsError :=
  mkError "Timed out waiting for daemon transport." None.

(** The three checks of [validateSocketPermissions] on the result of
    [fs.stat], with [getuid] the value of
    [typeof process.getuid === 'function' ? process.getuid() : null]. *)
Definition checkStats (getuid : option Z) (stat : Stats) : completion unit :=
  if negb (isSocket stat) then Thrown err_not_socket
  else
    let mode := Z.land (st_mode stat) mode_0777 in
    if negb (mode =? mode_0600) then Thrown err_permissions
    else
      match getuid with
      | Some uid =>
          if negb (st_uid stat =? uid) then Thrown err_owner else Returned tt
      | None => Returned tt
      end.

(** [validateSocketPermissions(socketPath)] *)
Definition validateSocketPermissions {M} (socketPath : string)
  : Eff (World M) unit :=
  stat ← fs_stat_call socketPath;
  getuid ← gets process_getuid;
  match checkStats getuid stat with
  | Returned _ => mret tt
  | Thrown e => throw e
  end.

(** The [while (Date.now() < deadline)] loop of [waitForSocketReady]. *)
Fixpoint waitForSocketReady_loop {M} (fuel : nat) (deadline : Z)
    (socketPath : string) : Eff (World M) unit :=
  match fuel with
  | O => outOfFuel
  | S fuel' =>
      t ← Date_now;
      if t <? deadline then
        r ← try (validateSocketPermissions socketPath);
        match r with
        | Returned _ => mret tt
        | Thrown error =>
            if decide (code error ≠ Some ENOENT) then throw error
            else
              sleep SOCKET_READY_INTERVAL_MS;;
              waitForSocketReady_loop fuel' deadline socketPath
        end
      else throw err_socket_timeout
  end.

(** Iterations that fit between a clock reading and a deadline [timeout]
    later when each one waits at least [interval]: one per interval, and
    the one that finds the deadline passed. *)
Definition iterations (timeout interval : Z) : nat :=
  S (Z.to_nat ((timeout + interval - 1) / interval)).

(** [waitForSocketReady(socketPath)] *)
Definition waitForSocketReady {M} (socketPath : string) : Eff (World M) unit :=
  t ← Date_now;
  let deadline := t + SOCKET_READY_TIMEOUT_MS in
  waitForSocketReady_loop
    (iterations SOCKET_READY_TIMEOUT_MS SOCKET_READY_INTERVAL_MS)
    deadline socketPath.

(** The world after one [fs.stat(path)], after one timer of [ms], and what
    one run of [validateSocketPermissions] completes with. *)
Definition afterStat {M} (path : string) (w : World M) : World M :=
  set_trace (trace w ++ [EvStat path (fs_stat w (now w) path)])
    (set_now (now w + Z.of_N (io_latency w (now w))) w).

Definition afterSleep {M} (ms : Z) (w : World M) : World M :=
  set_trace (trace w ++ [EvSleep ms])
    (set_now (now w + ms + Z.of_N (timer_lag w (now w))) w).

Definition attempt {M} (path : string) (w : World M) : completion unit :=
  match fs_stat w (now w) path with
  | Returned stat => checkStats (process_getuid w) stat
  | Thrown e => Thrown e
  end.

(** The errors [validateSocketPermissions] raises on its own account. *)
Definition securityViolation (e : JsError) : Prop :=
  e = err_not_socket ∨ e = err_permissions ∨ e = err_owner.

(** ** daemon-proxy.ts: [runDaemonProxy] *)

(** [await transport.start()] *)
Definition transport_start_call {M} (socketPath : string) : Eff (World M) unit :=
  r ← gets (λ w, transport_start w (now w) socketPath);
  io_elapse;;
  emit (EvConnect socketPath r);;
  match r with
  | Returned _ => mret tt
  | Thrown e => throw e
  end.

(** The [while (Date.now() < deadline)] loop of [startTransport]. *)
Fixpoint startTransport_loop {M} (fuel : nat) (deadline : Z)
    (socketPath : string) (lastError : option JsError) : Eff (World M) unit :=
  match fuel with
  | O => outOfFuel
  | S fuel' =>
      t ← Date_now;
      if t <? deadline then
        r ← try (transport_start_call socketPath);
        match r with
        | Returned _ => mret tt
        | Thrown error =>
            if decide (code error ≠ Some ECONNREFUSED) then throw error
            else
              sleep TRANSPORT_READY_INTERVAL_MS;;
              startTransport_loop fuel' deadline socketPath (Some error)
        end
      else throw (default err_transport_timeout lastError)
  end.

(** [startTransport()] *)
Definition startTransport {M} (socketPath : string) : Eff (World M) unit :=
  t ← Date_now;
  let deadline := t + TRANSPORT_READY_TIMEOUT_MS in
  startTransport_loop
    (iterations TRANSPORT_READY_TIMEOUT_MS TRANSPORT_READY_INTERVAL_MS)
    deadline socketPath None.

(** [runDaemonProxy(socketPath)], up to the point where its promise
    settles. The callbacks it installs are the definitions that follow. *)
Definition runDaemonProxy `{Codec} (socketPath : string) : Eff (World Message) unit :=
  r ← try (waitForSocketReady socketPath);
  match r with
  | Returned _ => mret tt
  | Thrown error =>
      logger_error "MCP daemon socket validation failed" (Some error);;
      throw error
  end;;
  modify (set_readBuffer newReadBuffer);;
  startTransport socketPath;;
  modify (set_listening true).

(** The world after one [transport.start()]. *)
Definition afterConnect {M} (path : string) (w : World M) : World M :=
  set_trace (trace w ++ [EvConnect path (transport_start w (now w) path)])
    (set_now (now w + Z.of_N (io_latency w (now w))) w).

(** Events that are an [fs.stat] call, and events that are a connection
    attempt. *)
Definition isStat {M} (ev : Event M) : bool :=
  match ev with
  | EvStat _ _ => true
  | _ => false
  end.

Definition isConnect {M} (ev : Event M) : bool :=
  match ev with
  | EvConnect _ _ => true
  | _ => false
  end.

(** The events of the readiness check, of the connection loop, and of the
    calls to the server manager. *)
Definition readinessEvent {M} (ev : Event M) : bool :=
  match ev with
  | EvStat _ _ | EvSleep _ => true
  | _ => false
  end.

Definition connectionEvent {M} (ev : Event M) : bool :=
  match ev with
  | EvConnect _ _ | EvSleep _ => true
  | _ => false
  end.

Definition isManagerEvent {M} (ev : Event M) : bool :=
  match ev with
  | EvManagerStart _ _ _ | EvManagerGet _ _ | EvManagerStop _ _ _ => true
  | _ => false
  end.

(** The calls to the server manager among the events [tr]. *)
Definition managerEvents {M} (tr : list (Event M)) : list (Event M) :=
  filter (λ ev, isManagerEvent ev = true) tr.

(** [transport.onmessage] *)
Definition onTransportMessage `{Codec} (message : Message) : Eff (World Message) unit :=
  emit (EvStdout (serializeMessage message)).

(** [transport.onerror] *)
Definition onTransportError `{Codec} (error : JsError) : Eff (World Message) unit :=
  let msg :=
    match code error with
    | Some ENOENT => "Daemon socket not found. Start the shell-server daemon process."
    | Some EACCES =>
        "Permission denied connecting to daemon socket. Check file permissions and ownership."
    | Some ECONNREFUSED => "Daemon socket refused connection. The daemon may be down."
    | _ => "Daemon transport error."
    end%string in
  logger_error msg (Some error).

(** [transport.onclose] *)
Definition onTransportClose `{Codec} : Eff (World Message) unit :=
  logger_info "Daemon transport closed";;
  process_exit 0.

(** [readBuffer.readMessage()] inside its [try]. *)
Definition readBuffer_readMessage `{Codec} : Eff (World Message) (completion (option Message)) :=
  λ w, let '(c, rb) := readMessage (readBuffer w) in
       Some (Returned c, set_readBuffer rb w).

(** [transport.send(message).catch(...)]: the rejection handler's log
    entry is recorded right after the send it belongs to. *)
Definition transport_send_call `{Codec} (message : Message) : Eff (World Message) unit :=
  k ← gets sent;
  r ← gets (λ w, transport_send w k message);
  modify (set_sent (S k));;
  emit (EvSend message r);;
  match r with
  | Returned _ => mret tt
  | Thrown error => logger_error "Failed to send daemon proxy message" (Some error)
  end.

(** The [while (true)] loop of the ['data'] listener. *)
Fixpoint pump `{Codec} (fuel : nat) : Eff (World Message) unit :=
  match fuel with
  | O => outOfFuel
  | S fuel' =>
      r ← readBuffer_readMessage;
      match r with
      | Thrown error =>
          logger_error "Failed to parse daemon proxy message" (Some error)
      | Returned None => mret tt
      | Returned (Some message) =>
          transport_send_call message;;
          pump fuel'
      end
  end.

(** [process.stdin.on('data', (chunk) => ...)] *)
Definition onStdinData `{Codec} (chunk : list byte) : Eff (World Message) unit :=
  modify (λ w, set_readBuffer (append (readBuffer w) chunk) w);;
  n ← gets (λ w, length (pendingBytes (readBuffer w)));
  pump (S n).

(** [process.stdin.on('close', () => ...)] *)
Definition onStdinClose `{Codec} : Eff (World Message) unit :=
  modify (λ w, set_readBuffer (clear (readBuffer w)) w);;
  r ← gets transport_close;
  emit (EvTransportClose r);;
  match r with
  | Returned _ => mret tt
  | Thrown error => logger_error "Failed to close daemon proxy transport" (Some error)
  end.


(** The messages handed to [transport.send], in order. *)
Fixpoint sentMessages `{Codec} (tr : list (Event Message)) : list Message :=
  match tr with
  | [] => []
  | EvSend m _ :: tr' => m :: sentMessages tr'
  | _ :: tr' => sentMessages tr'
  end.

(** What the ['data'] listener does with the complete lines [ls] of its
    buffer: it forwards the records before the first line that fails to
    parse, and leaves the lines after that one where they are. *)
Fixpoint forwardedOf `{Codec} (ls : list (list byte)) : list Message :=
  match ls with
  | [] => []
  | l :: ls' =>
      match parseRecord l with
      | Returned m => m :: forwardedOf ls'
      | Thrown _ => []
      end
  end.

Fixpoint leftoverOf `{Codec} (ls : list (list byte)) : list (list byte) :=
  match ls with
  | [] => []
  | l :: ls' =>
      match parseRecord l with
      | Returned _ => leftoverOf ls'
      | Thrown _ => ls'
      end
  end.

(** The events of one [transport.send(message).catch(...)] settling as [r],
    and of one run of the listener's loop over the complete lines [ls]
    when [k] messages were sent before. *)
Definition sendEvents `{Codec} (m : Message) (r : completion unit) : list (Event Message) :=
  EvSend m r ::
  match r with
  | Returned _ => []
  | Thrown e => [EvLog LogError "Failed to send daemon proxy message" (Some e)]
  end.

Fixpoint pumpEvents `{Codec} (send : nat → Message → completion unit) (k : nat)
    (ls : list (list byte)) : list (Event Message) :=
  match ls with
  | [] => []
  | l :: ls' =>
      match parseRecord l with
      | Returned m => sendEvents m (send k m) ++ pumpEvents send (S k) ls'
      | Thrown e => [EvLog LogError "Failed to parse daemon proxy message" (Some e)]
      end
  end.

(** What a listener leaves alone: the clock, whether the process has
    exited, whether it listens on stdin, and the transport. *)
Definition sameSession {M} (w w' : World M) : Prop :=
  now w' = now w ∧ exited w' = exited w ∧ listening w' = listening w ∧
  transport_send w' = transport_send w.

(** The bytes of lines [ls], each with its newline, followed by [tl]. *)
Definition joinLines (ls : list (list byte)) (tl : list byte) : list byte :=
  foldr (λ l acc, l ++ LF :: acc) tl ls.

(** ** index.ts: [main] *)

(** The server manager of [@mako10k/shell-server/runtime], which [main]
    only calls: its state, and how each call completes and changes it. *)
Class ServerManager : Type := {
  Manager : Type;
  (** [serverManager.start({ cwd, allowExisting })], resolving to
      [started.serverId] *)
  manager_start : string → bool → Manager → completion string * Manager;
  (** [serverManager.get({ serverId })] *)
  manager_get : string → Manager → completion ServerInfo * Manager;
  (** [serverManager.stop({ serverId, force })] *)
  manager_stop : string → bool → Manager → completion unit * Manager;
}.

(** The proxy process as [main] sees it: the world of [runDaemonProxy],
    the server manager, the command line and the environment. *)
Record Process (M Mgr : Type) : Type := mkProcess {
  world : World M;
  serverManager : Mgr;
  argv : list string;
  env : gmap string string;
  cwd : string;
  (** [version] of the package.json beside the build, when it can be read
      and is a string *)
  packageVersion : option string;
}.
Arguments mkProcess {M Mgr}.
Arguments world {M Mgr} p.
Arguments serverManager {M Mgr} p.
Arguments argv {M Mgr} p.
Arguments env {M Mgr} p.
Arguments cwd {M Mgr} p.
Arguments packageVersion {M Mgr} p.

Definition set_world `{Codec} `{ServerManager} (w : World Message) (p : Process Message Manager) : Process Message Manager :=
  mkProcess w (serverManager p) (argv p) (env p) (cwd p) (packageVersion p).

Definition set_serverManager `{Codec} `{ServerManager} (m : Manager) (p : Process Message Manager)
  : Process Message Manager :=
  mkProcess (world p) m (argv p) (env p) (cwd p) (packageVersion p).

(** Run a computation of the proxy inside the process. *)
Definition liftW `{Codec} `{ServerManager} {A} (m : Eff (World Message) A) : Eff (Process Message Manager) A :=
  λ p, match m (world p) with
       | None => None
       | Some (c, w) => Some (c, set_world w p)
       end.

(** Settle a completion: return its value or throw its error. *)
Definition settle {S A} (c : completion A) : Eff S A :=
  match c with
  | Returned a => mret a
  | Thrown e => throw e
  end.

Definition serverManager_start `{Codec} `{ServerManager}
    (dir : string) (allowExisting : bool) : Eff (Process Message Manager) string :=
  r ← (λ p, let '(r, m) := manager_start dir allowExisting (serverManager p) in
            Some (Returned r, set_serverManager m p));
  liftW (emit (EvManagerStart dir allowExisting r));;
  settle r.

Definition serverManager_get `{Codec} `{ServerManager}
    (serverId : string) : Eff (Process Message Manager) ServerInfo :=
  r ← (λ p, let '(r, m) := manager_get serverId (serverManager p) in
            Some (Returned r, set_serverManager m p));
  liftW (emit (EvManagerGet serverId r));;
  settle r.

Definition serverManager_stop `{Codec} `{ServerManager}
    (serverId : string) (force : bool) : Eff (Process Message Manager) unit :=
  r ← (λ p, let '(r, m) := manager_stop serverId force (serverManager p) in
            Some (Returned r, set_serverManager m p));
  liftW (emit (EvManagerStop serverId force r));;
  settle r.

(** The process after a call to the server manager that left it in state
    [m] and was recorded as [ev]. *)
Definition afterManagerCall `{Codec} `{ServerManager}
    (ev : Event Message) (m : Manager) (p : Process Message Manager) : Process Message Manager :=
  set_world (set_trace (trace (world p) ++ [ev]) (world p)) (set_serverManager m p).

(** Truthiness of a string that may be [undefined]. *)
Definition truthy (s : option string) : bool :=
  match s with
  | None => false
  | Some s => negb (String.eqb s "")
  end.

(** [a || b] on such strings. *)
Definition or_else (a b : option string) : option string :=
  if truthy a then a else b.

(** [info && typeof info === 'object' && 'childSocketPath' in info
      ? info.childSocketPath : undefined] *)
Definition childSocketPathOf (info : ServerInfo) : option string :=
  match info with
  | InfoObject p => p
  | InfoNullish | InfoPrimitive => None
  end.

Definition js_of_string (s : string) : jsstring :=
  (λ a, Ascii.N_of_ascii a) <$> String.list_ascii_of_string s.

Definition newline : string := String (Ascii.ascii_of_nat 10) EmptyString.

(** [process.stdout.write(text)] *)
Definition stdout_write `{Codec} `{ServerManager} (text : string) : Eff (Process Message Manager) unit :=
  liftW (emit (EvStdout (js_of_string text))).

(** [getVersion()] *)
Definition getVersion `{Codec} `{ServerManager} : Eff (Process Message Manager) string :=
  p ← gets id;
  match packageVersion p with
  | Some v => mret v
  | None =>
      if truthy (env p !! "npm_package_version")
      then mret (default "" (env p !! "npm_package_version"))
      else mret "unknown"
  end%string.

Definition helpLines (version : string) : list string :=
  [ "MCP Shell Server v" +:+ version;
    "";
    "Usage: mcp-shell [options]";
    "";
    "Options:";
    "  -h, --help           Show this help and exit";
    "  -v, --version        Show version and exit";
    "  --daemon             Kept for compatibility (default behavior)";
    "";
    "Environment variables:";
    "  BACKOFFICE_ENABLED=true   Start localhost-only Backoffice UI (default: disabled)";
    "  BACKOFFICE_PORT=3030      Backoffice UI port (listens on 127.0.0.1)";
    "  EXECUTION_BACKEND=local|remote  Select execution backend (default: local)";
    "  EXECUTOR_URL / EXECUTOR_HOST / EXECUTOR_PORT / EXECUTOR_TOKEN  Configure remote executor";
    "  MCP_SHELL_DEFAULT_WORKDIR  Default working directory for shell_execute";
    "  SHELL_SERVER_DEFAULT_WORKDIR  Compatible alias for default working directory";
    "  SHELL_SERVER_ALLOWED_WORKDIRS  Comma-separated allowed directories";
    "  MCP_DISABLED_TOOLS         Comma-separated tool names to disable";
    "  LOG_LEVEL=debug|info|warn|error  Log verbosity";
    "";
    "Related commands (from package scripts):";
    "  npm run backoffice:start   Start Backoffice UI only";
    "  npm run executor:start     Start standalone executor backend";
    "";
    "Notes:";
    "  This command runs MCP over STDIO and proxies to an external shell-server process."
  ]%string.

(** [printHelp(version)] *)
Definition printHelp `{Codec} `{ServerManager} (version : string) : Eff (Process Message Manager) unit :=
  stdout_write (String.concat newline (helpLines version) +:+ newline).

Definition includes (l : list string) (x : string) : bool :=
  bool_decide (x ∈ l).

Definition err_no_child_socket : JsError :=
  mkError "Child daemon socket was not available from shell-server process." None.

(** [process.env['MCP_SHELL_DEFAULT_WORKDIR'] ||
     process.env['SHELL_SERVER_DEFAULT_WORKDIR'] || process.cwd()] *)
Definition defaultWorkdir `{Codec} `{ServerManager} (p : Process Message Manager) : string :=
  default (cwd p)
    (or_else (env p !! "MCP_SHELL_DEFAULT_WORKDIR")
       (or_else (env p !! "SHELL_SERVER_DEFAULT_WORKDIR") (Some (cwd p))))%string.

(** [argv.includes('--version') || argv.includes('-v')], and the same for
    help. *)
Definition wantsVersion (args : list string) : bool :=
  includes args "--version" || includes args "-v".

Definition wantsHelp (args : list string) : bool :=
  includes args "--help" || includes args "-h".

(** The entry [main] logs when [--daemon] is given. *)
Definition daemonNotice {M} (args : list string) : list (Event M) :=
  if includes args "--daemon"
  then [EvLog LogInfo "`--daemon` is enabled (default behavior)." None]
  else [].

(** The body of the [try] block of [main]. *)
Definition main_try `{Codec} `{ServerManager} : Eff (Process Message Manager) unit :=
  args ← gets argv;
  (if includes args "--daemon"
   then liftW (logger_info "`--daemon` is enabled (default behavior).")
   else mret tt);;
  dir ← gets defaultWorkdir;
  started ← serverManager_start dir true;
  info ← serverManager_get started;
  let socketPath := childSocketPathOf info in
  socketPath ←
    (if negb (truthy socketPath) then
       serverManager_stop started true;;
       restarted ← serverManager_start dir false;
       restartedInfo ← serverManager_get restarted;
       mret (childSocketPathOf restartedInfo)
     else mret socketPath);
  match socketPath with
  | Some path =>
      if truthy socketPath then liftW (runDaemonProxy path)
      else throw err_no_child_socket
  | None => throw err_no_child_socket
  end.

(** [main()] *)
Definition main `{Codec} `{ServerManager} : Eff (Process Message Manager) unit :=
  args ← gets argv;
  if wantsVersion args then
    ver ← getVersion;
    stdout_write (ver +:+ newline)
  else if wantsHelp args then
    ver ← getVersion;
    printHelp ver
  else
    r ← try main_try;
    match r with
    | Returned _ => mret tt
    | Thrown error =>
        liftW (logger_error "Failed to start shell-server process for MCP proxy"
                 (Some error));;
        liftW (process_exit 1)
    end.

(** ** mcp-daemon.ts: [startMcpDaemon] *)

Inductive DaemonEvent : Type :=
| DMkdir (path : string) (r : completion unit)
| DStat (path : string) (r : completion Stats)
| DUnlink (path : string) (r : completion unit)
| DListen (path : string) (r : completion unit)
| DChmod (path : string) (mode : Z) (r : completion unit)
| DLog (level : LogLevel) (msg : string) (error : option JsError).

(** The daemon process and the file system it works on: one entry per
    path, as [fs.stat] would report it. [dirname] is [path.dirname];
    [d_uid] and [d_umask] are the user and file-creation mask of the
    process; [d_listening] is the path the server is bound to. *)
Record Daemon : Type := mkDaemon {
  fs : gmap string Stats;
  d_env : gmap string string;
  dirname : string → string;
  d_uid : Z;
  d_umask : Z;
  d_listening : option string;
  d_exitCode : option Z;
  d_trace : list DaemonEvent;
}.

Definition set_fs (f : gmap string Stats) (d : Daemon) : Daemon :=
  mkDaemon f (d_env d) (dirname d) (d_uid d) (d_umask d) (d_listening d)
    (d_exitCode d) (d_trace d).

Definition set_d_listening (l : option string) (d : Daemon) : Daemon :=
  mkDaemon (fs d) (d_env d) (dirname d) (d_uid d) (d_umask d) l
    (d_exitCode d) (d_trace d).

Definition set_d_exitCode (c : option Z) (d : Daemon) : Daemon :=
  mkDaemon (fs d) (d_env d) (dirname d) (d_uid d) (d_umask d) (d_listening d)
    c (d_trace d).

Definition set_d_trace (tr : list DaemonEvent) (d : Daemon) : Daemon :=
  mkDaemon (fs d) (d_env d) (dirname d) (d_uid d) (d_umask d) (d_listening d)
    (d_exitCode d) tr.

Definition d_emit (ev : DaemonEvent) : Eff Daemon unit :=
  modify (λ d, set_d_trace (d_trace d ++ [ev]) d).

Definition errno (c : Errno) : JsError := mkError "" (Some c).

(** [stat.isDirectory()] *)
Definition isDirectory (stat : Stats) : bool :=
  Z.land (st_mode stat) S_IFMT =? S_IFDIR.

(** A file of type [kind] created by the process: permission bits [perm]
    less the mask, owned by the process's user. *)
Definition created (d : Daemon) (kind perm : Z) : Stats :=
  mkStats (Z.lor kind (Z.ldiff perm (d_umask d))) (d_uid d).

(** [fs.mkdir(path, { recursive: true })]: nothing to do for a directory
    that exists; [EEXIST] when the path is taken by something else. *)
Definition fs_mkdir_recursive (path : string) : Eff Daemon unit :=
  d ← gets id;
  let '(r, f) :=
    match fs d !! path with
    | Some st =>
        (if isDirectory st then Returned tt else Thrown (errno EEXIST), fs d)
    | None => (Returned tt, <[path := created d S_IFDIR mode_0777]> (fs d))
    end in
  modify (set_fs f);;
  d_emit (DMkdir path r);;
  settle r.

(** [fs.stat(path)] *)
Definition d_stat (path : string) : Eff Daemon Stats :=
  d ← gets id;
  let r :=
    match fs d !! path with
    | Some st => Returned st
    | None => Thrown (errno ENOENT)
    end in
  d_emit (DStat path r);;
  settle r.

(** [fs.unlink(path)] *)
Definition fs_unlink (path : string) : Eff Daemon unit :=
  d ← gets id;
  let r :=
    match fs d !! path with
    | Some _ => Returned tt
    | None => Thrown (errno ENOENT)
    end in
  modify (set_fs (delete path (fs d)));;
  d_emit (DUnlink path r);;
  settle r.

(** [server.listen(path, ...)] with its ['error'] listener: binding a Unix
    socket creates the socket file, and fails with [EADDRINUSE] when the
    path exists, whatever is there. *)
Definition server_listen (path : string) : Eff Daemon unit :=
  d ← gets id;
  match fs d !! path with
  | Some _ =>
      d_emit (DListen path (Thrown (errno EADDRINUSE)));;
      throw (errno EADDRINUSE)
  | None =>
      modify (set_fs (<[path := created d S_IFSOCK mode_0777]> (fs d)));;
      modify (set_d_listening (Some path));;
      d_emit (DListen path (Returned tt))
  end.

(** [fs.chmod(path, mode)]: the permission bits change, the file type
    stays. *)
Definition fs_chmod (path : string) (mode : Z) : Eff Daemon unit :=
  d ← gets id;
  match fs d !! path with
  | Some st =>
      modify (set_fs (<[path := mkStats (Z.lor (Z.land (st_mode st) S_IFMT) mode)
                                  (st_uid st)]> (fs d)));;
      d_emit (DChmod path mode (Returned tt))
  | None =>
      d_emit (DChmod path mode (Thrown (errno ENOENT)));;
      throw (errno ENOENT)
  end.

Definition err_socket_path_required : JsError :=
  mkError "MCP socket path is required." None.

(** [startMcpDaemon()], up to the ["MCP daemon socket ready"] entry; the
    connection callback and the signal handlers it installs do not run
    during startup. *)
Definition startMcpDaemon : Eff Daemon unit :=
  d ← gets id;
  let socketPath := d_env d !! "MCP_SHELL_MCP_SOCKET"%string in
  if negb (truthy socketPath) then throw err_socket_path_required
  else
    let socketPath := default ""%string socketPath in
    fs_mkdir_recursive (dirname d socketPath);;
    try (stat ← d_stat socketPath;
         if isSocket stat then fs_unlink socketPath else mret tt);;
    server_listen socketPath;;
    fs_chmod socketPath mode_0600;;
    d_emit (DLog LogInfo "MCP daemon socket ready" None).

(** [startMcpDaemon().catch(...)], the module's top level. *)
Definition daemon_main : Eff Daemon unit :=
  r ← try startMcpDaemon;
  match r with
  | Returned _ => mret tt
  | Thrown error =>
      d_emit (DLog LogError "MCP daemon startup failed" (Some error));;
      modify (set_d_exitCode (Some 1))
  end.

(** ** What a run shows

    Ways of reading a trace and a world that the theorems of Part II are
    stated with. *)

(** The [fs.stat] calls and the connection attempts among the events [tr]. *)
Definition statCalls {M} (tr : list (Event M)) : list (Event M) :=
  filter (λ ev, isStat ev = true) tr.

Definition connectCalls {M} (tr : list (Event M)) : list (Event M) :=
  filter (λ ev, isConnect ev = true) tr.

(** Timers that fire on time and I/O that takes no time. *)
Definition idealTiming {M} (w : World M) : Prop :=
  (∀ t, io_latency w t = 0%N) ∧ (∀ t, timer_lag w t = 0%N).

(** The first multiple of [interval] at which a poll started at [start]
    is no earlier than [t]. *)
Definition firstPollAfter (start interval t : Z) : Z :=
  start + interval * Z.max 0 ((t - start + interval - 1) / interval).

(** What starting the bridge on path [p] may do: look at [p], try to
    connect to [p], wait, and log. *)
Definition startupEvent {M} (p : string) (ev : Event M) : Prop :=
  match ev with
  | EvStat q _ | EvConnect q _ => q = p
  | EvSleep _ | EvLog _ _ _ => True
  | _ => False
  end.

(** The events of [transport.close()] settling as [r]. *)
Definition closeEvents {M} (r : completion unit) : list (Event M) :=
  EvTransportClose r ::
  match r with
  | Returned _ => []
  | Thrown e => [EvLog LogError "Failed to close daemon proxy transport" (Some e)]
  end.

(** The bytes of a message on the wire. *)
Definition wireBytes `{Codec} (m : Message) : list byte :=
  utf8_encode (serializeMessage m).

(** ** daemon-proxy.ts: the callbacks at work *)

(** What the bridge wrote to stdout, in order. *)
Fixpoint stdoutOf {M} (tr : list (Event M)) : list jsstring :=
  match tr with
  | [] => []
  | EvStdout payload :: tr' => payload :: stdoutOf tr'
  | _ :: tr' => stdoutOf tr'
  end.

(** Events by which the bridge talks to its peers or ends: a write to
    stdout, a message sent to the daemon, the process exiting. *)
Definition isOutput {M} (ev : Event M) : bool :=
  match ev with
  | EvStdout _ | EvSend _ _ | EvExit _ => true
  | _ => false
  end.

(** The callbacks [runDaemonProxy] installs, as the event loop calls
    them. *)
Inductive Callback (M : Type) : Type :=
| StdinData (chunk : list byte)
| StdinClose
| TransportMessage (message : M)
| TransportError (error : JsError)
| TransportClose.
Arguments StdinData {M} chunk.
Arguments StdinClose {M}.
Arguments TransportMessage {M} message.
Arguments TransportError {M} error.
Arguments TransportClose {M}.

Definition runCallback `{Codec} (cb : Callback Message) : Eff (World Message) unit :=
  match cb with
  | StdinData chunk => onStdinData chunk
  | StdinClose => onStdinClose
  | TransportMessage message => onTransportMessage message
  | TransportError error => onTransportError error
  | TransportClose => onTransportClose
  end.

(** The event loop: callbacks run one at a time, to completion, and none
    runs once [process.exit] was called. *)
Fixpoint session `{Codec} (cbs : list (Callback Message)) : Eff (World Message) unit :=
  match cbs with
  | [] => mret tt
  | cb :: cbs' =>
      code ← gets exited;
      match code with
      | Some _ => mret tt
      | None => runCallback cb;; session cbs'
      end
  end.

Definition isTransportClose {M} (cb : Callback M) : bool :=
  match cb with
  | TransportClose => true
  | _ => false
  end.

(** The messages the daemon sent before the transport closed. *)
Fixpoint daemonMessages {M} (cbs : list (Callback M)) : list M :=
  match cbs with
  | [] => []
  | TransportClose :: _ => []
  | TransportMessage m :: cbs' => m :: daemonMessages cbs'
  | _ :: cbs' => daemonMessages cbs'
  end.

(** ** index.ts: [main], call by call *)

(** The events of the [catch] block of [main] for [error]. *)
Definition failureEvents {M} (error : JsError) : list (Event M) :=
  [EvLog LogError "Failed to start shell-server process for MCP proxy" (Some error);
   EvExit 1].

(** The socket path [main] goes on with: a [childSocketPath] that is
    truthy. *)
Definition usablePath (info : ServerInfo) : option string :=
  match childSocketPathOf info with
  | Some path => if truthy (Some path) then Some path else None
  | None => None
  end.

(** The calls [main] makes to a server manager in state [m0], in order,
    and what they lead to: the socket path to bridge, or the error
    thrown. *)
Definition managerScript {M} `{ServerManager} (dir : string) (m0 : Manager)
  : list (Event M) * (string + JsError) * Manager :=
  let '(r1, m1) := manager_start dir true m0 in
  let ev1 := EvManagerStart dir true r1 in
  match r1 with
  | Thrown e => ([ev1], inr e, m1)
  | Returned id1 =>
      let '(r2, m2) := manager_get id1 m1 in
      let ev2 := EvManagerGet id1 r2 in
      match r2 with
      | Thrown e => ([ev1; ev2], inr e, m2)
      | Returned info1 =>
          match usablePath info1 with
          | Some path => ([ev1; ev2], inl path, m2)
          | None =>
              let '(r3, m3) := manager_stop id1 true m2 in
              let ev3 := EvManagerStop id1 true r3 in
              match r3 with
              | Thrown e => ([ev1; ev2; ev3], inr e, m3)
              | Returned _ =>
                  let '(r4, m4) := manager_start dir false m3 in
                  let ev4 := EvManagerStart dir false r4 in
                  match r4 with
                  | Thrown e => ([ev1; ev2; ev3; ev4], inr e, m4)
                  | Returned id2 =>
                      let '(r5, m5) := manager_get id2 m4 in
                      let ev5 := EvManagerGet id2 r5 in
                      match r5 with
                      | Thrown e => ([ev1; ev2; ev3; ev4; ev5], inr e, m5)
                      | Returned info2 =>
                          match usablePath info2 with
                          | Some path => ([ev1; ev2; ev3; ev4; ev5], inl path, m5)
                          | None =>
                              ([ev1; ev2; ev3; ev4; ev5], inr err_no_child_socket, m5)
                          end
                      end
                  end
              end
          end
      end
  end.

(** The version [getVersion] settles on. *)
Definition versionOf {M Mgr} (p : Process M Mgr) : string :=
  match packageVersion p with
  | Some v => v
  | None =>
      match env p !! "npm_package_version"%string with
      | Some v => if String.eqb v "" then "unknown" else v
      | None => "unknown"
      end
  end%string.

(** Process [q] is [p] after the manager went to state [m] and the events
    [evs] happened. *)
Definition advanced `{Codec} `{ServerManager} (p : Process Message Manager) (evs : list (Event Message))
    (m : Manager) (q : Process Message Manager) : Prop :=
  serverManager q = m ∧
  world q = set_trace (trace (world p) ++ evs) (world p).

(** ** mcp-daemon.ts: [shutdown] *)





Definition startupFailed (e : JsError) : DaemonEvent :=
  DLog LogError "MCP daemon startup failed" (Some e).


(** ** server.ts: [DISABLED_TOOLS] *)

(** The code points [String.prototype.trim] removes: WhiteSpace and
    LineTerminator of ECMAScript (U+0009..U+000D, U+0020, U+00A0, U+1680,
    U+2000..U+200A, U+2028, U+2029, U+202F, U+205F, U+3000, U+FEFF). *)
Definition isWhiteSpace (c : N) : bool :=
  ((9 <=? c) && (c <=? 13) || (c =? 32) || (c =? 160) || (c =? 5760) ||
   (8192 <=? c) && (c <=? 8202) || (c =? 8232) || (c =? 8233) || (c =? 8239) ||
   (c =? 8287) || (c =? 12288) || (c =? 65279))%N.

Definition COMMA : N := 44%N.

(** [s.split(sep)] for a separator of one code unit: at least one field,
    the empty string giving one empty field. *)
Fixpoint splitOn (sep : N) (s : jsstring) : list jsstring :=
  match s with
  | [] => [[]]
  | c :: s' =>
      if (c =? sep)%N then [] :: splitOn sep s'
      else match splitOn sep s' with
           | field :: fields => (c :: field) :: fields
           | [] => [[c]]
           end
  end.

(** The value of the variable as one writes it: [fields.join(sep)]. *)
Fixpoint joinWith (sep : N) (fields : list jsstring) : jsstring :=
  match fields with
  | [] => []
  | [field] => field
  | field :: fields' => field ++ sep :: joinWith sep fields'
  end.

Fixpoint trimStart (s : jsstring) : jsstring :=
  match s with
  | c :: s' => if isWhiteSpace c then trimStart s' else s
  | [] => []
  end.

Definition trimEnd (s : jsstring) : jsstring :=
  reverse (trimStart (reverse s)).

(** [t.trim()] *)
Definition trim (s : jsstring) : jsstring := trimEnd (trimStart s).

(** [(process.env['MCP_DISABLED_TOOLS'] || '').split(',')
       .map((t) => t.trim()).filter((t) => t.length > 0)],
    for the value of the variable, [None] when it is not set. *)
Definition DISABLED_TOOLS (value : option jsstring) : list jsstring :=
  filter (λ t, (0 < length t)%nat) (trim <$> splitOn COMMA (default [] value)).

(** A string with no white space at either end, and so not empty; a
    string of white space only. *)
Definition trimmed (t : jsstring) : Prop :=
  (∃ c, head t = Some c ∧ isWhiteSpace c = false) ∧
  (∃ c, last t = Some c ∧ isWhiteSpace c = false).

Definition blank (s : jsstring) : Prop := Forall (λ c, isWhiteSpace c = true) s.

(** ** server.ts: the tool handlers

    The handlers of [MCPShellServer.setupHandlers]. The Zod schemas,
    [dispatchToolCall] and the error classes come from the packages the
    file imports; the handlers are written against them, and so is the
    model. *)

(** [ErrorCode] of the SDK, the two members the file uses. *)
Inductive ErrorCode : Type := MethodNotFound | InvalidRequest.

(** The schemas the file imports. *)
Inductive Schema : Type :=
| ShellExecuteParamsSchema | ShellGetExecutionParamsSchema
| ShellSetDefaultWorkdirParamsSchema | FileListParamsSchema
| FileReadParamsSchema | FileDeleteParamsSchema | TerminalListParamsSchema
| TerminalGetParamsSchema | TerminalCloseParamsSchema
| CleanupSuggestionsParamsSchema | AutoCleanupParamsSchema
| CommandHistoryQueryParamsSchema | ServerCurrentParamsSchema
| ServerListAttachableParamsSchema | ServerStartParamsSchema
| ServerStopParamsSchema | ServerGetParamsSchema | ServerDetachParamsSchema
| ServerReattachParamsSchema | TerminalOperateParamsSchema.

#[global] Instance Schema_eq_dec : EqDecision Schema.
Proof. solve_decision. Defined.

(** How a call into the runtime completes: with a value, or by throwing. *)
Inductive outcome (E A : Type) : Type :=
| Done (a : A)
| Raise (e : E).
Arguments Done {E A} a.
Arguments Raise {E A} e.

(** [dispatchOptions]: [defaultWorkingDirectory] is an optional property. *)
Record DispatchOptions : Type := mkDispatchOptions {
  defaultWorkingDirectory : option jsstring;
  fallbackWorkingDirectory : jsstring;
}.

Class ToolRuntime : Type := {
  (** a JavaScript value: the arguments of a request, the parameters a
      schema gives back, the result of a tool *)
  Value : Type;
  (** a value thrown by a schema or by the runtime *)
  Exception : Type;
  (** all that [dispatchToolCall] works on: the tools, the server manager
      and the machine *)
  RuntimeState : Type;
  (** the truthiness of [v], as [if (v)], [v && ...] and [v || ...] test it *)
  toBoolean : Value → bool;
  (** [v === null || v === undefined], the test of [v ?? ...] *)
  isNullish : Value → bool;
  (** [typeof v === 'object'] *)
  typeofObject : Value → bool;
  (** [key in v] *)
  hasProperty : string → Value → bool;
  (** [v[key]] *)
  getProperty : string → Value → Value;
  (** [String(v)] *)
  toString : Value → jsstring;
  (** [{}] *)
  emptyObject : Value;
  (** [{ cwd }] *)
  cwdObject : jsstring → Value;
  (** [e instanceof Error], [e instanceof ZodError],
      [e instanceof MCPShellError] *)
  instanceofError : Exception → bool;
  instanceofZodError : Exception → bool;
  instanceofMCPShellError : Exception → bool;
  (** [e.message] *)
  errorMessage : Exception → jsstring;
  (** [e.errors] of a [ZodError] *)
  zodErrors : Exception → Value;
  (** [schema.parse(v)] *)
  zodParse : Schema → Value → outcome Exception Value;
  (** [await dispatchToolCall(shellTools, serverManager, name, params,
      dispatchOptions)] *)
  dispatchToolCall :
    jsstring → Value → DispatchOptions → RuntimeState →
    outcome Exception Value * RuntimeState;
  (** [JSON.stringify(result, null, 2)] *)
  stringifyResult : Value → outcome Exception Value;
  (** [new Date().toISOString()] *)
  toISOString : RuntimeState → jsstring;
}.

(** What the handler of a tool call throws: an [McpError] of its own
    making, with the code and the message it gives the constructor, or
    what it caught. *)
Inductive ToolError `{ToolRuntime} : Type :=
| McpError (code : ErrorCode) (message : jsstring)
| Foreign (e : Exception).
Arguments McpError {_} code message.
Arguments Foreign {_} e.

(** [errorDetails], without its constant [error: 'Validation Error']. *)
Record ErrorDetails `{ToolRuntime} : Type := mkErrorDetails {
  ed_message : jsstring;
  ed_receivedArgs : Value;
  ed_validationErrors : Value;
  ed_timestamp : jsstring;
  ed_hint : jsstring;
}.
Arguments mkErrorDetails {_} _ _ _ _ _.

(** What a tool call does that one can see from outside: a call of
    [dispatchToolCall], and
    [console.error('[SHELL_EXECUTE_VALIDATION_ERROR]',
       JSON.stringify(errorDetails, null, 2))]. *)
Inductive ToolEvent `{ToolRuntime} : Type :=
| Dispatched (name : jsstring) (params : Value) (options : DispatchOptions)
| ConsoleError (details : ErrorDetails).
Arguments Dispatched {_} name params options.
Arguments ConsoleError {_} details.

(** The server process: [process.env], [process.cwd()], the runtime, and
    what the handler did so far. *)
Record Server `{ToolRuntime} : Type := mkServer {
  s_env : gmap string jsstring;
  s_cwd : jsstring;
  s_runtime : RuntimeState;
  s_trace : list ToolEvent;
}.
Arguments mkServer {_} _ _ _ _.

Definition logged `{ToolRuntime} (ev : ToolEvent) (s : Server) : Server :=
  mkServer (s_env s) (s_cwd s) (s_runtime s) (s_trace s ++ [ev]).

(** [name === 'literal'] *)
Definition strictEq (name : jsstring) (literal : string) : bool :=
  bool_decide (name = js_of_string literal).

(** [a || b] on strings, [undefined] standing for a missing one. *)
Definition orElse (a b : jsstring) : jsstring :=
  match a with
  | [] => b
  | _ :: _ => a
  end.

(** [s.startsWith(prefix)] *)
Fixpoint startsWith (s prefix : jsstring) : bool :=
  match prefix, s with
  | [], _ => true
  | p :: prefix', c :: s' => (c =? p)%N && startsWith s' prefix'
  | _ :: _, [] => false
  end.

(** [args && typeof args === 'object' && key in args] *)
Definition hasKey `{ToolRuntime} (key : string) (args : Value) : bool :=
  toBoolean args && typeofObject args && hasProperty key args.

(** [return schema.parse(v)] in a function that may also return [null]. *)
Definition returned `{ToolRuntime}
    (r : outcome Exception Value) : outcome Exception (option Value) :=
  match r with
  | Done params => Done (Some params)
  | Raise e => Raise e
  end.

(** [parseServerParams]: [Done None] is its [null]. *)
Definition parseServerParams `{ToolRuntime}
    (name : jsstring) (args : Value) (dispatchOptions : DispatchOptions) :
    outcome Exception (option Value) :=
  if strictEq name "server_current" then
    returned (zodParse ServerCurrentParamsSchema
              (if isNullish args then emptyObject else args))
  else if strictEq name "server_list_attachable" then
    let cwd :=
      orElse
        (orElse
           (if hasKey "cwd" args
            then (let cwd := getProperty "cwd" args in
                  if toBoolean cwd then toString cwd else [])
            else [])
           (default [] (defaultWorkingDirectory dispatchOptions)))
        (fallbackWorkingDirectory dispatchOptions) in
    returned (zodParse ServerListAttachableParamsSchema (cwdObject cwd))
  else if strictEq name "server_start" then
    returned (zodParse ServerStartParamsSchema args)
  else if strictEq name "server_stop" then
    returned (zodParse ServerStopParamsSchema args)
  else if strictEq name "server_get" then
    returned (zodParse ServerGetParamsSchema args)
  else if strictEq name "server_detach" then
    returned (zodParse ServerDetachParamsSchema args)
  else if strictEq name "server_reattach" then
    returned (zodParse ServerReattachParamsSchema args)
  else Done None.

(** [parseNonServerParams] *)
Definition parseNonServerParams `{ToolRuntime}
    (name : jsstring) (args : Value) : outcome Exception (option Value) :=
  if strictEq name "process_get_execution" then
    returned (zodParse ShellGetExecutionParamsSchema args)
  else if strictEq name "shell_set_default_workdir" then
    returned (zodParse ShellSetDefaultWorkdirParamsSchema args)
  else if strictEq name "list_execution_outputs" then
    returned (zodParse FileListParamsSchema args)
  else if strictEq name "read_execution_output" then
    returned (zodParse FileReadParamsSchema args)
  else if strictEq name "delete_execution_outputs" then
    returned (zodParse FileDeleteParamsSchema args)
  else if strictEq name "get_cleanup_suggestions" then
    returned (zodParse CleanupSuggestionsParamsSchema args)
  else if strictEq name "perform_auto_cleanup" then
    returned (zodParse AutoCleanupParamsSchema args)
  else if strictEq name "terminal_operate" then
    returned (zodParse TerminalOperateParamsSchema args)
  else if strictEq name "terminal_list" then
    returned (zodParse TerminalListParamsSchema args)
  else if strictEq name "terminal_get_info" then
    returned (zodParse TerminalGetParamsSchema args)
  else if strictEq name "terminal_close" then
    returned (zodParse TerminalCloseParamsSchema args)
  else if strictEq name "command_history_query" then
    returned (zodParse CommandHistoryQueryParamsSchema args)
  else Done None.

(** The tools the [ListTools] handler builds its answer from: the [name]
    of each and the schema its [inputSchema] is made of, in the order of
    the source (the [description] is a string literal). *)
Definition TOOLS : list (string * Schema) :=
  [ ("shell_execute", ShellExecuteParamsSchema);
    ("process_get_execution", ShellGetExecutionParamsSchema);
    ("shell_set_default_workdir", ShellSetDefaultWorkdirParamsSchema);
    ("list_execution_outputs", FileListParamsSchema);
    ("read_execution_output", FileReadParamsSchema);
    ("delete_execution_outputs", FileDeleteParamsSchema);
    ("get_cleanup_suggestions", CleanupSuggestionsParamsSchema);
    ("perform_auto_cleanup", AutoCleanupParamsSchema);
    ("terminal_operate", TerminalOperateParamsSchema);
    ("terminal_list", TerminalListParamsSchema);
    ("terminal_get_info", TerminalGetParamsSchema);
    ("terminal_close", TerminalCloseParamsSchema);
    ("command_history_query", CommandHistoryQueryParamsSchema);
    ("server_current", ServerCurrentParamsSchema);
    ("server_list_attachable", ServerListAttachableParamsSchema);
    ("server_start", ServerStartParamsSchema);
    ("server_stop", ServerStopParamsSchema);
    ("server_get", ServerGetParamsSchema);
    ("server_detach", ServerDetachParamsSchema);
    ("server_reattach", ServerReattachParamsSchema) ]%string.

(** The handler of [ListToolsRequestSchema], for the list [DISABLED_TOOLS]
    came to when the module was loaded:
    [[...].filter((tool) => !DISABLED_TOOLS.includes(tool.name))]. *)
Definition listTools (disabled : list jsstring) : list (string * Schema) :=
  filter (λ tool, js_of_string tool.1 ∉ disabled) TOOLS.

Definition dquote : string := String (Ascii.ascii_of_nat 34) EmptyString.

(** [specificMessage] and [hint] of the validation error, for
    [isExplanationError || isBackgroundError]. *)
Definition specificMessage (confused : bool) : string :=
  if confused
  then "IMPORTANT: You are confusing MCP Shell Server with VS Code internal tools. This is "
       +:+ dquote +:+ "shell_execute" +:+ dquote +:+ " (MCP Shell Server), NOT "
       +:+ dquote +:+ "run_in_terminal" +:+ dquote
       +:+ " (VS Code internal). Do NOT use parameters like "
       +:+ dquote +:+ "explanation" +:+ dquote +:+ " or "
       +:+ dquote +:+ "isBackground" +:+ dquote
       +:+ ". Use only the parameters defined in shell_execute schema."
  else "Invalid parameters provided to shell_execute".

Definition hint (confused : bool) : string :=
  if confused
  then "Use MCP Shell Server parameters only: command, execution_mode, working_directory, etc."
  else "Check the shell_execute schema for valid parameters".

(** [process.env['MCP_SHELL_DEFAULT_WORKDIR'] ? { defaultWorkingDirectory:
    ... } : {}] with [fallbackWorkingDirectory: process.cwd()]. *)
Definition dispatchOptionsOf `{ToolRuntime} (s : Server) : DispatchOptions :=
  mkDispatchOptions
    (match s_env s !! "MCP_SHELL_DEFAULT_WORKDIR"%string with
     | Some (c :: dir) => Some (c :: dir)
     | Some [] | None => None
     end)
    (s_cwd s).

(** [const result = await dispatchToolCall(...); return { content: [{ type:
    'text', text: JSON.stringify(result, null, 2) }] }], the value of [text]
    standing for the answer. *)
Definition dispatchAndAnswer `{ToolRuntime}
    (name : jsstring) (params : Value) (dispatchOptions : DispatchOptions)
    (s : Server) : outcome Exception Value * Server :=
  let r := dispatchToolCall name params dispatchOptions (s_runtime s) in
  let s' := mkServer (s_env s) (s_cwd s) r.2
              (s_trace s ++ [Dispatched name params dispatchOptions]) in
  match r.1 with
  | Done result => (stringifyResult result, s')
  | Raise e => (Raise e, s')
  end.

(** The [catch (e)] of the [shell_execute] branch. *)
Definition shellExecuteCatch `{ToolRuntime}
    (args : Value) (e : Exception) (s : Server) : outcome ToolError Value * Server :=
  (Raise (Foreign e),
   if instanceofZodError e then
     let isExplanationError := hasKey "explanation" args in
     let isBackgroundError := hasKey "isBackground" args in
     let confused := isExplanationError || isBackgroundError in
     logged (ConsoleError
               (mkErrorDetails (js_of_string (specificMessage confused)) args
                  (zodErrors e) (toISOString (s_runtime s))
                  (js_of_string (hint confused)))) s
   else s).

(** A call with parameters a schema gave back: what it throws is thrown
    on unchanged. *)
Definition dispatchParsed `{ToolRuntime}
    (name : jsstring) (params : Value) (dispatchOptions : DispatchOptions)
    (s : Server) : outcome ToolError Value * Server :=
  let r := dispatchAndAnswer name params dispatchOptions s in
  match r.1 with
  | Done answer => (Done answer, r.2)
  | Raise e => (Raise (Foreign e), r.2)
  end.

(** The [shell_execute] branch: [try { ... } catch (e) { ... }]. *)
Definition shellExecute `{ToolRuntime}
    (name : jsstring) (args : Value) (dispatchOptions : DispatchOptions)
    (s : Server) : outcome ToolError Value * Server :=
  match zodParse ShellExecuteParamsSchema args with
  | Done parsed =>
      let r := dispatchAndAnswer name parsed dispatchOptions s in
      match r.1 with
      | Done answer => (Done answer, r.2)
      | Raise e => shellExecuteCatch args e r.2
      end
  | Raise e => shellExecuteCatch args e s
  end.

(** The last [try] of the handler: the call with the arguments as they
    came, for a name no schema was chosen for. *)
Definition dispatchUnparsed `{ToolRuntime}
    (name : jsstring) (args : Value) (dispatchOptions : DispatchOptions)
    (s : Server) : outcome ToolError Value * Server :=
  let r := dispatchAndAnswer name args dispatchOptions s in
  match r.1 with
  | Done answer => (Done answer, r.2)
  | Raise error =>
      if instanceofError error &&
         startsWith (errorMessage error) (js_of_string "Unsupported tool:")
      then (Raise (McpError MethodNotFound
                     (js_of_string "Unknown tool: " ++ name)), r.2)
      else (Raise (Foreign error), r.2)
  end.

(** The [try] block of the handler of [CallToolRequestSchema]. *)
Definition callTool_try `{ToolRuntime}
    (disabled : list jsstring) (name : jsstring) (args : Value) (s : Server) :
    outcome ToolError Value * Server :=
  if bool_decide (name ∈ disabled) then
    (Raise (McpError MethodNotFound
              (js_of_string "Tool " ++ name ++ js_of_string " is disabled")), s)
  else
    let dispatchOptions := dispatchOptionsOf s in
    if strictEq name "shell_execute" then
      shellExecute name args dispatchOptions s
    else
      let nonServer :=
        match parseNonServerParams name args with
        | Done (Some parsedNonServerParams) =>
            if toBoolean parsedNonServerParams
            then dispatchParsed name parsedNonServerParams dispatchOptions s
            else dispatchUnparsed name args dispatchOptions s
        | Done None => dispatchUnparsed name args dispatchOptions s
        | Raise e => (Raise (Foreign e), s)
        end in
      match parseServerParams name args dispatchOptions with
      | Done (Some parsedServerParams) =>
          if toBoolean parsedServerParams
          then dispatchParsed name parsedServerParams dispatchOptions s
          else nonServer
      | Done None => nonServer
      | Raise e => (Raise (Foreign e), s)
      end.

(** The [catch (error)] of the handler: what it throws for what it
    caught. *)
Definition callTool_catch `{ToolRuntime} (error : ToolError) : ToolError :=
  match error with
  | Foreign e =>
      if instanceofMCPShellError e
      then McpError InvalidRequest (errorMessage e)
      else error
  | McpError _ _ => error
  end.

(** The handler of [CallToolRequestSchema]. *)
Definition callTool `{ToolRuntime}
    (disabled : list jsstring) (name : jsstring) (args : Value) (s : Server) :
    outcome ToolError Value * Server :=
  let r := callTool_try disabled name args s in
  match r.1 with
  | Done answer => (Done answer, r.2)
  | Raise error => (Raise (callTool_catch error), r.2)
  end.

(** The calls of [dispatchToolCall] and the reports on [console.error]
    among the events, and the names of the tools of the list. *)
Definition dispatches `{ToolRuntime}
    (tr : list ToolEvent) : list (jsstring * Value * DispatchOptions) :=
  omap (λ ev, match ev with
              | Dispatched name params options => Some (name, params, options)
              | ConsoleError _ => None
              end) tr.

Definition reports `{ToolRuntime} (tr : list ToolEvent) : list ErrorDetails :=
  omap (λ ev, match ev with
              | ConsoleError details => Some details
              | Dispatched _ _ _ => None
              end) tr.

Definition toolNames : list jsstring := (λ tool, js_of_string tool.1) <$> TOOLS.

(** ** server.ts: [getProcessNotificationInfo] *)

(** [ExecutionInfo], the properties the helper reads: [stdout] and
    [stderr] are optional. *)
Record ExecutionInfo : Type := mkExecutionInfo {
  command : jsstring;
  stdout : option jsstring;
  stderr : option jsstring;
}.

(** [getProcessNotificationInfo]: [commandPreview] and [outputSizeStr]. *)
Definition getProcessNotificationInfo (executionInfo : ExecutionInfo) :
    jsstring * jsstring :=
  let commandPreview :=
    if (40 <? length (command executionInfo))%nat
    then take 37 (command executionInfo) ++ js_of_string "..."
    else command executionInfo in
  let outputSize :=
    (default 0 (length <$> stdout executionInfo) +
     default 0 (length <$> stderr executionInfo))%nat in
  let outputSizeStr :=
    if (0 <? outputSize)%nat
    then js_of_string (" (" +:+ pretty outputSize +:+ " bytes)")
    else [] in
  (commandPreview, outputSizeStr).

(** ** A reference runtime

    One concrete runtime to run the bridge on: a JSON reader and writer
    for the fragment the sample messages use (integers for numbers), the
    ASCII part of UTF-8, a schema, surroundings in which the daemon's
    socket shows up after a while, and server managers. The theorems of
    Part II hold for every runtime; this one serves their examples. *)
Module Reference.

#[local] Unset Elimination Schemes.

Inductive json : Type :=
| JNull
| JBool (b : bool)
| JNumber (n : Z)
| JString (s : jsstring)
| JArray (items : list json)
| JObject (members : list (jsstring * json)).

#[local] Set Elimination Schemes.

(** A text written with ['] where JSON has its double quote. *)
Definition text (s : string) : jsstring :=
  (λ c, if (c =? 39)%N then 34%N else c) <$> js_of_string s.

Definition is_ws (c : N) : bool :=
  ((c =? 32) || (c =? 9) || (c =? 10) || (c =? 13))%N.

Definition is_digit (c : N) : bool := ((48 <=? c) && (c <=? 57))%N.

Fixpoint skip_ws (s : jsstring) : jsstring :=
  match s with
  | c :: s' => if is_ws c then skip_ws s' else s
  | [] => []
  end.

Definition hex_value (c : N) : option N :=
  if is_digit c then Some (c - 48)%N
  else if ((97 <=? c) && (c <=? 102))%N then Some (c - 87)%N
  else if ((65 <=? c) && (c <=? 70))%N then Some (c - 55)%N
  else None.

Definition unescape (c : N) : option N :=
  if (c =? 34)%N then Some 34%N
  else if (c =? 92)%N then Some 92%N
  else if (c =? 47)%N then Some 47%N
  else if (c =? 98)%N then Some 8%N
  else if (c =? 102)%N then Some 12%N
  else if (c =? 110)%N then Some 10%N
  else if (c =? 114)%N then Some 13%N
  else if (c =? 116)%N then Some 9%N
  else None.

(** The characters of a string literal, after its opening quote. *)
Fixpoint parse_chars (s : jsstring) : option (jsstring * jsstring) :=
  match s with
  | [] => None
  | c :: s' =>
      if (c =? 34)%N then Some ([], s')
      else if (c <? 32)%N then None
      else if (c =? 92)%N then
        match s' with
        | [] => None
        | e :: s'' =>
            if (e =? 117)%N then
              match s'' with
              | h1 :: h2 :: h3 :: h4 :: rest =>
                  a ← hex_value h1; b ← hex_value h2;
                  c' ← hex_value h3; d ← hex_value h4;
                  '(str, rest') ← parse_chars rest;
                  Some ((((a * 16 + b) * 16 + c') * 16 + d)%N :: str, rest')
              | _ => None
              end
            else
              x ← unescape e;
              '(str, rest) ← parse_chars s'';
              Some (x :: str, rest)
        end
      else
        '(str, rest) ← parse_chars s';
        Some (c :: str, rest)
  end.

Fixpoint parse_digits (acc : Z) (s : jsstring) : Z * jsstring :=
  match s with
  | c :: s' =>
      if is_digit c then parse_digits (acc * 10 + (Z.of_N c - 48)) s'
      else (acc, s)
  | [] => (acc, [])
  end.

(** Integers only: a fraction or an exponent is left unread and makes
    the enclosing value fail. *)
Definition parse_number (s : jsstring) : option (json * jsstring) :=
  match s with
  | c :: s' =>
      if (c =? 45)%N then
        match s' with
        | d :: _ =>
            if is_digit d
            then let '(n, rest) := parse_digits 0 s' in Some (JNumber (- n), rest)
            else None
        | [] => None
        end
      else if is_digit c
      then let '(n, rest) := parse_digits 0 s in Some (JNumber n, rest)
      else None
  | [] => None
  end.

Fixpoint expect (word : jsstring) (s : jsstring) : option jsstring :=
  match word, s with
  | [], _ => Some s
  | w :: word', c :: s' => if (w =? c)%N then expect word' s' else None
  | _ :: _, [] => None
  end.

Fixpoint parse_value (fuel : nat) (s : jsstring) : option (json * jsstring) :=
  match fuel with
  | O => None
  | S fuel' =>
      match skip_ws s with
      | [] => None
      | c :: s' =>
          if (c =? 110)%N then rest ← expect (text "ull") s'; Some (JNull, rest)
          else if (c =? 116)%N then rest ← expect (text "rue") s'; Some (JBool true, rest)
          else if (c =? 102)%N then rest ← expect (text "alse") s'; Some (JBool false, rest)
          else if (c =? 34)%N then '(str, rest) ← parse_chars s'; Some (JString str, rest)
          else if (c =? 91)%N then
            match skip_ws s' with
            | d :: rest =>
                if (d =? 93)%N then Some (JArray [], rest)
                else '(items, rest') ← parse_elements fuel' s'; Some (JArray items, rest')
            | [] => None
            end
          else if (c =? 123)%N then
            match skip_ws s' with
            | d :: rest =>
                if (d =? 125)%N then Some (JObject [], rest)
                else '(ms, rest') ← parse_members fuel' s'; Some (JObject ms, rest')
            | [] => None
            end
          else parse_number (c :: s')
      end
  end
with parse_elements (fuel : nat) (s : jsstring) : option (list json * jsstring) :=
  match fuel with
  | O => None
  | S fuel' =>
      '(v, rest) ← parse_value fuel' s;
      match skip_ws rest with
      | d :: rest' =>
          if (d =? 44)%N then
            '(vs, rest'') ← parse_elements fuel' rest'; Some (v :: vs, rest'')
          else if (d =? 93)%N then Some ([v], rest')
          else None
      | [] => None
      end
  end
with parse_members (fuel : nat) (s : jsstring)
  : option (list (jsstring * json) * jsstring) :=
  match fuel with
  | O => None
  | S fuel' =>
      match skip_ws s with
      | q :: s' =>
          if (q =? 34)%N then
            '(key, rest) ← parse_chars s';
            match skip_ws rest with
            | colon :: rest' =>
                if (colon =? 58)%N then
                  '(v, rest'') ← parse_value fuel' rest';
                  match skip_ws rest'' with
                  | d :: rest''' =>
                      if (d =? 44)%N then
                        '(ms, rest4) ← parse_members fuel' rest''';
                        Some ((key, v) :: ms, rest4)
                      else if (d =? 125)%N then Some ([(key, v)], rest''')
                      else None
                  | [] => None
                  end
                else None
            | [] => None
            end
          else None
      | [] => None
      end
  end.

Definition syntaxError : JsError := mkError "SyntaxError" None.

Definition parse (s : jsstring) : completion json :=
  match parse_value (2 * length s + 2) s with
  | Some (v, rest) =>
      match skip_ws rest with
      | [] => Returned v
      | _ :: _ => Thrown syntaxError
      end
  | None => Thrown syntaxError
  end.

Definition hex_digit (n : N) : N := if (n <? 10)%N then (48 + n)%N else (87 + n)%N.

Definition escape_char (c : N) : jsstring :=
  if (c =? 34)%N then [92; 34]%N
  else if (c =? 92)%N then [92; 92]%N
  else if (c =? 8)%N then [92; 98]%N
  else if (c =? 12)%N then [92; 102]%N
  else if (c =? 10)%N then [92; 110]%N
  else if (c =? 13)%N then [92; 114]%N
  else if (c =? 9)%N then [92; 116]%N
  else if (c <? 32)%N then [92; 117; 48; 48; hex_digit (c / 16); hex_digit (c mod 16)]%N
  else [c].

Definition quote (s : jsstring) : jsstring :=
  34%N :: concat (escape_char <$> s) ++ [34%N].

Fixpoint join (parts : list jsstring) : jsstring :=
  match parts with
  | [] => []
  | part :: parts' =>
      match parts' with
      | [] => part
      | _ :: _ => part ++ 44%N :: join parts'
      end
  end.

Fixpoint stringify (v : json) : jsstring :=
  match v with
  | JNull => text "null"
  | JBool true => text "true"
  | JBool false => text "false"
  | JNumber n => js_of_string (pretty n)
  | JString s => quote s
  | JArray items => 91%N :: join (List.map stringify items) ++ [93%N]
  | JObject members =>
      123%N ::
      join (List.map (λ kv, quote (fst kv) ++ 58%N :: stringify (snd kv)) members)
      ++ [125%N]
  end.

(** [k in obj] on the members of an object. *)
Definition hasField (k : string) (members : list (jsstring * json)) : bool :=
  existsb (λ kv, bool_decide (fst kv = js_of_string k)) members.

(** Modelled from the spec: [JSONRPCMessageSchema] is the SDK's and not
    among the sources. The specification gives the shape it accepts as
    "fields: [id], plus exactly one of [method](+[params]), [result],
    [error]", "rejecting ambiguous or extra-shaped records". *)
Definition exactlyOneOf (v : json) : bool :=
  match v with
  | JObject members =>
      hasField "id" members &&
      (length (filter (λ k, hasField k members = true)
                 ["method"; "result"; "error"]%string) =? 1)%nat &&
      (negb (hasField "params" members) || hasField "method" members)
  | _ => false
  end.

Definition zodError : JsError := mkError "ZodError" None.

(** Modelled from the spec: [JSONRPCMessageSchema.parse] returns a record
    of the shape above as it is and throws on any other. *)
Definition schema_parse (v : json) : completion json :=
  if exactlyOneOf v then Returned v else Thrown zodError.

(** The ASCII part of UTF-8; any other byte decodes to U+FFFD and any
    other code unit is written as [?]. *)
Definition ascii_decode (b : list byte) : jsstring :=
  (λ x, let n := Byte.to_N x in if (n <? 128)%N then n else 65533%N) <$> b.

Definition ascii_encode (s : jsstring) : list byte :=
  (λ c, if (c <? 128)%N then default x3f (Byte.of_N c) else x3f) <$> s.

Definition codec : Codec :=
  {| JSONValue := json;
     Message := json;
     utf8_decode := ascii_decode;
     utf8_encode := ascii_encode;
     JSON_parse := parse;
     JSON_stringify := stringify;
     JSONRPCMessageSchema_parse := schema_parse |}.

(** The bytes of a text. *)
Definition bytes (s : string) : list byte := ascii_encode (text s).

Definition CRLF : list byte := [x0d; x0a].

(** Sample records, without their newline: a request, its reply, a
    record that is both, and a line that is no JSON. *)
Definition ping : list byte :=
  bytes "{'jsonrpc':'2.0','id':1,'method':'ping'}".
Definition reply : list byte :=
  bytes "{'jsonrpc':'2.0','id':1,'result':{'ok':true}}".
Definition garbage : list byte := bytes "not json".

Definition pingMessage : @Message codec :=
  JObject [(text "jsonrpc", JString (text "2.0"));
           (text "id", JNumber 1);
           (text "method", JString (text "ping"))].

Definition replyMessage : @Message codec :=
  JObject [(text "jsonrpc", JString (text "2.0"));
           (text "id", JNumber 1);
           (text "result", JObject [(text "ok", JBool true)])].

(** A socket file with mode 0600, and a regular file with mode 0644,
    owned by [uid]. *)
Definition socketFile (uid : Z) : Stats := mkStats (Z.lor S_IFSOCK mode_0600) uid.
Definition regularFile (uid : Z) : Stats := mkStats (Z.lor S_IFREG 420) uid.

(** Surroundings with no latency and an idle transport, at time 0. *)
Definition surroundings
    (stat : Z → string → completion Stats)
    (connect : Z → string → completion unit)
    (send : nat → json → completion unit)
    (getuid : option Z) : World (@Message codec) :=
  mkWorld (M := @Message codec) 0 stat connect send (Returned tt) (λ _, 0%N) (λ _, 0%N) getuid
    0%nat newReadBuffer false None [].

(** The daemon's socket appears at time [t0]. *)
Definition appearsAt (t0 : Z) (uid : Z) : Z → string → completion Stats :=
  λ t _, if t <? t0 then Thrown (errno ENOENT) else Returned (socketFile uid).

(** The daemon refuses connections before time [t0]. *)
Definition acceptsFrom (t0 : Z) : Z → string → completion unit :=
  λ t _, if t <? t0 then Thrown (errno ECONNREFUSED) else Returned tt.

(** A server manager that numbers the servers it starts; the child
    socket of a server is known from server number [ready] on. *)
Definition manager (ready : nat) : ServerManager :=
  {| Manager := nat;
     manager_start := λ _ _ n, (Returned ("server-" +:+ pretty n), S n);
     manager_get := λ _ n,
       (Returned (InfoObject (if (ready <=? n)%nat
                              then Some "/run/shell/child.sock"%string
                              else None)), n);
     manager_stop := λ _ _ n, (Returned tt, n) |}.

Definition process (ready : nat) (args : list string) (w : World (@Message codec))
  : Process (@Message codec) nat :=
  mkProcess (M := @Message codec) (Mgr := nat) w 0%nat args ∅ "/home/user" None.


Definition lateWorld : World (@Message codec) :=
  surroundings (appearsAt 500 1000) (acceptsFrom 0) (λ _ _, Returned tt) (Some 1000).



(** A daemon whose socket is ready but which refuses connections for
    1800 ms, and one whose socket cannot be opened. *)
Definition refusingWorld : World (@Message codec) :=
  surroundings (appearsAt 0 1000) (acceptsFrom 1800) (λ _ _, Returned tt) (Some 1000).

(** A running session whose transport fails to send the first message. *)
Definition brokenPipe : JsError := mkError "socket closed" None.
Definition sessionWorld : World (@Message codec) :=
  set_listening true
    (surroundings (appearsAt 0 1000) (acceptsFrom 0)
       (λ k _, if (k =? 0)%nat then Thrown brokenPipe else Returned tt)
       (Some 1000)).

(** A daemon that is up at once. *)
Definition readyWorld : World (@Message codec) :=
  surroundings (appearsAt 0 1000) (acceptsFrom 0) (λ _ _, Returned tt) (Some 1000).

End Reference.

(** ** More surroundings for the examples *)

Module Scenarios.
Import Reference.

(** The daemon's socket shows up 100 ms before the readiness deadline; the
    daemon accepts connections 100 ms before the connection deadline. *)
Definition tooLateWorld : World (@Message codec) :=
  surroundings (appearsAt 2900 1000) (acceptsFrom 0) (λ _ _, Returned tt) (Some 1000).
Definition slowDaemonWorld : World (@Message codec) :=
  surroundings (appearsAt 0 1000) (acceptsFrom 1900) (λ _ _, Returned tt) (Some 1000).

(** A process whose environment names working directories, the first
    one empty. *)
Definition configuredProcess : Process (@Message codec) nat :=
  mkProcess (M := @Message codec) (Mgr := nat) readyWorld 0%nat []
    (<["MCP_SHELL_DEFAULT_WORKDIR" := ""]>
       {["SHELL_SERVER_DEFAULT_WORKDIR" := "/srv/work"]})%string
    "/home/user" None.

(** A process asked for its version and for help at once. *)
Definition versionProcess : Process (@Message codec) nat :=
  mkProcess (M := @Message codec) (Mgr := nat) readyWorld 0%nat
    ["--help"; "--version"]%string ∅ "/home/user" (Some "2.0.1"%string).

(** A daemon without a socket path, and one whose parent directory is a
    regular file. *)
Definition unconfiguredDaemon : Daemon :=
  mkDaemon ∅ ∅ (λ _, "/run/mcp"%string) 1000 18 None None [].
Definition blockedDaemon : Daemon :=
  mkDaemon {["/run/mcp"%string := regularFile 1000]}
    {["MCP_SHELL_MCP_SOCKET" := "/run/mcp/daemon.sock"]}%string
    (λ _, "/run/mcp"%string) 1000 18 None None [].

End Scenarios.

(** ** A reference runtime for the tool handlers

    Values that are [undefined], a string, or an object whose properties
    are strings; schemas that ask for an object, [ShellExecuteParamsSchema]
    for one with a [command]; a runtime that knows the tools of the list,
    answers with the name of the tool, finds no server to stop, and counts
    its calls, one millisecond each. *)
Module ToolsReference.
Import Reference.

Inductive value : Type :=
| Undefined
| Str (s : jsstring)
| Obj (members : list (string * jsstring)).

Inductive exception : Type :=
| ZodFailure (issues : value)
| ShellFailure (message : jsstring)
| Failure (message : jsstring).

Fixpoint member (key : string) (members : list (string * jsstring)) : option jsstring :=
  match members with
  | [] => None
  | (k, v) :: members' => if String.eqb k key then Some v else member key members'
  end.

(** [JSON.stringify(v, null, 2)] *)
Definition stringify2 (v : value) : value :=
  match v with
  | Undefined => Undefined
  | Str s => Str (quote s)
  | Obj [] => Str (js_of_string "{}")
  | Obj members =>
      Str (js_of_string "{" ++
           joinWith COMMA
             ((λ m, char_LF :: js_of_string "  " ++ quote (js_of_string m.1) ++
                    js_of_string ": " ++ quote m.2) <$> members) ++
           char_LF :: js_of_string "}")
  end.

#[global] Instance tools : ToolRuntime := {|
  Value := value;
  Exception := exception;
  RuntimeState := nat;
  toBoolean := λ v, match v with
                    | Undefined | Str [] => false
                    | Str (_ :: _) | Obj _ => true
                    end;
  isNullish := λ v, match v with Undefined => true | _ => false end;
  typeofObject := λ v, match v with Obj _ => true | _ => false end;
  hasProperty := λ key v, match v with
                          | Obj members => bool_decide (is_Some (member key members))
                          | _ => false
                          end;
  getProperty := λ key v, match v with
                          | Obj members => from_option Str Undefined (member key members)
                          | _ => Undefined
                          end;
  toString := λ v, match v with
                   | Undefined => js_of_string "undefined"
                   | Str s => s
                   | Obj _ => js_of_string "[object Object]"
                   end;
  emptyObject := Obj [];
  cwdObject := λ cwd, Obj [("cwd"%string, cwd)];
  instanceofError := λ _, true;
  instanceofZodError := λ e, match e with ZodFailure _ => true | _ => false end;
  instanceofMCPShellError := λ e, match e with ShellFailure _ => true | _ => false end;
  errorMessage := λ e, match e with
                       | ZodFailure _ => js_of_string "Invalid input"
                       | ShellFailure message | Failure message => message
                       end;
  zodErrors := λ e, match e with ZodFailure issues => issues | _ => Undefined end;
  zodParse := λ schema v,
    match v with
    | Obj members =>
        match schema, member "command" members with
        | ShellExecuteParamsSchema, None =>
            Raise (ZodFailure (Str (js_of_string "command: Required")))
        | _, _ => Done v
        end
    | _ => Raise (ZodFailure (Str (js_of_string "Expected object")))
    end;
  dispatchToolCall := λ name params options calls,
    (if bool_decide (name = js_of_string "server_stop")
     then Raise (ShellFailure (js_of_string "Server not found"))
     else if bool_decide (name ∈ toolNames) then Done (Str name)
     else Raise (Failure (js_of_string "Unsupported tool: " ++ name)),
     S calls);
  stringifyResult := λ v, Done (stringify2 v);
  toISOString := λ calls,
    js_of_string ("1970-01-01T00:00:00." +:+
                  String.substring 1 3 (pretty (1000 + calls mod 1000)%nat) +:+ "Z");
|}.

(** A server that has not been called yet. *)
Definition freshServer : Server :=
  mkServer {["MCP_SHELL_DEFAULT_WORKDIR"%string := js_of_string "/srv/work"]}
    (js_of_string "/home/user") 0%nat [].

End ToolsReference.

(* ===================================================================== *)
(** * Part II: theorems *)
(* ===================================================================== *)

#[global] Instance byte_eq_dec : EqDecision byte := Byte.byte_eq_dec.

Lemma byte_eqb_true (a b : byte) : byte_eqb a b = true ↔ a = b.
Proof.
  unfold byte_eqb. split.
  - apply Byte.byte_dec_bl.
  - apply Byte.byte_dec_lb.
Qed.

Lemma byte_eqb_false (a b : byte) : byte_eqb a b = false ↔ a ≠ b.
Proof.
  rewrite <- byte_eqb_true. destruct (byte_eqb a b); split; congruence.
Qed.

(** ** The framer *)

Section Framer.
Context `{Codec}.

Lemma indexOf_range (b : list byte) (x : byte) :
  -1 ≤ indexOf b x < Z.of_nat (length b).
Proof.
  induction b as [|y b IH]; simpl; [lia|].
  destruct (byte_eqb y x); [lia|].
  destruct (Z.eqb_spec (indexOf b x) (-1)); lia.
Qed.

Lemma indexOf_absent (b : list byte) (x : byte) :
  x ∉ b → indexOf b x = -1.
Proof.
  induction b as [|y b IH]; simpl; [done|].
  intros [Hne Hb]%not_elem_of_cons.
  assert (byte_eqb y x = false) as -> by (apply byte_eqb_false; congruence).
  rewrite IH by done. done.
Qed.

Lemma indexOf_first (l r : list byte) (x : byte) :
  x ∉ l → indexOf (l ++ x :: r) x = Z.of_nat (length l).
Proof.
  induction l as [|y l IH]; simpl.
  - intros _. assert (byte_eqb x x = true) as -> by (by apply byte_eqb_true). done.
  - intros [Hne Hl]%not_elem_of_cons.
    assert (byte_eqb y x = false) as -> by (apply byte_eqb_false; congruence).
    rewrite IH by done.
    destruct (Z.eqb_spec (Z.of_nat (length l)) (-1)); lia.
Qed.

(** Every buffer either holds no newline, or splits at its first one. *)
Lemma first_newline (b : list byte) :
  LF ∉ b ∨ ∃ l r, b = l ++ LF :: r ∧ LF ∉ l.
Proof.
  destruct (decide (LF ∈ b)) as [Hin|Hnot]; [right|by left].
  apply list_elem_of_split_l in Hin as (l & r & -> & Hl). eauto.
Qed.

Lemma readMessage_undefined :
  readMessage newReadBuffer = (Returned None, newReadBuffer).
Proof. reflexivity. Qed.

Lemma readMessage_incomplete (b : list byte) :
  LF ∉ b →
  readMessage (mkReadBuffer (Some b)) = (Returned None, mkReadBuffer (Some b)).
Proof.
  intros Hb. unfold readMessage; simpl.
  rewrite indexOf_absent by done. done.
Qed.

Lemma readMessage_line (l r : list byte) :
  LF ∉ l →
  readMessage (mkReadBuffer (Some (l ++ LF :: r))) =
    (match parseLine (recordText l) with
     | Returned m => Returned (Some m)
     | Thrown e => Thrown e
     end, mkReadBuffer (Some r)).
Proof.
  intros Hl. unfold readMessage; simpl.
  rewrite indexOf_first by done.
  destruct (Z.eqb_spec (Z.of_nat (length l)) (-1)) as [?|_]; [lia|].
  rewrite Nat2Z.id.
  replace (Z.to_nat (Z.of_nat (length l) + 1)) with (S (length l)) by lia.
  rewrite take_app_length.
  replace (drop (S (length l)) (l ++ LF :: r)) with r.
  2:{ rewrite drop_app_ge by lia.
      replace (S (length l) - length l)%nat with 1%nat by lia. done. }
  by destruct (parseLine (recordText l)).
Qed.

Lemma readMessage_record (l r : list byte) :
  LF ∉ l →
  readMessage (mkReadBuffer (Some (l ++ LF :: r))) =
    (match parseRecord l with
     | Returned m => Returned (Some m)
     | Thrown e => Thrown e
     end, mkReadBuffer (Some r)).
Proof. apply readMessage_line. Qed.

Lemma splitLines_incomplete (b : list byte) :
  LF ∉ b → splitLines b = ([], b).
Proof.
  induction b as [|x b IH]; simpl; [done|].
  intros [Hne Hb]%not_elem_of_cons. rewrite IH by done.
  assert (byte_eqb x LF = false) as -> by (apply byte_eqb_false; congruence).
  done.
Qed.

Lemma splitLines_line (l r : list byte) :
  LF ∉ l →
  splitLines (l ++ LF :: r) = (l :: (splitLines r).1, (splitLines r).2).
Proof.
  induction l as [|x l IH]; simpl.
  - intros _. by destruct (splitLines r).
  - intros [Hne Hl]%not_elem_of_cons. rewrite IH by done.
    assert (byte_eqb x LF = false) as -> by (apply byte_eqb_false; congruence).
    done.
Qed.

Lemma splitLines_count (b : list byte) :
  (length (splitLines b).1 ≤ length b)%nat.
Proof.
  induction b as [|x b IH]; simpl; [lia|].
  destruct (splitLines b) as [ls tl]; simpl in *.
  destruct (byte_eqb x LF); simpl; [lia|].
  destruct ls; simpl in *; lia.
Qed.

Lemma splitLines_tail (b : list byte) : LF ∉ (splitLines b).2.
Proof.
  induction b as [|x b IH]; simpl; [apply not_elem_of_nil|].
  destruct (splitLines b) as [ls tl]; simpl in *.
  destruct (byte_eqb x LF) eqn:Hx; simpl; [done|].
  apply byte_eqb_false in Hx.
  destruct ls; simpl; [|done].
  apply not_elem_of_cons. split; [congruence|done].
Qed.

Lemma splitLines_app (a b : list byte) :
  splitLines (a ++ b) =
    ((splitLines a).1 ++ (splitLines ((splitLines a).2 ++ b)).1,
     (splitLines ((splitLines a).2 ++ b)).2).
Proof.
  induction a as [|x a IH]; simpl.
  - by destruct (splitLines b).
  - rewrite IH. destruct (splitLines a) as [la ta]; simpl.
    destruct (byte_eqb x LF) eqn:Hx; simpl; [done|].
    destruct la as [|l la]; simpl; [|done].
    rewrite Hx. by destruct (splitLines (ta ++ b)) as [[|??] ?].
Qed.

(** Reading dry: enough calls return every complete line, in order, and
    leave the bytes after the last newline. *)
Lemma readAll_framed (fuel : nat) (b : list byte) :
  (length (splitLines b).1 < fuel)%nat →
  readAll fuel (mkReadBuffer (Some b)) =
    Some (framed b, mkReadBuffer (Some (splitLines b).2)).
Proof.
  revert b. induction fuel as [|fuel IH]; intros b Hfuel; [lia|].
  unfold framed. simpl.
  destruct (first_newline b) as [Hb|(l & r & -> & Hl)].
  - rewrite readMessage_incomplete, splitLines_incomplete by done. done.
  - rewrite readMessage_record by done.
    rewrite splitLines_line in Hfuel |- * by done. simpl in *.
    specialize (IH r ltac:(lia)). unfold framed in IH.
    destruct (parseRecord l); rewrite IH; done.
Qed.

Lemma drain_framed (rb : ReadBuffer) :
  ∃ rb', drain rb = Some (framed (pendingBytes rb), rb') ∧
         pendingBytes rb' = (splitLines (pendingBytes rb)).2.
Proof.
  destruct rb as [[b|]]; unfold drain.
  - change (pendingBytes {| buffer := Some b |}) with b.
    exists (mkReadBuffer (Some (splitLines b).2)). split; [|done].
    rewrite readAll_framed; [done|].
    pose proof (splitLines_count b). lia.
  - by exists newReadBuffer.
Qed.

Lemma pendingBytes_append (rb : ReadBuffer) (chunk : list byte) :
  pendingBytes (append rb chunk) = pendingBytes rb ++ chunk.
Proof. by destruct rb as [[b|]]. Qed.

Lemma pendingBytes_foldl (chunks : list (list byte)) (rb : ReadBuffer) :
  pendingBytes (foldl append rb chunks) = pendingBytes rb ++ concat chunks.
Proof.
  revert rb. induction chunks as [|c chunks IH]; intros rb; simpl.
  - by rewrite app_nil_r.
  - by rewrite IH, pendingBytes_append, <- app_assoc.
Qed.

Lemma framed_app (a b : list byte) :
  framed (a ++ b) = framed a ++ framed ((splitLines a).2 ++ b).
Proof. unfold framed. rewrite splitLines_app. cbn [fst]. apply fmap_app. Qed.

Lemma feed_framed (chunks : list (list byte)) (rb : ReadBuffer) :
  LF ∉ pendingBytes rb →
  ∃ rb', feed rb chunks = Some (framed (pendingBytes rb ++ concat chunks), rb') ∧
         pendingBytes rb' = (splitLines (pendingBytes rb ++ concat chunks)).2.
Proof.
  revert rb. induction chunks as [|c chunks IH]; intros rb Hrb; simpl.
  - exists rb. rewrite app_nil_r. unfold framed.
    rewrite splitLines_incomplete by done. done.
  - destruct (drain_framed (append rb c)) as (rb1 & -> & Hrb1). simpl.
    rewrite pendingBytes_append in Hrb1.
    destruct (IH rb1) as (rb2 & -> & Hrb2).
    { rewrite Hrb1. apply splitLines_tail. }
    exists rb2. simpl. rewrite Hrb2, Hrb1, pendingBytes_append.
    rewrite (app_assoc (pendingBytes rb) c (concat chunks)).
    rewrite (framed_app (pendingBytes rb ++ c)).
    rewrite (splitLines_app (pendingBytes rb ++ c)). done.
Qed.

Lemma foldl_append_buffer (chunks : list (list byte)) (rb : ReadBuffer) :
  chunks ≠ [] →
  foldl append rb chunks = mkReadBuffer (Some (pendingBytes rb ++ concat chunks)).
Proof.
  revert rb. induction chunks as [|c chunks IH]; intros rb Hne; [done|].
  simpl. destruct chunks as [|c' chunks].
  - simpl. rewrite app_nil_r. by destruct rb as [[b|]].
  - rewrite IH by done. rewrite pendingBytes_append, <- app_assoc. done.
Qed.

Lemma replace_trailing_CR_snoc (s : jsstring) (c : N) :
  replace_trailing_CR (s ++ [c]) = if (c =? char_CR)%N then s else s ++ [c].
Proof.
  induction s as [|d s IH]; simpl.
  - by destruct (c =? char_CR)%N.
  - rewrite IH. destruct (s ++ [c]) as [|? ?] eqn:Hs.
    + by destruct s.
    + by destruct (c =? char_CR)%N.
Qed.

(** C1. However a byte sequence is cut into chunks, delivering the chunks
    in order to a fresh [ReadBuffer] and reading it dry with [readMessage]
    (after every chunk, or once after the last one) gives the same
    completions, in the same order, as delivering the whole sequence as
    one chunk: the same parsed messages, and the same bytes left over. *)
Theorem chunked_delivery_same_messages (chunks : list (list byte)) :
  ∃ out rb rb1 rb2,
    feed newReadBuffer chunks = Some (out, rb) ∧
    feedThenDrain newReadBuffer chunks = Some (out, rb2) ∧
    feed newReadBuffer [concat chunks] = Some (out, rb1) ∧
    pendingBytes rb = pendingBytes rb1 ∧
    pendingBytes rb2 = pendingBytes rb1.
Proof.
  destruct (feed_framed chunks newReadBuffer) as (rb & Hfeed & Hrb);
    [apply not_elem_of_nil|].
  destruct (feed_framed [concat chunks] newReadBuffer) as (rb1 & Hone & Hrb1);
    [apply not_elem_of_nil|].
  destruct (drain_framed (foldl append newReadBuffer chunks)) as (rb2 & Hall & Hrb2).
  rewrite pendingBytes_foldl in Hall, Hrb2.
  simpl in *. rewrite app_nil_r in Hone, Hrb1.
  exists (framed (concat chunks)), rb, rb1, rb2.
  unfold feedThenDrain. rewrite Hfeed, Hone, Hall, Hrb, Hrb1, Hrb2. done.
Qed.

(** C3. Let the chunks appended so far spell [l], a newline, then [r],
    with no newline inside [l]. Then [readMessage] hands the parser the
    decoding of exactly [l] with one trailing carriage return removed
    (a second one stays), and leaves exactly [r] in the buffer, whether
    the record parsed or the call threw; when it threw, the records of
    [r] are still returned by the following calls. Bytes [t] that hold
    no newline are kept as they are: [readMessage] returns [null] without
    touching them, and the next [append] puts its chunk right behind
    them. *)
Theorem readBuffer_framing (chunks : list (list byte)) (l r t next : list byte) :
  concat chunks = l ++ LF :: r →
  LF ∉ l →
  LF ∉ t →
  let rb := foldl append newReadBuffer chunks in
  readMessage rb =
    (asRead (parseLine (replace_trailing_CR (utf8_decode l))),
     mkReadBuffer (Some r)) ∧
  (∀ s : jsstring,
      replace_trailing_CR (s ++ [char_CR]) = s ∧
      ∀ c, c ≠ char_CR → replace_trailing_CR (s ++ [c]) = s ++ [c]) ∧
  (∀ e, parseRecord l = Thrown e →
        readMessage rb = (Thrown e, mkReadBuffer (Some r)) ∧
        ∃ rb', drain (readMessage rb).2 = Some (framed r, rb') ∧
               pendingBytes rb' = (splitLines r).2) ∧
  readMessage (mkReadBuffer (Some t)) = (Returned None, mkReadBuffer (Some t)) ∧
  append (mkReadBuffer (Some t)) next = mkReadBuffer (Some (t ++ next)).
Proof.
  intros Hcat Hl Ht rb.
  assert (rb = mkReadBuffer (Some (l ++ LF :: r))) as Hrb.
  { subst rb. rewrite foldl_append_buffer, Hcat; [done|].
    intros ->. by destruct l. }
  assert (readMessage rb = (asRead (parseRecord l), mkReadBuffer (Some r))) as Hread.
  { rewrite Hrb. apply readMessage_record, Hl. }
  split; [exact Hread|]. split; [|split; [|split]].
  - intros s. split.
    + rewrite replace_trailing_CR_snoc. done.
    + intros c Hc. rewrite replace_trailing_CR_snoc.
      by destruct (N.eqb_spec c char_CR).
  - intros e He. rewrite Hread, He. split; [done|]. simpl.
    apply (drain_framed (mkReadBuffer (Some r))).
  - by apply readMessage_incomplete.
  - done.
Qed.


End Framer.

(** ** The socket readiness check *)

(** Unfold the plumbing of [Eff] and the record updates of [World]. *)
Ltac eff :=
  unfold logger_info, logger_error, emit, Date_now, io_elapse, settle,
    mbind, Eff_bind, mret, Eff_ret, gets, modify, throw, try, outOfFuel in *;
  cbn beta iota delta
    [set_now set_trace set_sent set_readBuffer set_listening set_exited
     now fs_stat transport_start transport_send transport_close io_latency
     timer_lag process_getuid sent readBuffer listening exited trace] in *.

Section Readiness.
Context `{Codec}.

Lemma validateSocketPermissions_run (p : string) (w : World Message) :
  validateSocketPermissions p w = Some (attempt p w, afterStat p w).
Proof.
  unfold validateSocketPermissions, attempt, afterStat, fs_stat_call. eff.
  destruct (fs_stat w (now w) p) as [st|e]; eff; [|done].
  destruct (checkStats (process_getuid w) st) as [[]|e]; done.
Qed.

Lemma sleep_run (ms : Z) (w : World Message) :
  sleep ms w = Some (Returned tt, afterSleep ms w).
Proof. reflexivity. Qed.

Lemma now_afterStat (p : string) (w : World Message) : now w ≤ now (afterStat p w).
Proof. unfold afterStat. eff. lia. Qed.

Lemma now_afterSleep (ms : Z) (w : World Message) : now w + ms ≤ now (afterSleep ms w).
Proof. unfold afterSleep. eff. lia. Qed.

(** One turn of the polling loop. *)
Lemma waitForSocketReady_loop_step (fuel : nat) (deadline : Z) (p : string) (w : World Message) :
  waitForSocketReady_loop (S fuel) deadline p w =
    if now w <? deadline then
      match attempt p w with
      | Returned _ => Some (Returned tt, afterStat p w)
      | Thrown e =>
          if decide (code e ≠ Some ENOENT) then Some (Thrown e, afterStat p w)
          else waitForSocketReady_loop fuel deadline p
                 (afterSleep SOCKET_READY_INTERVAL_MS (afterStat p w))
      end
    else Some (Thrown err_socket_timeout, w).
Proof.
  cbn [waitForSocketReady_loop]. eff.
  destruct (now w <? deadline); [|done].
  rewrite validateSocketPermissions_run.
  destruct (attempt p w) as [[]|e]; [done|].
  destruct (decide (code e ≠ Some ENOENT)); [done|].
  rewrite sleep_run. done.
Qed.

Lemma waitForSocketReady_run (p : string) (w : World Message) :
  waitForSocketReady p w =
    waitForSocketReady_loop
      (iterations SOCKET_READY_TIMEOUT_MS SOCKET_READY_INTERVAL_MS)
      (now w + SOCKET_READY_TIMEOUT_MS) p w.
Proof. reflexivity. Qed.

(** The budget of iterations is never used up: every turn that loops
    waits at least one interval. *)
Lemma waitForSocketReady_loop_total (p : string) (deadline : Z) (fuel : nat) (w : World Message) :
  (0 < fuel)%nat →
  deadline - now w ≤ SOCKET_READY_INTERVAL_MS * (Z.of_nat fuel - 1) →
  ∃ r w', waitForSocketReady_loop fuel deadline p w = Some (r, w').
Proof.
  revert w. induction fuel as [|fuel IH]; intros w Hpos Hfuel; [lia|].
  rewrite waitForSocketReady_loop_step.
  destruct (Z.ltb_spec (now w) deadline) as [Hlt|Hge]; [|eauto].
  destruct (attempt p w) as [[]|e]; [eauto|].
  destruct (decide (code e ≠ Some ENOENT)); [eauto|].
  apply IH.
  - destruct fuel; [|lia]. unfold SOCKET_READY_INTERVAL_MS in *. lia.
  - pose proof (now_afterStat p w).
    pose proof (now_afterSleep SOCKET_READY_INTERVAL_MS (afterStat p w)).
    unfold SOCKET_READY_INTERVAL_MS in *. lia.
Qed.


Lemma checkStats_thrown (getuid : option Z) (st : Stats) (e : JsError) :
  checkStats getuid st = Thrown e → securityViolation e ∧ code e ≠ Some ENOENT.
Proof.
  unfold checkStats, securityViolation.
  destruct (isSocket st); simpl; [|intros [= <-]; split; [by left|done]].
  destruct (Z.land (st_mode st) mode_0777 =? mode_0600); simpl;
    [|intros [= <-]; split; [by right; left|done]].
  destruct getuid as [uid|]; [|done].
  destruct (st_uid st =? uid); simpl; [done|].
  intros [= <-]. split; [by right; right|done].
Qed.

Lemma iterations_ready :
  iterations SOCKET_READY_TIMEOUT_MS SOCKET_READY_INTERVAL_MS = 16%nat.
Proof. reflexivity. Qed.



(** The readiness check only stats and waits. *)
Lemma waitForSocketReady_loop_trace (p : string) (deadline : Z) (fuel : nat)
    (w : World Message) r w' :
  waitForSocketReady_loop fuel deadline p w = Some (r, w') →
  ∃ tr, trace w' = trace w ++ tr ∧ Forall (λ ev, readinessEvent ev = true) tr.
Proof.
  revert w. induction fuel as [|fuel IH]; intros w; [done|].
  rewrite waitForSocketReady_loop_step.
  assert (∃ tr, trace (afterStat p w) = trace w ++ tr ∧
                Forall (λ ev, readinessEvent ev = true) tr) as Hstat.
  { eexists. split; [reflexivity|]. by repeat constructor. }
  destruct (now w <? deadline).
  2:{ intros [= <- <-]. exists []. by rewrite app_nil_r. }
  destruct (attempt p w) as [[]|e]; [by intros [= <- <-]|].
  destruct (decide (code e ≠ Some ENOENT)); [by intros [= <- <-]|].
  intros (tr & Htr & Hall)%IH.
  exists ([EvStat p (fs_stat w (now w) p);
           EvSleep SOCKET_READY_INTERVAL_MS] ++ tr).
  split; [|by repeat constructor].
  rewrite Htr. unfold afterSleep, afterStat. eff.
  by rewrite <- !app_assoc.
Qed.

End Readiness.

(** ** Startup of the bridge *)

Section Startup.
Context `{Codec}.

Lemma transport_start_call_run (p : string) (w : World Message) :
  transport_start_call p w = Some (transport_start w (now w) p, afterConnect p w).
Proof.
  unfold transport_start_call, afterConnect. eff.
  by destruct (transport_start w (now w) p) as [[]|e].
Qed.

Lemma now_afterConnect (p : string) (w : World Message) : now w ≤ now (afterConnect p w).
Proof. unfold afterConnect. eff. lia. Qed.

(** One turn of the connection loop. *)
Lemma startTransport_loop_step (fuel : nat) (deadline : Z) (p : string)
    (lastError : option JsError) (w : World Message) :
  startTransport_loop (S fuel) deadline p lastError w =
    if now w <? deadline then
      match transport_start w (now w) p with
      | Returned _ => Some (Returned tt, afterConnect p w)
      | Thrown e =>
          if decide (code e ≠ Some ECONNREFUSED) then Some (Thrown e, afterConnect p w)
          else startTransport_loop fuel deadline p (Some e)
                 (afterSleep TRANSPORT_READY_INTERVAL_MS (afterConnect p w))
      end
    else Some (Thrown (default err_transport_timeout lastError), w).
Proof.
  cbn [startTransport_loop]. eff.
  destruct (now w <? deadline); [|done].
  rewrite transport_start_call_run.
  destruct (transport_start w (now w) p) as [[]|e]; [done|].
  destruct (decide (code e ≠ Some ECONNREFUSED)); [done|].
  done.
Qed.

Lemma startTransport_run (p : string) (w : World Message) :
  startTransport p w =
    startTransport_loop
      (iterations TRANSPORT_READY_TIMEOUT_MS TRANSPORT_READY_INTERVAL_MS)
      (now w + TRANSPORT_READY_TIMEOUT_MS) p None w.
Proof. reflexivity. Qed.

Lemma iterations_transport :
  iterations TRANSPORT_READY_TIMEOUT_MS TRANSPORT_READY_INTERVAL_MS = 11%nat.
Proof. reflexivity. Qed.

(** The connection loop completes within its budget, and only connects
    and waits. *)
Lemma startTransport_loop_total (p : string) (deadline : Z) (fuel : nat)
    (lastError : option JsError) (w : World Message) :
  (0 < fuel)%nat →
  deadline - now w ≤ TRANSPORT_READY_INTERVAL_MS * (Z.of_nat fuel - 1) →
  ∃ r w' tr,
    startTransport_loop fuel deadline p lastError w = Some (r, w') ∧
    trace w' = trace w ++ tr ∧
    Forall (λ ev, connectionEvent ev = true) tr.
Proof.
  revert w lastError.
  induction fuel as [|fuel IH]; intros w lastError Hpos Hfuel; [lia|].
  rewrite startTransport_loop_step.
  assert (trace (afterConnect p w) =
            trace w ++ [EvConnect p (transport_start w (now w) p)]) as Hconn
    by reflexivity.
  destruct (Z.ltb_spec (now w) deadline) as [Hlt|Hge].
  2:{ eexists _, _, []. rewrite app_nil_r. done. }
  destruct (transport_start w (now w) p) as [[]|e] eqn:Hstart.
  { eexists _, _, _. split; [done|]. split; [exact Hconn|]. by repeat constructor. }
  destruct (decide (code e ≠ Some ECONNREFUSED)).
  { eexists _, _, _. split; [done|]. split; [exact Hconn|]. by repeat constructor. }
  pose proof (now_afterConnect p w).
  pose proof (now_afterSleep TRANSPORT_READY_INTERVAL_MS (afterConnect p w)).
  destruct (IH (afterSleep TRANSPORT_READY_INTERVAL_MS (afterConnect p w)) (Some e))
    as (r & w' & tr & Hrun & Htr & Hall).
  - destruct fuel; [|lia]. unfold TRANSPORT_READY_INTERVAL_MS in *. lia.
  - unfold TRANSPORT_READY_INTERVAL_MS in *. lia.
  - exists r, w', ([EvConnect p (Thrown e);
                    EvSleep TRANSPORT_READY_INTERVAL_MS] ++ tr).
    split; [done|]. split; [|by repeat constructor].
    rewrite Htr. unfold afterSleep. eff. rewrite Hconn.
    by rewrite <- !app_assoc.
Qed.

Lemma waitForSocketReady_total (p : string) (w : World Message) :
  ∃ r w' tr,
    waitForSocketReady p w = Some (r, w') ∧
    trace w' = trace w ++ tr ∧
    Forall (λ ev, readinessEvent ev = true) tr.
Proof.
  destruct (waitForSocketReady_loop_total p (now w + SOCKET_READY_TIMEOUT_MS)
              (iterations SOCKET_READY_TIMEOUT_MS SOCKET_READY_INTERVAL_MS) w)
    as (r & w' & Hrun).
  - rewrite iterations_ready. lia.
  - rewrite iterations_ready.
    unfold SOCKET_READY_TIMEOUT_MS, SOCKET_READY_INTERVAL_MS. lia.
  - destruct (waitForSocketReady_loop_trace _ _ _ _ _ _ Hrun) as (tr & Htr & Hall).
    exists r, w', tr. by rewrite waitForSocketReady_run.
Qed.

Lemma runDaemonProxy_run (p : string) (w : World Message) :
  ∃ rV wV trV r w' trC,
    waitForSocketReady p w = Some (rV, wV) ∧
    trace wV = trace w ++ trV ∧
    Forall (λ ev, readinessEvent ev = true) trV ∧
    runDaemonProxy p w = Some (r, w') ∧
    trace w' = trace wV ++ trC ∧
    match rV with
    | Returned _ => Forall (λ ev, connectionEvent ev = true) trC
    | Thrown e =>
        r = Thrown e ∧
        trC = [EvLog LogError "MCP daemon socket validation failed" (Some e)]
    end.
Proof.
  destruct (waitForSocketReady_total p w) as (rV & wV & trV & Hwait & HtrV & HallV).
  exists rV, wV, trV.
  unfold runDaemonProxy. eff. rewrite Hwait.
  destruct rV as [[]|e].
  - destruct (startTransport_loop_total p
                (now (set_readBuffer newReadBuffer wV) + TRANSPORT_READY_TIMEOUT_MS)
                (iterations TRANSPORT_READY_TIMEOUT_MS TRANSPORT_READY_INTERVAL_MS)
                None (set_readBuffer newReadBuffer wV))
      as (r & w' & trC & Hrun & HtrC & HallC).
    { rewrite iterations_transport. lia. }
    { rewrite iterations_transport.
      unfold TRANSPORT_READY_TIMEOUT_MS, TRANSPORT_READY_INTERVAL_MS. lia. }
    rewrite startTransport_run, Hrun.
    destruct r as [[]|e].
    + exists (Returned tt), (set_listening true w'), trC. done.
    + exists (Thrown e), w', trC. done.
  - eexists (Thrown e), _, _. split; [done|]. split; [done|]. split; [done|].
    split; [reflexivity|]. split; [reflexivity|]. done.
Qed.


End Startup.

(** ** The stdin listener *)

Section Listener.
Context `{Codec}.

Lemma joinLines_splitLines (b : list byte) :
  joinLines (splitLines b).1 (splitLines b).2 = b.
Proof.
  induction b as [|x b IH]; simpl; [done|].
  destruct (splitLines b) as [ls tl]; simpl in *.
  destruct (byte_eqb x LF) eqn:Hx; simpl.
  - apply byte_eqb_true in Hx. by rewrite Hx, IH.
  - destruct ls as [|l ls]; simpl in *; by rewrite <- IH.
Qed.

Lemma sentMessages_app (tr1 tr2 : list (Event Message)) :
  sentMessages (tr1 ++ tr2) = sentMessages tr1 ++ sentMessages tr2.
Proof.
  induction tr1 as [|ev tr1 IH]; simpl; [done|].
  destruct ev; simpl; by rewrite ?IH.
Qed.

Lemma sentMessages_pumpEvents send (k : nat) (ls : list (list byte)) :
  sentMessages (pumpEvents send k ls) = forwardedOf ls.
Proof.
  revert k. induction ls as [|l ls IH]; intros k; simpl; [done|].
  destruct (parseRecord l) as [m|e]; [|done].
  simpl. destruct (send k m); simpl; by rewrite IH.
Qed.


Lemma transport_send_call_run (m : Message) (w : World Message) :
  transport_send_call m w =
    Some (Returned tt,
          set_trace (trace w ++ sendEvents m (transport_send w (sent w) m))
            (set_sent (S (sent w)) w)).
Proof.
  unfold transport_send_call, sendEvents. eff.
  destruct (transport_send w (sent w) m) as [[]|e]; eff; [done|].
  by rewrite <- app_assoc.
Qed.

(** The loop of the listener over a buffer holding [b]. *)
Lemma pump_run (fuel : nat) (b : list byte) (w : World Message) :
  readBuffer w = mkReadBuffer (Some b) →
  (length (splitLines b).1 < fuel)%nat →
  ∃ w', pump fuel w = Some (Returned tt, w') ∧
        sameSession w w' ∧
        trace w' = trace w ++ pumpEvents (transport_send w) (sent w) (splitLines b).1 ∧
        readBuffer w' =
          mkReadBuffer (Some (joinLines (leftoverOf (splitLines b).1) (splitLines b).2)).
Proof.
  revert b w. induction fuel as [|fuel IH]; intros b w Hrb Hfuel; [lia|].
  cbn [pump]. unfold readBuffer_readMessage. eff. rewrite Hrb.
  destruct (first_newline b) as [Hb|(l & r & -> & Hl)].
  - rewrite readMessage_incomplete, splitLines_incomplete by done. simpl.
    eexists. split; [reflexivity|]. eff. rewrite app_nil_r. done.
  - rewrite readMessage_record by done.
    rewrite splitLines_line in Hfuel |- * by done. simpl in *.
    destruct (parseRecord l) as [m|e]; simpl.
    + rewrite transport_send_call_run.
      match goal with
      | |- context [pump fuel ?w1] =>
          destruct (IH r w1) as (w' & -> & Hsame & Htr & Hbuf); [done|lia|]
      end.
      destruct Hsame as (? & ? & ? & ?).
      exists w'. split; [done|]. split; [done|]. split; [|done].
      rewrite Htr. eff. unfold sendEvents. by rewrite <- app_assoc.
    + eexists. split; [reflexivity|]. split; [done|]. split; [done|].
      eff. by rewrite joinLines_splitLines.
Qed.

(** One ['data'] event. *)
Lemma onStdinData_run (chunk : list byte) (w : World Message) :
  ∃ w', onStdinData chunk w = Some (Returned tt, w') ∧
        sameSession w w' ∧
        trace w' =
          trace w ++
          pumpEvents (transport_send w) (sent w)
            (splitLines (pendingBytes (readBuffer w) ++ chunk)).1 ∧
        readBuffer w' =
          mkReadBuffer
            (Some (joinLines
                     (leftoverOf (splitLines (pendingBytes (readBuffer w) ++ chunk)).1)
                     (splitLines (pendingBytes (readBuffer w) ++ chunk)).2)).
Proof.
  unfold onStdinData. eff.
  rewrite pendingBytes_append.
  match goal with
  | |- context [pump ?fuel ?w1] =>
      destruct (pump_run fuel (pendingBytes (readBuffer w) ++ chunk) w1)
        as (w' & -> & Hsame & Htr & Hbuf)
  end.
  - eff. by destruct (readBuffer w) as [[b|]].
  - pose proof (splitLines_count (pendingBytes (readBuffer w) ++ chunk)). lia.
  - exists w'. done.
Qed.




End Listener.

(** ** The entry point and the server manager *)

Ltac eff_main :=
  unfold stdout_write, liftW in *; eff;
  cbn beta iota delta
    [world serverManager argv env cwd packageVersion set_world set_serverManager] in *.

Section Main.
Context `{Codec} `{ServerManager}.

Lemma serverManager_start_run (dir : string) (allowExisting : bool) (p : Process Message Manager) :
  serverManager_start dir allowExisting p =
    Some ((manager_start dir allowExisting (serverManager p)).1,
          afterManagerCall
            (EvManagerStart dir allowExisting
               (manager_start dir allowExisting (serverManager p)).1)
            (manager_start dir allowExisting (serverManager p)).2 p).
Proof.
  unfold serverManager_start, afterManagerCall. eff_main.
  destruct (manager_start dir allowExisting (serverManager p)) as [[id|e] m]; done.
Qed.

Lemma serverManager_get_run (serverId : string) (p : Process Message Manager) :
  serverManager_get serverId p =
    Some ((manager_get serverId (serverManager p)).1,
          afterManagerCall
            (EvManagerGet serverId (manager_get serverId (serverManager p)).1)
            (manager_get serverId (serverManager p)).2 p).
Proof.
  unfold serverManager_get, afterManagerCall. eff_main.
  destruct (manager_get serverId (serverManager p)) as [[info|e] m]; done.
Qed.

Lemma serverManager_stop_run (serverId : string) (force : bool) (p : Process Message Manager) :
  serverManager_stop serverId force p =
    Some ((manager_stop serverId force (serverManager p)).1,
          afterManagerCall
            (EvManagerStop serverId force
               (manager_stop serverId force (serverManager p)).1)
            (manager_stop serverId force (serverManager p)).2 p).
Proof.
  unfold serverManager_stop, afterManagerCall. eff_main.
  destruct (manager_stop serverId force (serverManager p)) as [[[]|e] m]; done.
Qed.

Lemma managerEvents_none (tr : list (Event Message)) :
  Forall (λ ev, isManagerEvent ev = false) tr → managerEvents tr = [].
Proof.
  induction 1 as [|ev tr Hev _ IH]; [done|].
  unfold managerEvents in *. rewrite filter_cons_False; [done|congruence].
Qed.

Lemma managerEvents_app (tr1 tr2 : list (Event Message)) :
  managerEvents (tr1 ++ tr2) = managerEvents tr1 ++ managerEvents tr2.
Proof. apply filter_app. Qed.

Lemma managerEvents_daemonNotice (args : list string) :
  managerEvents (daemonNotice (M := Message) args) = [].
Proof. unfold daemonNotice. by destruct (includes args "--daemon"). Qed.

Lemma runDaemonProxy_total (path : string) (w : World Message) :
  ∃ r w' tr, runDaemonProxy path w = Some (r, w') ∧
             trace w' = trace w ++ tr ∧
             managerEvents tr = [].
Proof.
  destruct (runDaemonProxy_run path w)
    as (rV & wV & trV & r & w' & trC & _ & HtrV & HallV & Hrun & HtrC & Hcase).
  exists r, w', (trV ++ trC). split; [done|].
  split; [by rewrite HtrC, HtrV, app_assoc|].
  rewrite managerEvents_app.
  rewrite (managerEvents_none trV), (managerEvents_none trC); [done| |].
  - destruct rV as [[]|e].
    + eapply Forall_impl; [exact Hcase|]. by intros [].
    + destruct Hcase as [_ ->]. by repeat constructor.
  - eapply Forall_impl; [exact HallV|]. by intros [].
Qed.

Lemma start_spec (dir : string) (allowExisting : bool) (p : Process Message Manager) r m :
  manager_start dir allowExisting (serverManager p) = (r, m) →
  ∃ p', serverManager_start dir allowExisting p = Some (r, p') ∧
        serverManager p' = m ∧
        trace (world p') = trace (world p) ++ [EvManagerStart dir allowExisting r] ∧
        exited (world p') = exited (world p).
Proof.
  intros Hcall. rewrite serverManager_start_run, Hcall. eexists. split; [reflexivity|]. done.
Qed.

Lemma get_spec (serverId : string) (p : Process Message Manager) r m :
  manager_get serverId (serverManager p) = (r, m) →
  ∃ p', serverManager_get serverId p = Some (r, p') ∧
        serverManager p' = m ∧
        trace (world p') = trace (world p) ++ [EvManagerGet serverId r] ∧
        exited (world p') = exited (world p).
Proof.
  intros Hcall. rewrite serverManager_get_run, Hcall. eexists. split; [reflexivity|]. done.
Qed.

Lemma stop_spec (serverId : string) (force : bool) (p : Process Message Manager) r m :
  manager_stop serverId force (serverManager p) = (r, m) →
  ∃ p', serverManager_stop serverId force p = Some (r, p') ∧
        serverManager p' = m ∧
        trace (world p') = trace (world p) ++ [EvManagerStop serverId force r] ∧
        exited (world p') = exited (world p).
Proof.
  intros Hcall. rewrite serverManager_stop_run, Hcall. eexists. split; [reflexivity|]. done.
Qed.

Lemma distribute_if (c : bool) (f : Process Message Manager → Process Message Manager) (p : Process Message Manager) :
  (if c then (λ q : Process Message Manager, Some (Returned tt, f q))
   else (λ s : Process Message Manager, Some (Returned tt, s))) p =
    Some (Returned tt, if c then f p else p).
Proof. by destruct c. Qed.

(** C7. Let [main] run without the version and help flags, and let the
    first [start] (with [allowExisting] true) and [get] succeed. If the
    descriptor carries a non-empty [childSocketPath], the only calls to
    the server manager are these two: nothing is stopped or restarted.
    If it carries none (or an empty one), [main] stops that server with
    [force] true, starts once more with [allowExisting] false and asks
    again, and these five calls are all it makes; if the second
    descriptor has no socket path either, the error is raised, logged,
    and the process exits with code 1 without touching the socket. *)
Theorem socket_path_fallback (p : Process Message Manager) (id1 : string) (info1 : ServerInfo)
    (m1 m2 : Manager) :
  wantsVersion (argv p) = false →
  wantsHelp (argv p) = false →
  manager_start (defaultWorkdir p) true (serverManager p) = (Returned id1, m1) →
  manager_get id1 m1 = (Returned info1, m2) →
  (∀ path,
      childSocketPathOf info1 = Some path →
      path ≠ ""%string →
      ∃ r p' tr,
        main p = Some (r, p') ∧
        trace (world p') = trace (world p) ++ daemonNotice (argv p) ++ tr ∧
        managerEvents tr =
          [EvManagerStart (defaultWorkdir p) true (Returned id1);
           EvManagerGet id1 (Returned info1)]) ∧
  (truthy (childSocketPathOf info1) = false →
   ∀ m3 id2 m4 info2 m5,
     manager_stop id1 true m2 = (Returned tt, m3) →
     manager_start (defaultWorkdir p) false m3 = (Returned id2, m4) →
     manager_get id2 m4 = (Returned info2, m5) →
     ∃ r p' tr,
       main p = Some (r, p') ∧
       trace (world p') = trace (world p) ++ daemonNotice (argv p) ++ tr ∧
       managerEvents tr =
         [EvManagerStart (defaultWorkdir p) true (Returned id1);
          EvManagerGet id1 (Returned info1);
          EvManagerStop id1 true (Returned tt);
          EvManagerStart (defaultWorkdir p) false (Returned id2);
          EvManagerGet id2 (Returned info2)] ∧
       (truthy (childSocketPathOf info2) = false →
        r = Returned tt ∧
        exited (world p') = Some 1 ∧
        tr =
          [EvManagerStart (defaultWorkdir p) true (Returned id1);
           EvManagerGet id1 (Returned info1);
           EvManagerStop id1 true (Returned tt);
           EvManagerStart (defaultWorkdir p) false (Returned id2);
           EvManagerGet id2 (Returned info2);
           EvLog LogError "Failed to start shell-server process for MCP proxy"
             (Some err_no_child_socket);
           EvExit 1])).
Proof.
  intros Hv Hh Hs Hg.
  unfold main. eff_main. rewrite Hv, Hh.
  unfold main_try. eff_main.
  erewrite distribute_if.
  match goal with
  | |- context [serverManager_start _ true ?q] => set (p0 := q) in *
  end.
  assert (serverManager p0 = serverManager p ∧
          defaultWorkdir p0 = defaultWorkdir p ∧
          exited (world p0) = exited (world p) ∧
          trace (world p0) = trace (world p) ++ daemonNotice (argv p))
    as (Hm0 & Hd0 & He0 & Ht0).
  { subst p0. unfold daemonNotice.
    destruct (includes (argv p) "--daemon"); rewrite ?app_nil_r; done. }
  clearbody p0. rewrite Hd0. rewrite <- Hm0 in Hs.
  destruct (start_spec _ _ _ _ _ Hs) as (p1 & -> & Hm1 & Ht1 & He1).
  rewrite <- Hm1 in Hg.
  destruct (get_spec _ _ _ _ Hg) as (p2 & -> & Hm2 & Ht2 & He2).
  split.
  - intros path Hpath Hne.
    assert (truthy (Some path) = true) as Htruthy
      by (simpl; by destruct (String.eqb_spec path "")).
    rewrite Hpath, Htruthy. cbn [negb]. rewrite Htruthy.
    destruct (runDaemonProxy_total path (world p2)) as (r & w' & tr & -> & Htr & Hmgr).
    assert (trace w' = trace (world p) ++ daemonNotice (argv p) ++
              [EvManagerStart (defaultWorkdir p) true (Returned id1);
               EvManagerGet id1 (Returned info1)] ++ tr) as Htrace.
    { rewrite Htr, Ht2, Ht1, Ht0, <- !app_assoc. done. }
    destruct r as [[]|e].
    + eexists _, _, _. split; [reflexivity|]. split; [exact Htrace|].
      rewrite !managerEvents_app, Hmgr. done.
    + unfold process_exit. eff_main.
      eexists _, _, _. split; [reflexivity|]. cbn [world set_world]. eff.
      rewrite Htrace. split; [by rewrite <- !app_assoc|].
      rewrite !managerEvents_app, Hmgr. done.
  - intros Hnone m3 id2 m4 info2 m5 Hstop Hs2 Hg2.
    rewrite Hnone. cbn [negb].
    rewrite <- Hm2 in Hstop.
    destruct (stop_spec _ _ _ _ _ Hstop) as (p3 & -> & Hm3 & Ht3 & He3).
    rewrite <- Hm3 in Hs2.
    destruct (start_spec _ _ _ _ _ Hs2) as (p4 & -> & Hm4 & Ht4 & He4).
    rewrite <- Hm4 in Hg2.
    destruct (get_spec _ _ _ _ Hg2) as (p5 & -> & Hm5 & Ht5 & He5).
    assert (trace (world p5) = trace (world p) ++ daemonNotice (argv p) ++
              [EvManagerStart (defaultWorkdir p) true (Returned id1);
               EvManagerGet id1 (Returned info1);
               EvManagerStop id1 true (Returned tt);
               EvManagerStart (defaultWorkdir p) false (Returned id2);
               EvManagerGet id2 (Returned info2)]) as Htrace.
    { rewrite Ht5, Ht4, Ht3, Ht2, Ht1, Ht0, <- !app_assoc. done. }
    destruct (childSocketPathOf info2) as [path2|] eqn:Hpath2.
    + destruct (truthy (Some path2)) eqn:Htruthy2.
      * destruct (runDaemonProxy_total path2 (world p5))
          as (r & w' & tr & -> & Htr & Hmgr).
        destruct r as [[]|e].
        -- eexists _, _, _. split; [reflexivity|]. cbn [world set_world].
           rewrite Htr, Htrace. split; [by rewrite <- !app_assoc|].
           split; [|done]. rewrite !managerEvents_app, Hmgr. done.
        -- unfold process_exit. eff_main.
           eexists _, _, _. split; [reflexivity|]. cbn [world set_world]. eff.
           rewrite Htr, Htrace. split; [by rewrite <- !app_assoc|].
           split; [|done]. rewrite !managerEvents_app, Hmgr. done.
      * unfold process_exit. eff_main.
        eexists _, _, _. split; [reflexivity|]. cbn [world set_world]. eff.
        rewrite Htrace. split; [by rewrite <- !app_assoc|].
        split; [done|]. intros _. done.
    + unfold process_exit. eff_main.
      eexists _, _, _. split; [reflexivity|]. cbn [world set_world]. eff.
      rewrite Htrace. split; [by rewrite <- !app_assoc|].
      split; [done|]. intros _. done.
Qed.
End Main.

(** ** The daemon's socket *)

Ltac eff_d :=
  unfold fs_mkdir_recursive, d_stat, fs_unlink, server_listen, fs_chmod, d_emit in *;
  unfold settle, mbind, Eff_bind, mret, Eff_ret, gets, modify, throw, try, outOfFuel in *;
  cbn beta iota delta
    [set_fs set_d_listening set_d_exitCode set_d_trace
     fs d_env dirname d_uid d_umask d_listening d_exitCode d_trace id] in *.




(** ** Polling and connecting, counted and timed *)

Section Polling.
Context `{Codec}.

Lemma statCalls_app (tr1 tr2 : list (Event Message)) :
  statCalls (tr1 ++ tr2) = statCalls tr1 ++ statCalls tr2.
Proof. apply filter_app. Qed.

Lemma connectCalls_app (tr1 tr2 : list (Event Message)) :
  connectCalls (tr1 ++ tr2) = connectCalls tr1 ++ connectCalls tr2.
Proof. apply filter_app. Qed.

Lemma checkStats_returned (getuid : option Z) (st : Stats) :
  checkStats getuid st = Returned tt →
  isSocket st = true ∧
  Z.land (st_mode st) mode_0777 = mode_0600 ∧
  (∀ uid, getuid = Some uid → st_uid st = uid).
Proof.
  unfold checkStats.
  destruct (isSocket st); simpl; [|done].
  destruct (Z.eqb_spec (Z.land (st_mode st) mode_0777) mode_0600); simpl; [|done].
  destruct getuid as [uid|]; [|done].
  destruct (Z.eqb_spec (st_uid st) uid); simpl; [|done].
  intros _. split; [done|]. split; [done|]. by intros ? [= <-].
Qed.

(** The polling loop: how many times it can look, what it does meanwhile,
    and where its completion comes from. *)
Lemma waitForSocketReady_loop_polls (p : string) (deadline : Z) (fuel : nat)
    (w : World Message) (k : Z) r w' :
  waitForSocketReady_loop fuel deadline p w = Some (r, w') →
  deadline - now w ≤ SOCKET_READY_INTERVAL_MS * k →
  0 ≤ k →
  ∃ tr, trace w' = trace w ++ tr ∧
        Z.of_nat (length (statCalls tr)) ≤ k ∧
        Forall (λ ev, ev = EvSleep SOCKET_READY_INTERVAL_MS ∨ ∃ c, ev = EvStat p c) tr ∧
        match r with
        | Returned _ =>
            ∃ tr0 st, tr = tr0 ++ [EvStat p (Returned st)] ∧
                      checkStats (process_getuid w) st = Returned tt
        | Thrown e =>
            (e = err_socket_timeout ∧ deadline ≤ now w') ∨
            ∃ tr0 c, tr = tr0 ++ [EvStat p c] ∧
                     ((c = Thrown e ∧ code e ≠ Some ENOENT) ∨
                      ∃ st, c = Returned st ∧
                            checkStats (process_getuid w) st = Thrown e)
        end.
Proof.
  revert w k. induction fuel as [|fuel IH]; intros w k; [done|].
  rewrite waitForSocketReady_loop_step.
  destruct (Z.ltb_spec (now w) deadline) as [Hlt|Hge].
  2:{ intros [= <- <-] _ Hk. exists []. rewrite app_nil_r.
      split; [done|]. split; [simpl; lia|]. split; [done|]. by left. }
  assert (trace (afterStat p w) = trace w ++ [EvStat p (fs_stat w (now w) p)]) as Hst
    by reflexivity.
  assert (Forall (λ ev : Event Message,
                    ev = EvSleep SOCKET_READY_INTERVAL_MS ∨ ∃ c, ev = EvStat p c)
                 [EvStat p (fs_stat w (now w) p)]) as Hone
    by (apply Forall_singleton; right; by eexists).
  unfold attempt.
  destruct (fs_stat w (now w) p) as [st|e] eqn:Hstat.
  - destruct (checkStats (process_getuid w) st) as [[]|e] eqn:Hcheck.
    + intros [= <- <-] Hd Hk. eexists. split; [exact Hst|].
      split; [unfold SOCKET_READY_INTERVAL_MS in *; simpl; lia|].
      split; [done|]. by exists [], st.
    + destruct (checkStats_thrown _ _ _ Hcheck) as [_ Hcode].
      destruct (decide (code e ≠ Some ENOENT)); [|done].
      intros [= <- <-] Hd Hk. eexists. split; [exact Hst|].
      split; [unfold SOCKET_READY_INTERVAL_MS in *; simpl; lia|].
      split; [done|]. right. exists [], (Returned st). split; [done|].
      right. by exists st.
  - destruct (decide (code e ≠ Some ENOENT)).
    + intros [= <- <-] Hd Hk. eexists. split; [exact Hst|].
      split; [unfold SOCKET_READY_INTERVAL_MS in *; simpl; lia|].
      split; [done|]. right. exists [], (Thrown e). split; [done|]. by left.
    + intros Hrun Hd Hk.
      pose proof (now_afterStat p w).
      pose proof (now_afterSleep SOCKET_READY_INTERVAL_MS (afterStat p w)).
      destruct (IH _ (k - 1) Hrun) as (tr & Htr & Hcount & Hall & Hres).
      { unfold SOCKET_READY_INTERVAL_MS in *. lia. }
      { unfold SOCKET_READY_INTERVAL_MS in *. lia. }
      exists ([EvStat p (Thrown e); EvSleep SOCKET_READY_INTERVAL_MS] ++ tr).
      split.
      { rewrite Htr. unfold afterSleep. eff. rewrite Hst. by rewrite <- !app_assoc. }
      split; [rewrite statCalls_app; simpl in *; lia|].
      split.
      { apply Forall_app. split; [|done].
        constructor; [right; by eexists|]. apply Forall_singleton. by left. }
      change (process_getuid (afterSleep SOCKET_READY_INTERVAL_MS (afterStat p w)))
        with (process_getuid w) in Hres.
      destruct r as [[]|e'].
      * destruct Hres as (tr0 & st & -> & Hcheck).
        exists ([EvStat p (Thrown e); EvSleep SOCKET_READY_INTERVAL_MS] ++ tr0), st.
        by rewrite <- app_assoc.
      * destruct Hres as [Htime|(tr0 & c & -> & Hc)]; [by left|].
        right.
        exists ([EvStat p (Thrown e); EvSleep SOCKET_READY_INTERVAL_MS] ++ tr0), c.
        by rewrite <- app_assoc.
Qed.

Lemma waitForSocketReady_polls (p : string) (w : World Message) :
  ∃ r w' tr,
    waitForSocketReady p w = Some (r, w') ∧
    trace w' = trace w ++ tr ∧
    Z.of_nat (length (statCalls tr)) ≤ 15 ∧
    Forall (λ ev, ev = EvSleep SOCKET_READY_INTERVAL_MS ∨ ∃ c, ev = EvStat p c) tr ∧
    match r with
    | Returned _ =>
        ∃ tr0 st, tr = tr0 ++ [EvStat p (Returned st)] ∧
                  checkStats (process_getuid w) st = Returned tt
    | Thrown e =>
        (e = err_socket_timeout ∧ now w + SOCKET_READY_TIMEOUT_MS ≤ now w') ∨
        ∃ tr0 c, tr = tr0 ++ [EvStat p c] ∧
                 ((c = Thrown e ∧ code e ≠ Some ENOENT) ∨
                  ∃ st, c = Returned st ∧
                        checkStats (process_getuid w) st = Thrown e)
    end.
Proof.
  destruct (waitForSocketReady_total p w) as (r & w' & _ & Hrun & _).
  exists r, w'.
  rewrite waitForSocketReady_run in Hrun.
  destruct (waitForSocketReady_loop_polls _ _ _ _ 15 _ _ Hrun) as (tr & ?);
    [unfold SOCKET_READY_TIMEOUT_MS, SOCKET_READY_INTERVAL_MS; lia|lia|].
  exists tr. by rewrite waitForSocketReady_run.
Qed.

(** The first look always happens: the deadline lies ahead when the loop
    is entered. *)
Lemma waitForSocketReady_first (p : string) (w : World Message) r w' tr :
  waitForSocketReady p w = Some (r, w') →
  trace w' = trace w ++ tr →
  ∃ tr', tr = EvStat p (fs_stat w (now w) p) :: tr'.
Proof.
  rewrite waitForSocketReady_run, iterations_ready, waitForSocketReady_loop_step.
  destruct (Z.ltb_spec (now w) (now w + SOCKET_READY_TIMEOUT_MS)) as [_|Hge];
    [|unfold SOCKET_READY_TIMEOUT_MS in Hge; lia].
  assert (trace (afterStat p w) = trace w ++ [EvStat p (fs_stat w (now w) p)]) as Hst
    by reflexivity.
  destruct (attempt p w) as [[]|e].
  { intros [= <- <-]. rewrite Hst. intros <-%app_inv_head. by eexists. }
  destruct (decide (code e ≠ Some ENOENT)).
  { intros [= <- <-]. rewrite Hst. intros <-%app_inv_head. by eexists. }
  intros Hrun Htr.
  destruct (waitForSocketReady_loop_trace _ _ _ _ _ _ Hrun) as (tr2 & Htr2 & _).
  rewrite Htr2 in Htr. unfold afterSleep in Htr. eff. rewrite Hst in Htr.
  rewrite <- !app_assoc in Htr. apply app_inv_head in Htr. subst tr. by eexists.
Qed.

(** X1. The readiness check always completes, having looked at the path
    at least once and at most fifteen times; all it does is [fs.stat] on
    that path and wait one interval. *)
Theorem readiness_polls_bounded (p : string) (w : World Message) :
  ∃ r w' tr,
    waitForSocketReady p w = Some (r, w') ∧
    trace w' = trace w ++ tr ∧
    (1 ≤ length (statCalls tr) ≤ 15)%nat ∧
    Forall (λ ev, ev = EvSleep SOCKET_READY_INTERVAL_MS ∨ ∃ c, ev = EvStat p c) tr.
Proof.
  destruct (waitForSocketReady_polls p w) as (r & w' & tr & Hrun & Htr & Hcount & Hall & _).
  exists r, w', tr. split; [done|]. split; [done|]. split; [|done].
  destruct (waitForSocketReady_first _ _ _ _ _ Hrun Htr) as (tr' & ->).
  unfold statCalls in *. rewrite filter_cons_True in * by done. simpl in *. lia.
Qed.

(** X2. The readiness check succeeds only on a look that found a socket
    with mode 0600 owned by the user of the process (when the process
    has a user id), and that look is the last thing it does. When it
    fails, the error is the time-out, raised no earlier than the
    deadline, or the error of its last look: what [fs.stat] threw, other
    than [ENOENT], or the violation found. *)
Theorem readiness_completion_origin (p : string) (w : World Message) :
  ∃ r w' tr,
    waitForSocketReady p w = Some (r, w') ∧
    trace w' = trace w ++ tr ∧
    match r with
    | Returned _ =>
        ∃ tr0 st, tr = tr0 ++ [EvStat p (Returned st)] ∧
                  isSocket st = true ∧
                  Z.land (st_mode st) mode_0777 = mode_0600 ∧
                  (∀ uid, process_getuid w = Some uid → st_uid st = uid)
    | Thrown e =>
        (e = err_socket_timeout ∧ now w + SOCKET_READY_TIMEOUT_MS ≤ now w') ∨
        ∃ tr0 c, tr = tr0 ++ [EvStat p c] ∧
                 ((c = Thrown e ∧ code e ≠ Some ENOENT) ∨
                  ∃ st, c = Returned st ∧ securityViolation e ∧
                        checkStats (process_getuid w) st = Thrown e)
    end.
Proof.
  destruct (waitForSocketReady_polls p w) as (r & w' & tr & Hrun & Htr & _ & _ & Hres).
  exists r, w', tr. split; [done|]. split; [done|].
  destruct r as [[]|e].
  - destruct Hres as (tr0 & st & -> & Hcheck). exists tr0, st. split; [done|].
    by apply checkStats_returned.
  - destruct Hres as [?|(tr0 & c & -> & [?|(st & -> & Hcheck)])]; [by left| |].
    + right. exists tr0, c. split; [done|]. by left.
    + right. exists tr0, (Returned st). split; [done|]. right. exists st.
      split; [done|]. split; [|done]. by eapply checkStats_thrown.
Qed.

End Polling.

Section Transport.
Context `{Codec}.

Lemma startTransport_loop_attempts (p : string) (deadline : Z) (fuel : nat)
    (lastError : option JsError) (w : World Message) (k : Z) r w' :
  startTransport_loop fuel deadline p lastError w = Some (r, w') →
  deadline - now w ≤ TRANSPORT_READY_INTERVAL_MS * k →
  0 ≤ k →
  ∃ tr, trace w' = trace w ++ tr ∧
        Z.of_nat (length (connectCalls tr)) ≤ k ∧
        Forall (λ ev, ev = EvSleep TRANSPORT_READY_INTERVAL_MS ∨ ∃ c, ev = EvConnect p c) tr ∧
        match last (connectCalls tr) with
        | Some ev => ev = EvConnect p r
        | None => r = Thrown (default err_transport_timeout lastError)
        end ∧
        (∀ e, r = Thrown e → code e = Some ECONNREFUSED → deadline ≤ now w').
Proof.
  revert w k lastError. induction fuel as [|fuel IH]; intros w k lastError; [done|].
  rewrite startTransport_loop_step.
  destruct (Z.ltb_spec (now w) deadline) as [Hlt|Hge].
  2:{ intros [= <- <-] _ Hk. exists []. rewrite app_nil_r.
      split; [done|]. split; [simpl; lia|]. done. }
  assert (trace (afterConnect p w) =
            trace w ++ [EvConnect p (transport_start w (now w) p)]) as Hconn
    by reflexivity.
  assert (Forall (λ ev : Event Message,
                    ev = EvSleep TRANSPORT_READY_INTERVAL_MS ∨ ∃ c, ev = EvConnect p c)
                 [EvConnect p (transport_start w (now w) p)]) as Hone
    by (apply Forall_singleton; right; by eexists).
  destruct (transport_start w (now w) p) as [[]|e] eqn:Hstart.
  { intros [= <- <-] Hd Hk. eexists. split; [exact Hconn|].
    split; [unfold TRANSPORT_READY_INTERVAL_MS in *; simpl; lia|]. done. }
  destruct (decide (code e ≠ Some ECONNREFUSED)).
  { intros [= <- <-] Hd Hk. eexists. split; [exact Hconn|].
    split; [unfold TRANSPORT_READY_INTERVAL_MS in *; simpl; lia|].
    split; [done|]. split; [done|]. by intros ? [= <-]. }
  intros Hrun Hd Hk.
  pose proof (now_afterConnect p w).
  pose proof (now_afterSleep TRANSPORT_READY_INTERVAL_MS (afterConnect p w)).
  destruct (IH _ (k - 1) _ Hrun) as (tr & Htr & Hcount & Hall & Hlast & Hlate).
  { unfold TRANSPORT_READY_INTERVAL_MS in *. lia. }
  { unfold TRANSPORT_READY_INTERVAL_MS in *. lia. }
  exists ([EvConnect p (Thrown e); EvSleep TRANSPORT_READY_INTERVAL_MS] ++ tr).
  split.
  { rewrite Htr. unfold afterSleep. eff. rewrite Hconn. by rewrite <- !app_assoc. }
  split; [rewrite connectCalls_app; simpl in *; lia|].
  split.
  { apply Forall_app. split; [|done].
    constructor; [right; by eexists|]. apply Forall_singleton. by left. }
  split; [|done].
  rewrite connectCalls_app.
  change (connectCalls [EvConnect p (Thrown e); EvSleep TRANSPORT_READY_INTERVAL_MS])
    with [EvConnect (M := Message) p (Thrown e)].
  simpl. rewrite last_cons.
  destruct (last (connectCalls tr)); [done|]. by rewrite Hlast.
Qed.

Lemma startTransport_total (p : string) (w : World Message) :
  ∃ r w' tr,
    startTransport p w = Some (r, w') ∧
    trace w' = trace w ++ tr ∧
    Forall (λ ev, connectionEvent ev = true) tr.
Proof.
  rewrite startTransport_run.
  apply startTransport_loop_total; rewrite iterations_transport; [lia|].
  unfold TRANSPORT_READY_TIMEOUT_MS, TRANSPORT_READY_INTERVAL_MS. lia.
Qed.

Lemma startTransport_first (p : string) (w : World Message) r w' tr :
  startTransport p w = Some (r, w') →
  trace w' = trace w ++ tr →
  ∃ tr', tr = EvConnect p (transport_start w (now w) p) :: tr'.
Proof.
  rewrite startTransport_run, iterations_transport, startTransport_loop_step.
  destruct (Z.ltb_spec (now w) (now w + TRANSPORT_READY_TIMEOUT_MS)) as [_|Hge];
    [|unfold TRANSPORT_READY_TIMEOUT_MS in Hge; lia].
  assert (trace (afterConnect p w) =
            trace w ++ [EvConnect p (transport_start w (now w) p)]) as Hconn
    by reflexivity.
  destruct (transport_start w (now w) p) as [[]|e] eqn:Hstart.
  { intros [= <- <-]. rewrite Hconn. intros <-%app_inv_head. by eexists. }
  destruct (decide (code e ≠ Some ECONNREFUSED)).
  { intros [= <- <-]. rewrite Hconn. intros <-%app_inv_head. by eexists. }
  intros Hrun Htr.
  destruct (startTransport_loop_total p (now w + TRANSPORT_READY_TIMEOUT_MS) 10 (Some e)
              (afterSleep TRANSPORT_READY_INTERVAL_MS (afterConnect p w)))
    as (r2 & w2 & tr2 & Hrun2 & Htr2 & _); [lia| |].
  { pose proof (now_afterConnect p w).
    pose proof (now_afterSleep TRANSPORT_READY_INTERVAL_MS (afterConnect p w)).
    unfold TRANSPORT_READY_TIMEOUT_MS, TRANSPORT_READY_INTERVAL_MS in *. lia. }
  rewrite Hrun in Hrun2. injection Hrun2 as <- <-.
  rewrite Htr2 in Htr. unfold afterSleep in Htr. eff. rewrite Hconn in Htr.
  rewrite <- !app_assoc in Htr. apply app_inv_head in Htr. subst tr. by eexists.
Qed.

(** X3. [startTransport] always completes, after at least one and at
    most ten connection attempts with nothing but waits of one interval
    between them, and it completes the way its last attempt did: with
    success, or with the very error that attempt threw. A
    connection-refused error is reported only once the deadline has
    passed. Its own time-out error is never raised. *)
Theorem transport_attempts_bounded (p : string) (w : World Message) :
  ∃ r w' tr,
    startTransport p w = Some (r, w') ∧
    trace w' = trace w ++ tr ∧
    (1 ≤ length (connectCalls tr) ≤ 10)%nat ∧
    Forall (λ ev, ev = EvSleep TRANSPORT_READY_INTERVAL_MS ∨ ∃ c, ev = EvConnect p c) tr ∧
    last (connectCalls tr) = Some (EvConnect p r) ∧
    (∀ e, r = Thrown e → code e = Some ECONNREFUSED →
          now w + TRANSPORT_READY_TIMEOUT_MS ≤ now w').
Proof.
  destruct (startTransport_total p w) as (r & w' & tr0 & Hrun & Htr0 & _).
  exists r, w'.
  pose proof Hrun as Hloop. rewrite startTransport_run in Hloop.
  destruct (startTransport_loop_attempts _ _ _ _ _ 10 _ _ Hloop)
    as (tr & Htr & Hcount & Hall & Hlast & Hlate);
    [unfold TRANSPORT_READY_TIMEOUT_MS, TRANSPORT_READY_INTERVAL_MS; lia|lia|].
  exists tr. split; [done|]. split; [done|].
  destruct (startTransport_first _ _ _ _ _ Hrun Htr) as (tr' & ->).
  unfold connectCalls in *. rewrite filter_cons_True in * by done.
  split; [simpl in *; lia|]. split; [done|]. split; [|done].
  destruct (last _) as [ev|] eqn:Hev; [by subst|].
  by apply last_None in Hev.
Qed.

End Transport.

Section Timing.
Context `{Codec}.

Lemma firstPollAfter_spec (start interval t : Z) :
  0 < interval →
  ∃ n : nat,
    firstPollAfter start interval t = start + interval * Z.of_nat n ∧
    t ≤ start + interval * Z.of_nat n ∧
    (n = 0%nat ∨ start + interval * (Z.of_nat n - 1) < t).
Proof.
  intros Hpos. unfold firstPollAfter.
  exists (Z.to_nat (Z.max 0 ((t - start + interval - 1) / interval))).
  rewrite Z2Nat.id by lia.
  pose proof (Z.div_mod (t - start + interval - 1) interval ltac:(lia)).
  pose proof (Z.mod_pos_bound (t - start + interval - 1) interval Hpos).
  split; [done|]. split; [nia|].
  destruct (Z.max_spec 0 ((t - start + interval - 1) / interval)) as [[? ->]|[? ->]].
  - right. nia.
  - by left.
Qed.

(** The polling loop when the socket is absent before [t1] and good from
    [t1] on: it is found by the first poll that is not earlier. *)
Lemma waitForSocketReady_loop_found (p : string) (deadline t1 : Z) (n : nat) :
  ∀ (fuel : nat) (w : World Message),
    idealTiming w →
    (∀ t, t < t1 → ∃ e, fs_stat w t p = Thrown e ∧ code e = Some ENOENT) →
    (∀ t, t1 ≤ t → ∃ st, fs_stat w t p = Returned st ∧
                         checkStats (process_getuid w) st = Returned tt) →
    (n < fuel)%nat →
    now w + SOCKET_READY_INTERVAL_MS * Z.of_nat n < deadline →
    t1 ≤ now w + SOCKET_READY_INTERVAL_MS * Z.of_nat n →
    (n = 0%nat ∨ now w + SOCKET_READY_INTERVAL_MS * (Z.of_nat n - 1) < t1) →
    ∃ w' tr,
      waitForSocketReady_loop fuel deadline p w = Some (Returned tt, w') ∧
      now w' = now w + SOCKET_READY_INTERVAL_MS * Z.of_nat n ∧
      trace w' = trace w ++ tr ∧
      length (statCalls tr) = S n.
Proof.
  unfold SOCKET_READY_INTERVAL_MS.
  induction n as [|n IH]; intros fuel w Hideal Habs Hok Hfuel Hdl Ht1 Hfirst.
  - destruct fuel as [|fuel]; [lia|].
    rewrite waitForSocketReady_loop_step.
    destruct (Z.ltb_spec (now w) deadline); [|lia].
    destruct (Hok (now w)) as (st & Hst & Hcheck); [lia|].
    unfold attempt. rewrite Hst, Hcheck.
    eexists _, [EvStat p (Returned st)]. split; [reflexivity|].
    destruct Hideal as [Hlat _].
    unfold afterStat. eff. rewrite Hlat, Hst. split; [lia|]. done.
  - destruct fuel as [|fuel]; [lia|].
    rewrite waitForSocketReady_loop_step.
    destruct (Z.ltb_spec (now w) deadline); [|lia].
    destruct (Habs (now w)) as (e & He & Hcode); [lia|].
    unfold attempt. rewrite He.
    destruct (decide (code e ≠ Some ENOENT)); [done|].
    assert (now (afterSleep 200 (afterStat p w)) = now w + 200) as Hnow.
    { destruct Hideal as [Hlat Hlag]. unfold afterSleep, afterStat. eff.
      rewrite Hlat, Hlag. lia. }
    destruct (IH fuel (afterSleep 200 (afterStat p w)))
      as (w' & tr & Hrun & Hnow' & Htr & Hcount);
      [done|done|done|lia|rewrite Hnow; lia|rewrite Hnow; lia| |].
    { rewrite Hnow. destruct n; [by left|right; lia]. }
    exists w', ([EvStat p (Thrown e); EvSleep 200] ++ tr).
    split; [exact Hrun|]. split; [lia|].
    split.
    { rewrite Htr. unfold afterSleep, afterStat. eff. rewrite He.
      by rewrite <- !app_assoc. }
    rewrite statCalls_app. simpl. by rewrite Hcount.
Qed.

(** The polling loop when the socket is still absent at the last poll
    before the deadline. *)
Lemma waitForSocketReady_loop_missed (p : string) (deadline t1 : Z) (m : nat) :
  ∀ (fuel : nat) (w : World Message),
    idealTiming w →
    (∀ t, t < t1 → ∃ e, fs_stat w t p = Thrown e ∧ code e = Some ENOENT) →
    (m < fuel)%nat →
    deadline = now w + SOCKET_READY_INTERVAL_MS * Z.of_nat m →
    deadline - SOCKET_READY_INTERVAL_MS < t1 →
    ∃ w' tr,
      waitForSocketReady_loop fuel deadline p w = Some (Thrown err_socket_timeout, w') ∧
      now w' = deadline ∧
      trace w' = trace w ++ tr ∧
      length (statCalls tr) = m.
Proof.
  unfold SOCKET_READY_INTERVAL_MS.
  induction m as [|m IH]; intros fuel w Hideal Habs Hfuel Hdl Ht1.
  - destruct fuel as [|fuel]; [lia|].
    rewrite waitForSocketReady_loop_step.
    destruct (Z.ltb_spec (now w) deadline); [lia|].
    exists w, []. rewrite app_nil_r. split; [done|]. split; [lia|]. done.
  - destruct fuel as [|fuel]; [lia|].
    rewrite waitForSocketReady_loop_step.
    destruct (Z.ltb_spec (now w) deadline); [|lia].
    destruct (Habs (now w)) as (e & He & Hcode); [lia|].
    unfold attempt. rewrite He.
    destruct (decide (code e ≠ Some ENOENT)); [done|].
    assert (now (afterSleep 200 (afterStat p w)) = now w + 200) as Hnow.
    { destruct Hideal as [Hlat Hlag]. unfold afterSleep, afterStat. eff.
      rewrite Hlat, Hlag. lia. }
    destruct (IH fuel (afterSleep 200 (afterStat p w)))
      as (w' & tr & Hrun & Hnow' & Htr & Hcount);
      [done|done|lia|rewrite Hnow; lia|lia|].
    exists w', ([EvStat p (Thrown e); EvSleep 200] ++ tr).
    split; [exact Hrun|]. split; [lia|].
    split.
    { rewrite Htr. unfold afterSleep, afterStat. eff. rewrite He.
      by rewrite <- !app_assoc. }
    rewrite statCalls_app. simpl. by rewrite Hcount.
Qed.

(** X4. With timers that fire on time and I/O that takes no time, let
    the socket be absent before [t1] and pass the checks from [t1] on.
    If [t1] is no later than 2800 ms after the readiness check starts,
    the check succeeds at the first poll that is not earlier than [t1];
    polls are 200 ms apart. If [t1] is later, the check times out exactly
    3000 ms after it started, after fifteen looks: a socket that shows up
    in the last 200 ms before the deadline is not seen. *)
Theorem socket_found_at_first_poll (p : string) (w : World Message) (t1 : Z) :
  idealTiming w →
  (∀ t, t < t1 → ∃ e, fs_stat w t p = Thrown e ∧ code e = Some ENOENT) →
  (∀ t, t1 ≤ t → ∃ st, fs_stat w t p = Returned st ∧
                       checkStats (process_getuid w) st = Returned tt) →
  (t1 ≤ now w + 2800 →
   ∃ w', waitForSocketReady p w = Some (Returned tt, w') ∧
         now w' = firstPollAfter (now w) SOCKET_READY_INTERVAL_MS t1) ∧
  (now w + 2800 < t1 →
   ∃ w' tr, waitForSocketReady p w = Some (Thrown err_socket_timeout, w') ∧
            now w' = now w + SOCKET_READY_TIMEOUT_MS ∧
            trace w' = trace w ++ tr ∧
            length (statCalls tr) = 15%nat).
Proof.
  intros Hideal Habs Hok.
  rewrite waitForSocketReady_run, iterations_ready. split.
  - intros Ht1.
    destruct (firstPollAfter_spec (now w) SOCKET_READY_INTERVAL_MS t1)
      as (n & -> & Hle & Hfirst); [done|].
    assert (n ≤ 14)%nat as Hn.
    { unfold SOCKET_READY_INTERVAL_MS in *. destruct Hfirst; lia. }
    destruct (waitForSocketReady_loop_found p (now w + SOCKET_READY_TIMEOUT_MS) t1 n 16 w)
      as (w' & tr & Hrun & Hnow & _); try done; try lia.
    { unfold SOCKET_READY_TIMEOUT_MS, SOCKET_READY_INTERVAL_MS. lia. }
    by exists w'.
  - intros Ht1.
    apply (waitForSocketReady_loop_missed p _ t1 15 16 w); try done; try lia.
    unfold SOCKET_READY_TIMEOUT_MS, SOCKET_READY_INTERVAL_MS. lia.
Qed.

End Timing.

Section Accept.
Context `{Codec}.

Lemma startTransport_loop_accepted (p : string) (deadline t1 : Z) (n : nat) :
  ∀ (fuel : nat) (lastError : option JsError) (w : World Message),
    idealTiming w →
    (∀ t, t < t1 → ∃ e, transport_start w t p = Thrown e ∧ code e = Some ECONNREFUSED) →
    (∀ t, t1 ≤ t → transport_start w t p = Returned tt) →
    (n < fuel)%nat →
    now w + TRANSPORT_READY_INTERVAL_MS * Z.of_nat n < deadline →
    t1 ≤ now w + TRANSPORT_READY_INTERVAL_MS * Z.of_nat n →
    (n = 0%nat ∨ now w + TRANSPORT_READY_INTERVAL_MS * (Z.of_nat n - 1) < t1) →
    ∃ w' tr,
      startTransport_loop fuel deadline p lastError w = Some (Returned tt, w') ∧
      now w' = now w + TRANSPORT_READY_INTERVAL_MS * Z.of_nat n ∧
      trace w' = trace w ++ tr ∧
      length (connectCalls tr) = S n.
Proof.
  unfold TRANSPORT_READY_INTERVAL_MS.
  induction n as [|n IH]; intros fuel lastError w Hideal Href Hok Hfuel Hdl Ht1 Hfirst.
  - destruct fuel as [|fuel]; [lia|].
    rewrite startTransport_loop_step.
    destruct (Z.ltb_spec (now w) deadline); [|lia].
    rewrite (Hok (now w)) by lia.
    eexists _, [EvConnect p (Returned tt)]. split; [reflexivity|].
    destruct Hideal as [Hlat _].
    unfold afterConnect. eff. rewrite Hlat, Hok by lia. split; [lia|]. done.
  - destruct fuel as [|fuel]; [lia|].
    rewrite startTransport_loop_step.
    destruct (Z.ltb_spec (now w) deadline); [|lia].
    destruct (Href (now w)) as (e & He & Hcode); [lia|].
    rewrite He.
    destruct (decide (code e ≠ Some ECONNREFUSED)); [done|].
    assert (now (afterSleep 200 (afterConnect p w)) = now w + 200) as Hnow.
    { destruct Hideal as [Hlat Hlag]. unfold afterSleep, afterConnect. eff.
      rewrite Hlat, Hlag. lia. }
    destruct (IH fuel (Some e) (afterSleep 200 (afterConnect p w)))
      as (w' & tr & Hrun & Hnow' & Htr & Hcount);
      [done|done|done|lia|rewrite Hnow; lia|rewrite Hnow; lia| |].
    { rewrite Hnow. destruct n; [by left|right; lia]. }
    exists w', ([EvConnect p (Thrown e); EvSleep 200] ++ tr).
    split; [exact Hrun|]. split; [lia|].
    split.
    { rewrite Htr. unfold afterSleep, afterConnect. eff. rewrite He.
      by rewrite <- !app_assoc. }
    rewrite connectCalls_app. simpl. by rewrite Hcount.
Qed.

Lemma startTransport_loop_refused (p : string) (deadline t1 : Z) (m : nat) :
  ∀ (fuel : nat) (lastError : option JsError) (w : World Message),
    idealTiming w →
    (∀ t, t < t1 → ∃ e, transport_start w t p = Thrown e ∧ code e = Some ECONNREFUSED) →
    (m < fuel)%nat →
    deadline = now w + TRANSPORT_READY_INTERVAL_MS * Z.of_nat m →
    deadline - TRANSPORT_READY_INTERVAL_MS < t1 →
    ∃ w' tr e,
      startTransport_loop fuel deadline p lastError w = Some (Thrown e, w') ∧
      now w' = deadline ∧
      trace w' = trace w ++ tr ∧
      length (connectCalls tr) = m ∧
      (m = 0%nat → e = default err_transport_timeout lastError) ∧
      (m ≠ 0%nat →
       transport_start w (deadline - TRANSPORT_READY_INTERVAL_MS) p = Thrown e).
Proof.
  unfold TRANSPORT_READY_INTERVAL_MS.
  induction m as [|m IH]; intros fuel lastError w Hideal Href Hfuel Hdl Ht1.
  - destruct fuel as [|fuel]; [lia|].
    rewrite startTransport_loop_step.
    destruct (Z.ltb_spec (now w) deadline); [lia|].
    eexists w, [], _. rewrite app_nil_r. split; [done|]. split; [lia|]. done.
  - destruct fuel as [|fuel]; [lia|].
    rewrite startTransport_loop_step.
    destruct (Z.ltb_spec (now w) deadline); [|lia].
    destruct (Href (now w)) as (e & He & Hcode); [lia|].
    rewrite He.
    destruct (decide (code e ≠ Some ECONNREFUSED)); [done|].
    assert (now (afterSleep 200 (afterConnect p w)) = now w + 200) as Hnow.
    { destruct Hideal as [Hlat Hlag]. unfold afterSleep, afterConnect. eff.
      rewrite Hlat, Hlag. lia. }
    destruct (IH fuel (Some e) (afterSleep 200 (afterConnect p w)))
      as (w' & tr & e' & Hrun & Hnow' & Htr & Hcount & Hzero & Hlast);
      [done|done|lia|rewrite Hnow; lia|lia|].
    exists w', ([EvConnect p (Thrown e); EvSleep 200] ++ tr), e'.
    split; [exact Hrun|]. split; [lia|].
    split.
    { rewrite Htr. unfold afterSleep, afterConnect. eff. rewrite He.
      by rewrite <- !app_assoc. }
    split; [rewrite connectCalls_app; simpl; by rewrite Hcount|].
    split; [done|]. intros _.
    destruct m as [|m].
    + rewrite Hzero by done. simpl. rewrite <- He. f_equal. lia.
    + apply Hlast. done.
Qed.

(** X5. With timers that fire on time and I/O that takes no time, let
    the daemon refuse connections before [t1] and accept them from [t1]
    on. If [t1] is no later than 1800 ms after [startTransport] begins,
    it succeeds at the first attempt that is not earlier than [t1];
    attempts are 200 ms apart. Otherwise it gives up exactly 2000 ms
    after it began, after ten attempts, and throws the error of the
    last one. *)
Theorem connection_accepted_at_first_attempt (p : string) (w : World Message) (t1 : Z) :
  idealTiming w →
  (∀ t, t < t1 → ∃ e, transport_start w t p = Thrown e ∧ code e = Some ECONNREFUSED) →
  (∀ t, t1 ≤ t → transport_start w t p = Returned tt) →
  (t1 ≤ now w + 1800 →
   ∃ w', startTransport p w = Some (Returned tt, w') ∧
         now w' = firstPollAfter (now w) TRANSPORT_READY_INTERVAL_MS t1) ∧
  (now w + 1800 < t1 →
   ∃ w' tr e, startTransport p w = Some (Thrown e, w') ∧
              now w' = now w + TRANSPORT_READY_TIMEOUT_MS ∧
              trace w' = trace w ++ tr ∧
              length (connectCalls tr) = 10%nat ∧
              transport_start w (now w + 1800) p = Thrown e).
Proof.
  intros Hideal Href Hok.
  rewrite startTransport_run, iterations_transport. split.
  - intros Ht1.
    destruct (firstPollAfter_spec (now w) TRANSPORT_READY_INTERVAL_MS t1)
      as (n & -> & Hle & Hfirst); [done|].
    assert (n ≤ 9)%nat as Hn.
    { unfold TRANSPORT_READY_INTERVAL_MS in *. destruct Hfirst; lia. }
    destruct (startTransport_loop_accepted p (now w + TRANSPORT_READY_TIMEOUT_MS) t1 n 11
                None w)
      as (w' & tr & Hrun & Hnow & _); try done; try lia.
    { unfold TRANSPORT_READY_TIMEOUT_MS, TRANSPORT_READY_INTERVAL_MS. lia. }
    by exists w'.
  - intros Ht1.
    destruct (startTransport_loop_refused p (now w + TRANSPORT_READY_TIMEOUT_MS) t1 10 11
                None w)
      as (w' & tr & e & Hrun & Hnow & Htr & Hcount & _ & Hlast); try done; try lia.
    { unfold TRANSPORT_READY_TIMEOUT_MS, TRANSPORT_READY_INTERVAL_MS. lia. }
    exists w', tr, e. split; [done|]. split; [done|]. split; [done|]. split; [done|].
    rewrite <- Hlast by done. f_equal.
    unfold TRANSPORT_READY_TIMEOUT_MS, TRANSPORT_READY_INTERVAL_MS. lia.
Qed.

End Accept.

(** ** The bridge from start to end *)

Section Bridge.
Context `{Codec}.

(** The two loops move the clock and add to the trace, nothing else. *)
Lemma waitForSocketReady_loop_same (p : string) (deadline : Z) (fuel : nat)
    (w : World Message) r w' :
  waitForSocketReady_loop fuel deadline p w = Some (r, w') →
  ∃ t tr, w' = set_trace tr (set_now t w).
Proof.
  revert w. induction fuel as [|fuel IH]; intros w; [done|].
  rewrite waitForSocketReady_loop_step.
  destruct (now w <? deadline).
  2:{ intros [= <- <-]. exists (now w), (trace w). by destruct w. }
  destruct (attempt p w) as [[]|e]; [intros [= <- <-]; by eexists _, _|].
  destruct (decide (code e ≠ Some ENOENT)); [intros [= <- <-]; by eexists _, _|].
  intros (t & tr & ->)%IH. by exists t, tr.
Qed.

Lemma startTransport_loop_same (p : string) (deadline : Z) (fuel : nat)
    (lastError : option JsError) (w : World Message) r w' :
  startTransport_loop fuel deadline p lastError w = Some (r, w') →
  ∃ t tr, w' = set_trace tr (set_now t w).
Proof.
  revert w lastError. induction fuel as [|fuel IH]; intros w lastError; [done|].
  rewrite startTransport_loop_step.
  destruct (now w <? deadline).
  2:{ intros [= <- <-]. exists (now w), (trace w). by destruct w. }
  destruct (transport_start w (now w) p) as [[]|e]; [intros [= <- <-]; by eexists _, _|].
  destruct (decide (code e ≠ Some ECONNREFUSED)); [intros [= <- <-]; by eexists _, _|].
  intros (t & tr & ->)%IH. by exists t, tr.
Qed.

Lemma stdoutOf_app (tr1 tr2 : list (Event Message)) :
  stdoutOf (tr1 ++ tr2) = stdoutOf tr1 ++ stdoutOf tr2.
Proof.
  induction tr1 as [|ev tr1 IH]; simpl; [done|].
  destruct ev; simpl; by rewrite ?IH.
Qed.

(** X6. [runDaemonProxy] connects only after it has seen, at the socket
    path, a socket with mode 0600 that belongs to the user of the
    process (when the process has a user id): every connection attempt
    among its events comes after such an [fs.stat] result. *)
Theorem no_connection_before_passed_check (p : string) (w : World Message) :
  ∃ r w' tr,
    runDaemonProxy p w = Some (r, w') ∧
    trace w' = trace w ++ tr ∧
    ∀ tr1 q c tr2,
      tr = tr1 ++ EvConnect q c :: tr2 →
      ∃ st, EvStat p (Returned st) ∈ tr1 ∧
            isSocket st = true ∧
            Z.land (st_mode st) mode_0777 = mode_0600 ∧
            (∀ uid, process_getuid w = Some uid → st_uid st = uid).
Proof.
  destruct (runDaemonProxy_run p w)
    as (rV & wV & trV & r & w' & trC & Hwait & HtrV & HallV & Hrun & HtrC & Hcase).
  exists r, w', (trV ++ trC). split; [done|].
  split; [by rewrite HtrC, HtrV, app_assoc|].
  intros tr1 q c tr2 Hsplit.
  destruct (waitForSocketReady_polls p w) as (r0 & w0 & tr0 & Hwait0 & Htr0 & _ & _ & Hres).
  rewrite Hwait in Hwait0. injection Hwait0 as <- <-.
  rewrite HtrV in Htr0. apply app_inv_head in Htr0. subst tr0.
  assert (EvConnect q c ∉ trV) as HnoV.
  { intros Hin. rewrite Forall_forall in HallV. by specialize (HallV _ Hin). }
  destruct rV as [[]|e].
  - destruct Hres as (trV0 & st & -> & Hcheck).
    exists st. split; [|by apply checkStats_returned].
    apply app_eq_inv in Hsplit as [(k & Hk1 & Hk2)|(k & -> & _)].
    + destruct k as [|ev k].
      * rewrite app_nil_r in Hk1. rewrite <- Hk1.
        apply elem_of_app. right. by left.
      * simpl in Hk2. injection Hk2 as <- _. exfalso. apply HnoV.
        rewrite Hk1. apply elem_of_app. right. by left.
    + apply elem_of_app. left. apply elem_of_app. right. by left.
  - destruct Hcase as [_ ->]. exfalso.
    assert (EvConnect q c ∈ trV ++ [EvLog LogError "MCP daemon socket validation failed" (Some e)])
      as Hin by (rewrite Hsplit; apply elem_of_app; right; by left).
    apply elem_of_app in Hin as [Hin|Hin]; [done|].
    by apply list_elem_of_singleton in Hin.
Qed.

(** What [runDaemonProxy] does to the world. *)
Lemma runDaemonProxy_effect (p : string) (w : World Message) :
  ∃ r w' tr,
    runDaemonProxy p w = Some (r, w') ∧
    trace w' = trace w ++ tr ∧
    Forall (startupEvent p) tr ∧
    exited w' = exited w ∧
    sent w' = sent w ∧
    match r with
    | Returned _ => listening w' = true ∧ readBuffer w' = newReadBuffer
    | Thrown _ => listening w' = listening w
    end.
Proof.
  destruct (waitForSocketReady_polls p w) as (rV & wV & trV & Hwait & HtrV & _ & HallV & _).
  assert (Forall (startupEvent (M := Message) p) trV) as HokV.
  { eapply Forall_impl; [exact HallV|]. by intros ev [->|[c ->]]. }
  pose proof Hwait as Hloop. rewrite waitForSocketReady_run in Hloop.
  apply waitForSocketReady_loop_same in Hloop as (t & tr & ->).
  unfold runDaemonProxy. eff. rewrite Hwait.
  destruct rV as [[]|e]; eff.
  - match goal with
    | |- context [startTransport p ?w1] =>
        destruct (startTransport_total p w1) as (r2 & w2 & trC0 & Hconn & HtrC0 & _);
        pose proof Hconn as Hloop; rewrite startTransport_run in Hloop;
        destruct (startTransport_loop_attempts _ _ _ _ _ 10 _ _ Hloop)
          as (trC & HtrC & _ & HallC & _);
          [unfold TRANSPORT_READY_TIMEOUT_MS, TRANSPORT_READY_INTERVAL_MS; lia|lia|];
        apply startTransport_loop_same in Hloop as (t2 & tr2 & ->)
    end.
    rewrite Hconn. eff.
    assert (Forall (startupEvent (M := Message) p) trC) as HokC.
    { eapply Forall_impl; [exact HallC|]. by intros ev [->|[c ->]]. }
    assert (tr2 = trace w ++ trV ++ trC) as Htr2.
    { eff. rewrite HtrC, HtrV. by rewrite <- app_assoc. }
    destruct r2 as [[]|e]; eexists _, _, (trV ++ trC);
      (split; [reflexivity|]); (split; [exact Htr2|]);
      (split; [by apply Forall_app|]); done.
  - eexists _, _, (trV ++ [EvLog LogError "MCP daemon socket validation failed" (Some e)]).
    split; [reflexivity|]. eff. rewrite HtrV.
    split; [by rewrite <- app_assoc|].
    split; [|done]. apply Forall_app. split; [done|]. by repeat constructor.
Qed.

(** X7. Starting the bridge neither writes to stdout, nor sends the
    daemon anything, nor exits the process. The stdin listeners are
    installed, on a fresh buffer, exactly when the start succeeds; a
    failed start leaves stdin alone. *)
Theorem startup_is_silent (p : string) (w : World Message) :
  ∃ r w' tr,
    runDaemonProxy p w = Some (r, w') ∧
    trace w' = trace w ++ tr ∧
    Forall (λ ev, isOutput ev = false) tr ∧
    exited w' = exited w ∧
    sent w' = sent w ∧
    match r with
    | Returned _ => listening w' = true ∧ readBuffer w' = newReadBuffer
    | Thrown _ => listening w' = listening w
    end.
Proof.
  destruct (runDaemonProxy_effect p w) as (r & w' & tr & Hrun & Htr & Hall & Hrest).
  exists r, w', tr. split; [done|]. split; [done|]. split; [|done].
  eapply Forall_impl; [exact Hall|]. by intros [].
Qed.

End Bridge.

Section Session.
Context `{Codec}.

Lemma onStdinClose_run (w : World Message) :
  onStdinClose w =
    Some (Returned tt,
          set_trace (trace w ++ closeEvents (transport_close w))
            (set_readBuffer newReadBuffer w)).
Proof.
  unfold onStdinClose, closeEvents. eff.
  destruct (transport_close w) as [[]|e]; eff; [done|].
  by rewrite <- app_assoc.
Qed.

(** X8. When stdin closes, the listener drops whatever the buffer holds
    and closes the transport once; a close that fails is logged and goes
    no further. Nothing is sent and the process does not exit. Bytes of
    an unfinished line are gone for good: a chunk arriving afterwards is
    framed on its own. *)
Theorem stdin_close_discards (w : World Message) :
  ∃ w',
    onStdinClose w = Some (Returned tt, w') ∧
    trace w' = trace w ++ closeEvents (transport_close w) ∧
    readBuffer w' = newReadBuffer ∧
    exited w' = exited w ∧
    sent w' = sent w ∧
    ∀ later, ∃ w'',
      onStdinData later w' = Some (Returned tt, w'') ∧
      sentMessages (drop (length (trace w')) (trace w'')) =
        forwardedOf (splitLines later).1.
Proof.
  rewrite onStdinClose_run. eexists. split; [reflexivity|]. eff.
  split; [done|]. split; [done|]. split; [done|]. split; [done|].
  intros later.
  match goal with
  | |- context [onStdinData later ?w1] =>
      destruct (onStdinData_run later w1) as (w'' & Hrun & _ & Htr & _)
  end.
  exists w''. split; [done|].
  rewrite Htr, drop_app_length, sentMessages_pumpEvents. done.
Qed.

Lemma wireBytes_valid (m : Message) :
  validMessage m →
  wireBytes m = utf8_encode (JSON_stringify m) ++ [LF] ∧
  (LF ∉ utf8_encode (JSON_stringify m)) ∧
  parseRecord (utf8_encode (JSON_stringify m)) = Returned m.
Proof.
  intros [Hnl Henc Hdec Hcr Hparse]. unfold wireBytes, serializeMessage.
  split; [done|]. split; [done|].
  unfold parseRecord, recordText. by rewrite Hdec, Hcr.
Qed.

Lemma splitLines_wire (ms : list Message) :
  Forall validMessage ms →
  splitLines (concat (wireBytes <$> ms)) =
    ((λ m, utf8_encode (JSON_stringify m)) <$> ms, []).
Proof.
  induction 1 as [|m ms Hm _ IH]; [done|].
  destruct (wireBytes_valid m Hm) as (Hwire & Hnl & _).
  rewrite !fmap_cons. cbn [concat]. rewrite Hwire, <- app_assoc. cbn [app].
  rewrite splitLines_line by done. by rewrite IH.
Qed.

Lemma framed_wire (ms : list Message) :
  Forall validMessage ms →
  framed (concat (wireBytes <$> ms)) = Returned <$> ms.
Proof.
  intros Hms. unfold framed. rewrite splitLines_wire by done. cbn [fst].
  induction Hms as [|m ms Hm _ IH]; [done|].
  destruct (wireBytes_valid m Hm) as (_ & _ & Hparse).
  rewrite !fmap_cons. by rewrite Hparse, IH.
Qed.

(** X9. Any number of valid messages, serialised one after the other and
    delivered in chunks cut anywhere, are read back by a fresh
    [ReadBuffer] as the same messages in the same order, with no parse
    error among them and nothing left in the buffer. *)
Theorem message_stream_round_trip (ms : list Message) (chunks : list (list byte)) :
  Forall validMessage ms →
  concat chunks = concat (wireBytes <$> ms) →
  ∃ rb, feed newReadBuffer chunks = Some (Returned <$> ms, rb) ∧
        pendingBytes rb = [].
Proof.
  intros Hms Hchunks.
  destruct (feed_framed chunks newReadBuffer) as (rb & Hfeed & Hrb);
    [apply not_elem_of_nil|].
  cbn [pendingBytes newReadBuffer buffer default app] in Hfeed, Hrb.
  rewrite Hchunks in Hfeed, Hrb.
  rewrite framed_wire in Hfeed by done. rewrite splitLines_wire in Hrb by done.
  by exists rb.
Qed.

Lemma stdoutOf_pumpEvents send (k : nat) (ls : list (list byte)) :
  stdoutOf (pumpEvents send k ls) = [].
Proof.
  revert k. induction ls as [|l ls IH]; intros k; simpl; [done|].
  destruct (parseRecord l) as [m|e]; [|done].
  simpl. destruct (send k m); simpl; by rewrite IH.
Qed.

Lemma runCallback_run (cb : Callback Message) (w : World Message) :
  ∃ w' tr,
    runCallback cb w = Some (Returned tt, w') ∧
    trace w' = trace w ++ tr ∧
    exited w' = (if isTransportClose cb then Some 0 else exited w) ∧
    listening w' = listening w ∧
    stdoutOf tr =
      match cb with
      | TransportMessage m => [serializeMessage m]
      | _ => []
      end.
Proof.
  destruct cb as [chunk| |m|e|]; cbn [runCallback isTransportClose].
  - destruct (onStdinData_run chunk w) as (w' & Hrun & (_ & ? & ? & _) & Htr & _).
    eexists w', _. split; [done|]. split; [exact Htr|].
    by rewrite stdoutOf_pumpEvents.
  - rewrite onStdinClose_run. eexists _, _. split; [reflexivity|]. eff.
    split; [done|]. split; [done|]. split; [done|].
    unfold closeEvents. by destruct (transport_close w).
  - unfold onTransportMessage. eff. by eexists _, _.
  - unfold onTransportError. eff. by eexists _, _.
  - unfold onTransportClose, process_exit. eff.
    eexists _, _. split; [reflexivity|]. eff. rewrite <- app_assoc. done.
Qed.

Lemma session_run (cbs : list (Callback Message)) (w : World Message) :
  exited w = None →
  ∃ w' tr,
    session cbs w = Some (Returned tt, w') ∧
    trace w' = trace w ++ tr ∧
    exited w' = (if existsb isTransportClose cbs then Some 0 else None) ∧
    listening w' = listening w ∧
    stdoutOf tr = serializeMessage <$> daemonMessages cbs.
Proof.
  revert w. induction cbs as [|cb cbs IH]; intros w Hexit.
  - exists w, []. by rewrite app_nil_r.
  - cbn [session]. unfold mbind at 1, Eff_bind, gets. rewrite Hexit.
    destruct (runCallback_run cb w) as (w1 & tr1 & Hrun1 & Htr1 & Hexit1 & Hlisten1 & Hout1).
    unfold mbind at 1, Eff_bind. rewrite Hrun1.
    destruct (isTransportClose cb) eqn:Hclose.
    + destruct cb; try done.
      destruct cbs as [|cb' cbs].
      * exists w1, tr1. done.
      * cbn [session]. unfold mbind at 1, Eff_bind, gets. rewrite Hexit1.
        exists w1, tr1. done.
    + rewrite Hexit in Hexit1.
      destruct (IH w1 Hexit1) as (w' & tr & Hrun & Htr & Hexit' & Hlisten' & Hout).
      exists w', (tr1 ++ tr). split; [done|].
      split; [by rewrite Htr, Htr1, app_assoc|].
      cbn [existsb]. rewrite Hclose. cbn [orb].
      split; [done|]. split; [congruence|].
      rewrite stdoutOf_app, Hout1, Hout. by destruct cb.
Qed.

(** X10. However the callbacks of a running bridge are called, none of
    them throws, and the process exits only when the transport closes:
    then with code 0, and no callback runs after that. Bad input, failed
    sends, transport errors and the end of stdin leave it running. *)
Theorem session_ends_on_transport_close (cbs : list (Callback Message))
    (w : World Message) :
  exited w = None →
  ∃ w',
    session cbs w = Some (Returned tt, w') ∧
    exited w' = (if existsb isTransportClose cbs then Some 0 else None) ∧
    ∀ more, exited w' ≠ None → session more w' = Some (Returned tt, w').
Proof.
  intros Hexit.
  destruct (session_run cbs w Hexit) as (w' & tr & Hrun & _ & Hexit' & _).
  exists w'. split; [done|]. split; [done|].
  intros [|cb more] Hne; [done|].
  cbn [session]. unfold mbind, Eff_bind, gets.
  by destruct (exited w').
Qed.

(** X11. What a running bridge writes to stdout is the serialised
    messages of the daemon, one write per message, in the order they
    came, and nothing else: no log entry and nothing read from stdin
    ever reaches stdout. *)
Theorem stdout_carries_daemon_messages (cbs : list (Callback Message))
    (w : World Message) :
  exited w = None →
  ∃ w' tr,
    session cbs w = Some (Returned tt, w') ∧
    trace w' = trace w ++ tr ∧
    stdoutOf tr = serializeMessage <$> daemonMessages cbs.
Proof.
  intros Hexit.
  destruct (session_run cbs w Hexit) as (w' & tr & Hrun & Htr & _ & _ & Hout).
  by exists w', tr.
Qed.

End Session.

(** ** The entry point, whatever the server manager does *)

Section Entry.
Context `{Codec} `{ServerManager}.

Lemma advanced_call (p q : Process Message Manager) evs m ev m' evs' :
  advanced p evs m q →
  evs' = evs ++ [ev] →
  advanced p evs' m' (afterManagerCall ev m' q).
Proof.
  intros [Hm Hw] ->. split; [done|].
  unfold afterManagerCall. cbn [world set_world set_serverManager].
  rewrite Hw. eff. by rewrite <- app_assoc.
Qed.

Lemma usablePath_spec (info : ServerInfo) :
  match usablePath info with
  | Some path =>
      childSocketPathOf info = Some path ∧ truthy (Some path) = true ∧
      path ≠ ""%string ∧ info = InfoObject (Some path)
  | None => truthy (childSocketPathOf info) = false
  end.
Proof.
  unfold usablePath. destruct info as [| |[path|]]; try done.
  cbn [childSocketPathOf truthy].
  destruct (String.eqb path "") eqn:Hpath; cbn [negb]; [done|].
  rewrite Hpath. by apply String.eqb_neq in Hpath.
Qed.

Lemma bind_run {S A B} (m : Eff S A) (f : A → Eff S B) (s s1 : S) (r : completion A) :
  m s = Some (r, s1) →
  (m ≫= f) s = match r with
               | Returned a => f a s1
               | Thrown e => Some (Thrown e, s1)
               end.
Proof. intros Hm. unfold mbind, Eff_bind. by rewrite Hm. Qed.

Lemma notice_run (p : Process Message Manager) :
  ∃ p0,
    (if includes (argv p) "--daemon"
     then liftW (logger_info "`--daemon` is enabled (default behavior).")
     else mret tt) p = Some (Returned tt, p0) ∧
    advanced p (daemonNotice (argv p)) (serverManager p) p0 ∧
    defaultWorkdir p0 = defaultWorkdir p.
Proof.
  unfold daemonNotice, advanced. destruct (includes (argv p) "--daemon").
  - eexists. split; [reflexivity|]. done.
  - exists p. split; [reflexivity|]. rewrite app_nil_r. by destruct p as [[]].
Qed.

Lemma start_adv (p q : Process Message Manager) evs m dir allowExisting :
  advanced p evs m q →
  ∃ q', serverManager_start dir allowExisting q =
          Some ((manager_start dir allowExisting m).1, q') ∧
        advanced p (evs ++ [EvManagerStart dir allowExisting
                              (manager_start dir allowExisting m).1])
          (manager_start dir allowExisting m).2 q'.
Proof.
  intros Hadv. rewrite serverManager_start_run. destruct Hadv as [-> Hw].
  eexists. split; [reflexivity|]. by eapply advanced_call.
Qed.

Lemma get_adv (p q : Process Message Manager) evs m serverId :
  advanced p evs m q →
  ∃ q', serverManager_get serverId q = Some ((manager_get serverId m).1, q') ∧
        advanced p (evs ++ [EvManagerGet serverId (manager_get serverId m).1])
          (manager_get serverId m).2 q'.
Proof.
  intros Hadv. rewrite serverManager_get_run. destruct Hadv as [-> Hw].
  eexists. split; [reflexivity|]. by eapply advanced_call.
Qed.

Lemma stop_adv (p q : Process Message Manager) evs m serverId force :
  advanced p evs m q →
  ∃ q', serverManager_stop serverId force q =
          Some ((manager_stop serverId force m).1, q') ∧
        advanced p (evs ++ [EvManagerStop serverId force
                              (manager_stop serverId force m).1])
          (manager_stop serverId force m).2 q'.
Proof.
  intros Hadv. rewrite serverManager_stop_run. destruct Hadv as [-> Hw].
  eexists. split; [reflexivity|]. by eapply advanced_call.
Qed.

Lemma main_try_script (p : Process Message Manager) :
  ∃ p1,
    advanced p (daemonNotice (argv p) ++
                (managerScript (defaultWorkdir p) (serverManager p)).1.1)
      (managerScript (M := Message) (defaultWorkdir p) (serverManager p)).2 p1 ∧
    main_try p =
      match (managerScript (M := Message) (defaultWorkdir p) (serverManager p)).1.2 with
      | inl path => liftW (runDaemonProxy path) p1
      | inr e => Some (Thrown e, p1)
      end.
Proof.
  unfold main_try.
  rewrite (bind_run (gets argv) _ p p (Returned (argv p)) eq_refl).
  destruct (notice_run p) as (p0 & Hnotice & Hp0 & Hd0).
  rewrite (bind_run _ _ p p0 _ Hnotice).
  rewrite (bind_run (gets defaultWorkdir) _ p0 p0 (Returned (defaultWorkdir p0)) eq_refl).
  rewrite Hd0. set (dir := defaultWorkdir p).
  unfold managerScript.
  destruct (start_adv p p0 _ _ dir true Hp0) as (q1 & Hs1 & Hq1).
  rewrite (bind_run _ _ p0 q1 _ Hs1).
  destruct (manager_start dir true (serverManager p)) as [[id1|e1] m1]; cbn [fst snd] in *.
  2:{ by exists q1. }
  destruct (get_adv p q1 _ _ id1 Hq1) as (q2 & Hg1 & Hq2).
  rewrite (bind_run _ _ q1 q2 _ Hg1).
  destruct (manager_get id1 m1) as [[info1|e2] m2]; cbn [fst snd] in *.
  2:{ exists q2. split; [|done]. by rewrite <- app_assoc in Hq2. }
  rewrite <- app_assoc in Hq2. cbn [app] in Hq2.
  pose proof (usablePath_spec info1) as Hu1.
  destruct (usablePath info1) as [path1|].
  { destruct Hu1 as (-> & Htruthy & _). rewrite Htruthy. cbn [negb].
    rewrite (bind_run (mret (Some path1)) _ q2 q2 (Returned (Some path1)) eq_refl).
    rewrite Htruthy. by exists q2. }
  rewrite Hu1. cbn [negb].
  destruct (stop_adv p q2 _ _ id1 true Hq2) as (q3 & Hst & Hq3).
  rewrite <- app_assoc in Hq3. cbn [app] in Hq3.
  destruct (manager_stop id1 true m2) as [[[]|e3] m3]; cbn [fst snd] in *.
  2:{ rewrite (bind_run _ _ q2 q3 (Thrown e3)).
      - by exists q3.
      - by rewrite (bind_run _ _ q2 q3 _ Hst). }
  destruct (start_adv p q3 _ _ dir false Hq3) as (q4 & Hs2 & Hq4).
  rewrite <- app_assoc in Hq4. cbn [app] in Hq4.
  destruct (manager_start dir false m3) as [[id2|e4] m4]; cbn [fst snd] in *.
  2:{ rewrite (bind_run _ _ q2 q4 (Thrown e4)).
      - by exists q4.
      - rewrite (bind_run _ _ q2 q3 _ Hst). by rewrite (bind_run _ _ q3 q4 _ Hs2). }
  destruct (get_adv p q4 _ _ id2 Hq4) as (q5 & Hg2 & Hq5).
  rewrite <- app_assoc in Hq5. cbn [app] in Hq5.
  destruct (manager_get id2 m4) as [[info2|e5] m5]; cbn [fst snd] in *.
  2:{ rewrite (bind_run _ _ q2 q5 (Thrown e5)).
      - by exists q5.
      - rewrite (bind_run _ _ q2 q3 _ Hst), (bind_run _ _ q3 q4 _ Hs2).
        by rewrite (bind_run _ _ q4 q5 _ Hg2). }
  rewrite (bind_run _ _ q2 q5 (Returned (childSocketPathOf info2))).
  2:{ rewrite (bind_run _ _ q2 q3 _ Hst), (bind_run _ _ q3 q4 _ Hs2).
      by rewrite (bind_run _ _ q4 q5 _ Hg2). }
  pose proof (usablePath_spec info2) as Hu2.
  destruct (usablePath info2) as [path2|].
  - destruct Hu2 as (-> & Htruthy & _). rewrite Htruthy. by exists q5.
  - destruct (childSocketPathOf info2) as [path2|].
    + rewrite Hu2. by exists q5.
    + by exists q5.
Qed.

Ltac in_list H :=
  repeat (apply elem_of_cons in H as [H|H]; [congruence|]);
  by apply elem_of_nil in H.

Lemma managerScript_facts (dir : string) (m0 : Manager) :
  ∃ r evs',
    (managerScript (M := Message) dir m0).1.1 = EvManagerStart dir true r :: evs' ∧
    Forall (λ ev, isManagerEvent ev = true) (managerScript (M := Message) dir m0).1.1 ∧
    (∀ d a c, EvManagerStart d a c ∈ (managerScript (M := Message) dir m0).1.1 → d = dir) ∧
    (∀ path,
        (managerScript (M := Message) dir m0).1.2 = inl path →
        path ≠ ""%string ∧
        ∃ id, EvManagerGet id (Returned (InfoObject (Some path)))
                ∈ (managerScript (M := Message) dir m0).1.1).
Proof.
  unfold managerScript.
  destruct (manager_start dir true m0) as [[id1|e1] m1].
  2:{ eexists _, _. split; [reflexivity|]. cbn [fst snd].
      split; [by repeat constructor|]. split; [|done].
      intros d a c Hin. in_list Hin. }
  destruct (manager_get id1 m1) as [[info1|e2] m2].
  2:{ eexists _, _. split; [reflexivity|]. cbn [fst snd].
      split; [by repeat constructor|]. split; [|done].
      intros d a c Hin. in_list Hin. }
  pose proof (usablePath_spec info1) as Hu1.
  destruct (usablePath info1) as [path1|].
  { destruct Hu1 as (_ & _ & Hne & ->).
    eexists _, _. split; [reflexivity|]. cbn [fst snd].
    split; [by repeat constructor|]. split; [intros d a c Hin; in_list Hin|].
    intros path [= <-]. split; [done|]. exists id1. by repeat constructor. }
  destruct (manager_stop id1 true m2) as [[[]|e3] m3].
  2:{ eexists _, _. split; [reflexivity|]. cbn [fst snd].
      split; [by repeat constructor|]. split; [|done].
      intros d a c Hin. in_list Hin. }
  destruct (manager_start dir false m3) as [[id2|e4] m4].
  2:{ eexists _, _. split; [reflexivity|]. cbn [fst snd].
      split; [by repeat constructor|]. split; [|done].
      intros d a c Hin. in_list Hin. }
  destruct (manager_get id2 m4) as [[info2|e5] m5].
  2:{ eexists _, _. split; [reflexivity|]. cbn [fst snd].
      split; [by repeat constructor|]. split; [|done].
      intros d a c Hin. in_list Hin. }
  pose proof (usablePath_spec info2) as Hu2.
  destruct (usablePath info2) as [path2|].
  - destruct Hu2 as (_ & _ & Hne & ->).
    eexists _, _. split; [reflexivity|]. cbn [fst snd].
    split; [by repeat constructor|]. split; [intros d a c Hin; in_list Hin|].
    intros path [= <-]. split; [done|]. exists id2. by repeat constructor.
  - eexists _, _. split; [reflexivity|]. cbn [fst snd].
    split; [by repeat constructor|]. split; [|done].
    intros d a c Hin. in_list Hin.
Qed.

(** [main] without the version and help flags: the calls to the server
    manager, then the bridge on the path they gave, and the [catch]
    block for whatever was thrown. *)
Lemma main_outcome (p : Process Message Manager) :
  wantsVersion (argv p) = false →
  wantsHelp (argv p) = false →
  ∃ p' tr,
    main p = Some (Returned tt, p') ∧
    trace (world p') =
      trace (world p) ++ daemonNotice (argv p) ++
      (managerScript (defaultWorkdir p) (serverManager p)).1.1 ++ tr ∧
    match (managerScript (M := Message) (defaultWorkdir p) (serverManager p)).1.2 with
    | inl path =>
        ∃ (r : completion unit) trS,
          Forall (startupEvent path) trS ∧
          match r with
          | Returned _ =>
              tr = trS ∧ exited (world p') = exited (world p) ∧
              listening (world p') = true
          | Thrown e =>
              tr = trS ++ failureEvents e ∧ exited (world p') = Some 1 ∧
              listening (world p') = listening (world p)
          end
    | inr e =>
        tr = failureEvents e ∧ exited (world p') = Some 1 ∧
        listening (world p') = listening (world p)
    end.
Proof.
  intros Hv Hh. unfold main. eff_main. rewrite Hv, Hh.
  destruct (main_try_script p) as (p1 & [Hm Hw] & ->).
  destruct ((managerScript (M := Message) (defaultWorkdir p) (serverManager p)).1.2)
    as [path|e].
  - unfold liftW.
    destruct (runDaemonProxy_effect path (world p1))
      as (r & w' & trS & -> & Htr & Hall & Hexit & _ & Hcase).
    rewrite Hw in Htr, Hexit, Hcase. eff.
    destruct r as [[]|e]; unfold process_exit; eff_main.
    + eexists _, trS. split; [reflexivity|]. cbn [world set_world].
      split; [by rewrite Htr, <- !app_assoc|].
      exists (Returned tt), trS. by destruct Hcase.
    + eexists _, (trS ++ failureEvents e). split; [reflexivity|]. cbn [world set_world]. eff.
      split; [unfold failureEvents; by rewrite Htr, <- !app_assoc|].
      exists (Thrown e), trS. done.
  - unfold process_exit. eff_main.
    eexists _, (failureEvents e). split; [reflexivity|]. cbn [world set_world]. eff.
    rewrite Hw. eff. split; [unfold failureEvents; by rewrite <- !app_assoc|]. done.
Qed.

Lemma stdoutOf_none (tr : list (Event Message)) :
  Forall (λ ev, isOutput ev = false) tr → stdoutOf tr = [] ∧ sentMessages tr = [].
Proof.
  induction 1 as [|ev tr Hev _ [IH1 IH2]]; [done|]. by destruct ev.
Qed.

(** X12. Without the version and help flags, [main] never throws and
    writes nothing to stdout. It ends in one of two ways: the bridge is
    up, listening on stdin, and the process goes on; or something failed
    (a call to the server manager, the missing socket path, the readiness
    check, the connection), the failure was logged, and the process has
    exited with code 1 without listening on stdin. *)
Theorem main_fails_closed (p : Process Message Manager) :
  wantsVersion (argv p) = false →
  wantsHelp (argv p) = false →
  ∃ p' tr,
    main p = Some (Returned tt, p') ∧
    trace (world p') = trace (world p) ++ tr ∧
    stdoutOf tr = [] ∧
    sentMessages tr = [] ∧
    ((exited (world p') = exited (world p) ∧ listening (world p') = true) ∨
     (exited (world p') = Some 1 ∧ listening (world p') = listening (world p) ∧
      ∃ tr0 e, tr = tr0 ++ failureEvents e)).
Proof.
  intros Hv Hh.
  destruct (main_outcome p Hv Hh) as (p' & tr & Hrun & Htr & Hcase).
  destruct (managerScript_facts (defaultWorkdir p) (serverManager p))
    as (_ & _ & _ & Hmgr & _).
  set (evs := (managerScript (M := Message) (defaultWorkdir p) (serverManager p)).1.1) in *.
  exists p', (daemonNotice (argv p) ++ evs ++ tr).
  split; [done|]. split; [done|].
  assert (Forall (λ ev : Event Message, isOutput ev = false) (daemonNotice (argv p) ++ evs))
    as Hquiet.
  { apply Forall_app. split.
    - unfold daemonNotice. destruct (includes _ _); by repeat constructor.
    - eapply Forall_impl; [exact Hmgr|]. by intros []. }
  assert (∀ path trS, Forall (startupEvent (M := Message) path) trS →
                      Forall (λ ev : Event Message, isOutput ev = false) trS) as Hstart.
  { intros path trS Hall. eapply Forall_impl; [exact Hall|]. by intros []. }
  assert (∀ e, stdoutOf (failureEvents (M := Message) e) = [] ∧
               sentMessages (failureEvents (M := Message) e) = []) as Hfail by done.
  rewrite app_assoc.
  destruct (stdoutOf_none _ Hquiet) as [Hq1 Hq2].
  rewrite stdoutOf_app, sentMessages_app, Hq1, Hq2. cbn [app].
  destruct (managerScript _ _).1.2 as [path|e].
  - destruct Hcase as (r & trS & Hall & Hr).
    destruct (stdoutOf_none _ (Hstart _ _ Hall)) as [Hs1 Hs2].
    destruct r as [[]|e].
    + destruct Hr as (-> & Hexit & Hlisten). split; [done|]. split; [done|]. by left.
    + destruct Hr as (-> & Hexit & Hlisten).
      rewrite stdoutOf_app, sentMessages_app, Hs1, Hs2.
      split; [done|]. split; [done|]. right. split; [done|]. split; [done|].
      exists (daemonNotice (argv p) ++ evs ++ trS), e. by rewrite <- !app_assoc.
  - destruct Hcase as (-> & Hexit & Hlisten).
    split; [done|]. split; [done|]. right. split; [done|]. split; [done|].
    exists (daemonNotice (argv p) ++ evs), e. by rewrite <- !app_assoc.
Qed.

End Entry.

Section EntryPaths.
Context `{Codec} `{ServerManager}.

Ltac in_list H :=
  repeat (apply elem_of_cons in H as [H|H]; [congruence|]);
  by apply elem_of_nil in H.

Lemma truthy_Some (s : string) : truthy (Some s) = true ↔ s ≠ ""%string.
Proof.
  cbn [truthy]. destruct (String.eqb s "") eqn:Hs; cbn [negb].
  - apply String.eqb_eq in Hs. split; [done|]. by intros [].
  - by apply String.eqb_neq in Hs.
Qed.

(** X13. The working directory [main] hands to the server manager is
    [MCP_SHELL_DEFAULT_WORKDIR] when that is set and not empty, otherwise
    [SHELL_SERVER_DEFAULT_WORKDIR] when that is set and not empty,
    otherwise the current directory of the process. The first thing
    [main] asks of the manager is a start in that directory that may
    reuse a running server, and every later start is in the same
    directory. *)
Theorem workdir_precedence (p : Process Message Manager) :
  wantsVersion (argv p) = false →
  wantsHelp (argv p) = false →
  ∃ p' r tr,
    main p = Some (Returned tt, p') ∧
    trace (world p') =
      trace (world p) ++ daemonNotice (argv p) ++
      EvManagerStart (defaultWorkdir p) true r :: tr ∧
    (∀ d a c, EvManagerStart d a c ∈ tr → d = defaultWorkdir p) ∧
    (∀ d, env p !! "MCP_SHELL_DEFAULT_WORKDIR"%string = Some d → d ≠ ""%string →
          defaultWorkdir p = d) ∧
    (∀ d, truthy (env p !! "MCP_SHELL_DEFAULT_WORKDIR"%string) = false →
          env p !! "SHELL_SERVER_DEFAULT_WORKDIR"%string = Some d → d ≠ ""%string →
          defaultWorkdir p = d) ∧
    (truthy (env p !! "MCP_SHELL_DEFAULT_WORKDIR"%string) = false →
     truthy (env p !! "SHELL_SERVER_DEFAULT_WORKDIR"%string) = false →
     defaultWorkdir p = cwd p).
Proof.
  intros Hv Hh.
  destruct (main_outcome p Hv Hh) as (p' & tr & Hrun & Htr & Hcase).
  destruct (managerScript_facts (defaultWorkdir p) (serverManager p))
    as (r & evs' & Hevs & _ & Hdir & _).
  rewrite Hevs in Htr, Hdir.
  exists p', r, (evs' ++ tr). split; [done|]. split; [done|].
  split.
  { intros d a c [Hin|Hin]%elem_of_app.
    - apply (Hdir d a c). by right.
    - destruct (managerScript _ _).1.2 as [path|e].
      + destruct Hcase as (r' & trS & Hall & Hr).
        assert (EvManagerStart d a c ∉ trS) as HnotS.
        { intros HinS. rewrite Forall_forall in Hall. by specialize (Hall _ HinS). }
        destruct r' as [[]|e]; destruct Hr as (-> & _); [done|].
        apply elem_of_app in Hin as [Hin|Hin]; [done|]. unfold failureEvents in Hin.
        in_list Hin.
      + destruct Hcase as (-> & _). unfold failureEvents in Hin. in_list Hin. }
  unfold defaultWorkdir, or_else.
  split; [|split].
  - intros d -> Hd. apply truthy_Some in Hd. by rewrite Hd.
  - intros d -> -> Hd. apply truthy_Some in Hd. by rewrite Hd.
  - intros -> ->. done.
Qed.

(** X14. Whatever path [main] looks at or connects to is a non-empty
    [childSocketPath] that [serverManager.get] returned earlier in the
    same run: no socket path comes from anywhere else. *)
Theorem socket_path_comes_from_manager (p : Process Message Manager) :
  wantsVersion (argv p) = false →
  wantsHelp (argv p) = false →
  ∃ p' tr,
    main p = Some (Returned tt, p') ∧
    trace (world p') = trace (world p) ++ tr ∧
    ∀ tr1 ev tr2,
      tr = tr1 ++ ev :: tr2 →
      ∀ q, ((∃ c, ev = EvStat q c) ∨ (∃ c, ev = EvConnect q c)) →
           q ≠ ""%string ∧
           ∃ id, EvManagerGet id (Returned (InfoObject (Some q))) ∈ tr1.
Proof.
  intros Hv Hh.
  destruct (main_outcome p Hv Hh) as (p' & tr & Hrun & Htr & Hcase).
  destruct (managerScript_facts (defaultWorkdir p) (serverManager p))
    as (_ & _ & _ & Hmgr & _ & Hpath).
  set (evs := (managerScript (M := Message) (defaultWorkdir p) (serverManager p)).1.1) in *.
  exists p', (daemonNotice (argv p) ++ evs ++ tr).
  split; [done|]. split; [done|].
  assert (Forall (λ ev : Event Message, isStat ev = false ∧ isConnect ev = false)
            (daemonNotice (argv p) ++ evs)) as Hquiet.
  { apply Forall_app. split.
    - unfold daemonNotice. destruct (includes _ _); by repeat constructor.
    - eapply Forall_impl; [exact Hmgr|]. by intros []. }
  intros tr1 ev tr2 Hsplit q Hev.
  assert (isStat ev = true ∨ isConnect ev = true) as Hkind.
  { destruct Hev as [[c ->]|[c ->]]; [by left|by right]. }
  rewrite app_assoc in Hsplit.
  assert (∃ k, tr1 = (daemonNotice (argv p) ++ evs) ++ k ∧ tr = k ++ ev :: tr2)
    as (k & -> & Hk2).
  { apply app_eq_inv in Hsplit as [(k & Hk1 & Hk2)|(k & -> & Hk2)]; [|by exists k].
    destruct k as [|ev' k].
    - exists []. rewrite app_nil_r in Hk1 |- *. by rewrite Hk1.
    - exfalso. simpl in Hk2. injection Hk2 as <- _.
      rewrite Hk1 in Hquiet. apply Forall_app in Hquiet as [_ Hquiet].
      apply Forall_cons in Hquiet as [[? ?] _]. destruct Hkind; congruence. }
  assert (∀ trS path, Forall (startupEvent (M := Message) path) trS →
                      ∀ k1 k2, trS = k1 ++ ev :: k2 → q = path) as Hstart.
  { intros trS path Hall k1 k2 ->.
    apply Forall_app in Hall as [_ Hall]. apply Forall_cons in Hall as [Hq _].
    by destruct Hev as [[c ->]|[c ->]]. }
  destruct (managerScript _ _).1.2 as [path|e] eqn:Hout.
  - destruct (Hpath path eq_refl) as (Hne & id & Hid).
    destruct Hcase as (r & trS & Hall & Hr).
    assert (q = path) as ->.
    { destruct r as [[]|e]; destruct Hr as (Heq & _).
      - subst trS. by eapply Hstart.
      - rewrite Heq in Hk2.
        apply app_eq_inv in Hk2 as [(k' & Hk1' & Hk2')|(k' & -> & Hk2')].
        + destruct k' as [|ev' k'].
          * simpl in Hk2'. unfold failureEvents in Hk2'.
            simplify_eq. by destruct Hkind.
          * simpl in Hk2'. simplify_eq. by eapply Hstart.
        + unfold failureEvents in Hk2'.
          destruct k' as [|? [|? [|? k']]]; simplify_eq/=; by destruct Hkind. }
    split; [done|]. exists id.
    apply elem_of_app. left. apply elem_of_app. by right.
  - destruct Hcase as (-> & _). unfold failureEvents in Hk2.
    destruct k as [|? [|? [|? k]]]; simplify_eq/=; by destruct Hkind.
Qed.

End EntryPaths.

Section Flags.
Context `{Codec} `{ServerManager}.

Lemma getVersion_run (p : Process Message Manager) :
  getVersion p = Some (Returned (versionOf p), p).
Proof.
  unfold getVersion, versionOf. eff_main. unfold id.
  destruct (packageVersion p) as [v|]; [done|].
  destruct (env p !! "npm_package_version"%string) as [v|]; [|done].
  cbn [truthy default]. by destruct (String.eqb v "").
Qed.

(** X15. [getVersion] never throws and changes nothing. It answers with
    the version of package.json when that could be read; otherwise with
    [npm_package_version] when that is set and not empty; otherwise with
    ["unknown"]. So the answer is empty only if package.json itself says
    so. *)
Theorem getVersion_fallback (p : Process Message Manager) :
  ∃ ver,
    getVersion p = Some (Returned ver, p) ∧
    (∀ v, packageVersion p = Some v → ver = v) ∧
    (packageVersion p = None →
     ∀ v, env p !! "npm_package_version"%string = Some v → v ≠ ""%string → ver = v) ∧
    (packageVersion p = None →
     truthy (env p !! "npm_package_version"%string) = false → ver = "unknown"%string) ∧
    (packageVersion p ≠ Some ""%string → ver ≠ ""%string).
Proof.
  exists (versionOf p). split; [apply getVersion_run|].
  unfold versionOf.
  destruct (packageVersion p) as [pv|].
  { split; [by intros v [= ->]|]. split; [done|]. split; [done|]. congruence. }
  split; [done|].
  destruct (env p !! "npm_package_version"%string) as [v|]; cbn [truthy].
  - destruct (String.eqb v "") eqn:Hv; cbn [negb].
    + apply String.eqb_eq in Hv. subst v. split; [by intros _ v [= <-]|]. done.
    + apply String.eqb_neq in Hv. split; [by intros _ v' [= <-]|]. done.
  - done.
Qed.

(** X16. With [--version] or [-v] among the arguments, [main] writes the
    version and a newline to stdout; otherwise, with [--help] or [-h], it
    writes the help text. In both cases that single write is all that
    happens: the server manager is not called, no socket is looked at,
    nothing is logged and the process does not exit. [--version] wins
    over [--help]. *)
Theorem info_flags_short_circuit (p : Process Message Manager) :
  wantsVersion (argv p) = true ∨ wantsHelp (argv p) = true →
  ∃ ver,
    getVersion p = Some (Returned ver, p) ∧
    main p =
      Some (Returned tt,
            set_world
              (set_trace
                 (trace (world p) ++
                  [EvStdout
                     (js_of_string
                        (if wantsVersion (argv p) then ver +:+ newline
                         else String.concat newline (helpLines ver) +:+ newline))])
                 (world p)) p).
Proof.
  intros Hflag. exists (versionOf p). split; [apply getVersion_run|].
  unfold main. eff_main.
  destruct (wantsVersion (argv p)).
  - rewrite getVersion_run. done.
  - destruct Hflag as [?|Hhelp]; [done|]. rewrite Hhelp.
    rewrite getVersion_run. unfold printHelp. eff_main. done.
Qed.

End Flags.

(** ** The daemon's files *)

Section DaemonStart.

Lemma truthy_path (s : string) : s ≠ ""%string → truthy (Some s) = true.
Proof. intros Hs. simpl. by destruct (String.eqb_spec s ""). Qed.


End DaemonStart.

Section DaemonSocket.


End DaemonSocket.

Section DaemonFiles.



(** X18. Without [MCP_SHELL_MCP_SOCKET], or with an empty one, the daemon
    does not start: the error is logged, the exit code is set to 1, and
    neither the file system nor any socket is touched. *)
Theorem daemon_requires_socket_path (d : Daemon) :
  truthy (d_env d !! "MCP_SHELL_MCP_SOCKET"%string) = false →
  ∃ d',
    daemon_main d = Some (Returned tt, d') ∧
    d_trace d' = d_trace d ++ [startupFailed err_socket_path_required] ∧
    d_exitCode d' = Some 1 ∧
    fs d' = fs d ∧
    d_listening d' = d_listening d.
Proof.
  intros Hfalsy. unfold daemon_main, startMcpDaemon. eff_d. rewrite Hfalsy.
  cbn [negb]. eff_d. eexists. split; [reflexivity|]. done.
Qed.

(** X19. When the parent of the socket path exists and is not a
    directory, the daemon gives up at once: [fs.mkdir] fails, startup is
    reported as failed with exit code 1, and the socket path is not even
    looked at. *)
Theorem daemon_parent_blocked (d : Daemon) (socketPath : string) (st : Stats) :
  d_env d !! "MCP_SHELL_MCP_SOCKET"%string = Some socketPath →
  socketPath ≠ ""%string →
  fs d !! dirname d socketPath = Some st →
  isDirectory st = false →
  ∃ d',
    daemon_main d = Some (Returned tt, d') ∧
    d_trace d' =
      d_trace d ++
      [DMkdir (dirname d socketPath) (Thrown (errno EEXIST));
       startupFailed (errno EEXIST)] ∧
    d_exitCode d' = Some 1 ∧
    fs d' = fs d ∧
    d_listening d' = d_listening d.
Proof.
  intros Henv Hne Hparent Hisdir.
  unfold daemon_main, startMcpDaemon. eff_d.
  rewrite Henv, (truthy_path _ Hne). cbn [negb default id].
  rewrite Hparent, Hisdir. eff_d.
  eexists. split; [reflexivity|]. eff_d.
  split; [by rewrite <- app_assoc|]. done.
Qed.



End DaemonFiles.

(** ** The list of disabled tools *)

Section Disabled.

Lemma trimStart_spec (s : jsstring) :
  ∃ pre, s = pre ++ trimStart s ∧ blank pre ∧
         match trimStart s with
         | c :: _ => isWhiteSpace c = false
         | [] => True
         end.
Proof.
  induction s as [|c s (pre & Hs & Hpre & Hhead)]; simpl.
  - exists []. split; [done|]. split; [constructor|done].
  - destruct (isWhiteSpace c) eqn:Hc.
    + exists (c :: pre). split; [by rewrite Hs at 1|]. split; [by constructor|done].
    + exists []. split; [done|]. split; [constructor|done].
Qed.

Lemma trimStart_blank (pre s : jsstring) :
  blank pre → trimStart (pre ++ s) = trimStart s.
Proof. induction 1 as [|c pre Hc _ IH]; simpl; [done|]. by rewrite Hc. Qed.

Lemma trimStart_head (s : jsstring) (c : N) :
  head s = Some c → isWhiteSpace c = false → trimStart s = s.
Proof. destruct s as [|d s]; [done|]. simpl. intros [= ->] ->. done. Qed.

Lemma trimStart_all_blank (s : jsstring) : blank s → trimStart s = [].
Proof. induction 1 as [|c s Hc _ IH]; simpl; [done|]. by rewrite Hc. Qed.

Lemma blank_reverse (s : jsstring) : blank s → blank (reverse s).
Proof. unfold blank. intros Hs. by apply Forall_reverse. Qed.

Lemma trim_spec (s : jsstring) :
  ∃ pre post, s = pre ++ trim s ++ post ∧ blank pre ∧ blank post ∧
              (trim s = [] ∨ trimmed (trim s)).
Proof.
  destruct (trimStart_spec s) as (pre & Hs & Hpre & Hhead).
  unfold trim, trimEnd.
  destruct (trimStart_spec (reverse (trimStart s))) as (post & Hr & Hpost & Hlast).
  exists pre, (reverse post).
  assert (trimStart s = reverse (trimStart (reverse (trimStart s))) ++ reverse post) as Hmid.
  { rewrite <- reverse_app, <- Hr. by rewrite reverse_involutive. }
  split; [by rewrite <- Hmid|].
  split; [done|]. split; [by apply blank_reverse|].
  destruct (trimStart (reverse (trimStart s))) as [|c r] eqn:Hrev; [by left|].
  right. split.
  - rewrite reverse_cons.
    destruct (reverse r) as [|d r'] eqn:Hrr.
    + simpl. exists c. split; [done|exact Hlast].
    + simpl. exists d. split; [done|].
      rewrite Hmid, reverse_cons, Hrr in Hhead. simpl in Hhead. exact Hhead.
  - exists c. split; [|exact Hlast]. rewrite reverse_cons. apply last_snoc.
Qed.

Lemma splitOn_nonempty (sep : N) (s : jsstring) : splitOn sep s ≠ [].
Proof.
  induction s as [|c s IH]; simpl; [done|].
  destruct (c =? sep)%N; [done|]. by destruct (splitOn sep s).
Qed.

Lemma splitOn_free (sep : N) (s : jsstring) :
  Forall (λ field, sep ∉ field) (splitOn sep s).
Proof.
  induction s as [|c s IH]; simpl.
  - constructor; [apply not_elem_of_nil|constructor].
  - destruct (N.eqb_spec c sep) as [->|Hne].
    + constructor; [apply not_elem_of_nil|done].
    + destruct (splitOn sep s) as [|field fields].
      * constructor; [|constructor]. apply not_elem_of_cons.
        split; [congruence|apply not_elem_of_nil].
      * inversion IH; subst.
        constructor; [|done]. apply not_elem_of_cons. split; [congruence|done].
Qed.

Lemma splitOn_field (sep : N) (field rest : jsstring) :
  sep ∉ field → splitOn sep (field ++ sep :: rest) = field :: splitOn sep rest.
Proof.
  induction field as [|c field IH]; simpl.
  - intros _. by rewrite N.eqb_refl.
  - intros [Hne Hfree]%not_elem_of_cons. rewrite IH by done.
    destruct (N.eqb_spec c sep); [congruence|done].
Qed.

Lemma splitOn_last (sep : N) (field : jsstring) :
  sep ∉ field → splitOn sep field = [field].
Proof.
  induction field as [|c field IH]; simpl; [done|].
  intros [Hne Hfree]%not_elem_of_cons. rewrite IH by done.
  destruct (N.eqb_spec c sep); [congruence|done].
Qed.

Lemma splitOn_joinWith (sep : N) (fields : list jsstring) :
  fields ≠ [] →
  Forall (λ field, sep ∉ field) fields →
  splitOn sep (joinWith sep fields) = fields.
Proof.
  induction fields as [|field fields IH]; [done|].
  intros _ Hfree. inversion Hfree as [|? ? Hfield Hrest]; subst.
  destruct fields as [|field' fields].
  - simpl. by apply splitOn_last.
  - change (joinWith sep (field :: field' :: fields))
      with (field ++ sep :: joinWith sep (field' :: fields)).
    rewrite splitOn_field by done. by rewrite IH.
Qed.

Lemma trim_blank_around (pre name post : jsstring) :
  blank pre → blank post → trimmed name → trim (pre ++ name ++ post) = name.
Proof.
  intros Hpre Hpost [(c & Hhead & Hc) (d & Hlast & Hd)].
  unfold trim, trimEnd.
  rewrite trimStart_blank by done.
  assert (trimStart (name ++ post) = name ++ post) as ->.
  { apply (trimStart_head _ c); [|done]. by destruct name. }
  rewrite reverse_app, trimStart_blank by by apply blank_reverse.
  rewrite (trimStart_head _ d); [by rewrite reverse_involutive| |done].
  apply last_Some in Hlast as (name' & ->).
  by rewrite reverse_snoc.
Qed.

(** X22. Every entry of [DISABLED_TOOLS] is a non-empty name without a
    comma and with no white space at either end, taken from between two
    commas of the variable; when the variable is not set, is empty, or
    holds only commas and white space, no tool is disabled. *)
Theorem disabled_tools_entries_clean (value : option jsstring) :
  Forall (λ t, t ≠ [] ∧ (COMMA ∉ t) ∧ trimmed t ∧
               ∃ pre post, (pre ++ t ++ post ∈ splitOn COMMA (default [] value)) ∧
                           blank pre ∧ blank post)
         (DISABLED_TOOLS value) ∧
  DISABLED_TOOLS None = [] ∧
  (∀ s, Forall (λ c, c = COMMA ∨ isWhiteSpace c = true) s → DISABLED_TOOLS (Some s) = []).
Proof.
  split; [|split; [done|]].
  - unfold DISABLED_TOOLS. apply Forall_forall. intros t Ht.
    apply list_elem_of_filter in Ht as [Hlen Ht].
    apply list_elem_of_fmap in Ht as (field & -> & Hfield).
    destruct (trim_spec field) as (pre & post & Heq & Hpre & Hpost & Hclean).
    assert (trim field ≠ []) as Hne
      by (intros Hnil; rewrite Hnil in Hlen; simpl in Hlen; lia).
    destruct Hclean as [?|Hclean]; [done|].
    split; [done|]. split.
    + pose proof (splitOn_free COMMA (default [] value)) as Hfree.
      rewrite Forall_forall in Hfree. specialize (Hfree _ Hfield).
      rewrite Heq in Hfree. intros Hin. apply Hfree.
      apply elem_of_app. right. apply elem_of_app. by left.
    + split; [done|]. exists pre, post. by rewrite <- Heq.
  - intros s Hs. unfold DISABLED_TOOLS. cbn [default]. unfold id.
    assert (Forall blank (splitOn COMMA s)) as Hblank.
    { induction Hs as [|c s Hc _ IH]; simpl; [by repeat constructor|].
      destruct (N.eqb_spec c COMMA) as [->|Hne].
      - constructor; [constructor|done].
      - destruct Hc as [?|Hc]; [done|].
        destruct (splitOn COMMA s) as [|field fields].
        + constructor; [|constructor]. by repeat constructor.
        + inversion IH; subst. constructor; [by constructor|done]. }
    revert Hblank. generalize (splitOn COMMA s). intros fields Hblank.
    induction Hblank as [|field fields Hfield _ IH]; [reflexivity|].
    rewrite fmap_cons, filter_cons_False; [done|].
    unfold trim. rewrite (trimStart_all_blank field) by done.
    cbn. lia.
Qed.

(** X23. Writing names (non-empty, without commas, no white space at
    either end) into the variable separated by commas, with any white
    space around each, gives back exactly these names, in order. *)
Theorem disabled_tools_round_trip (fields names : list jsstring) :
  Forall2 (λ field name, ∃ pre post, field = pre ++ name ++ post ∧
                                     blank pre ∧ blank post) fields names →
  Forall (λ name, (COMMA ∉ name) ∧ trimmed name) names →
  DISABLED_TOOLS (Some (joinWith COMMA fields)) = names.
Proof.
  intros Hfields Hnames. unfold DISABLED_TOOLS. cbn [default]. unfold id.
  assert (Forall (λ field, COMMA ∉ field) fields) as Hfree.
  { clear -Hfields Hnames. revert Hnames.
    induction Hfields as [|field name fields names (pre & post & -> & Hpre & Hpost) _ IH];
      intros Hnames; [constructor|].
    inversion Hnames as [|? ? [Hfree _] Hrest]; subst.
    constructor; [|by apply IH].
    assert (∀ s, blank s → COMMA ∉ s) as Hblank.
    { intros s Hs Hin. unfold blank in Hs. rewrite Forall_forall in Hs.
      by specialize (Hs _ Hin). }
    rewrite !not_elem_of_app. split; [by apply Hblank|]. split; [done|by apply Hblank]. }
  destruct (decide (fields = [])) as [->|Hne].
  { by inversion Hfields. }
  rewrite splitOn_joinWith by done. clear Hfree Hne.
  revert Hnames.
  induction Hfields as [|field name fields names (pre & post & -> & Hpre & Hpost) _ IH];
    intros Hnames; [done|].
  inversion Hnames as [|? ? [Hfree Htrimmed] Hrest]; subst.
  rewrite fmap_cons, trim_blank_around by done.
  rewrite filter_cons_True.
  - f_equal. by apply IH.
  - destruct Htrimmed as [(c & Hhead & _) _]. destruct name; [done|]. simpl. lia.
Qed.

End Disabled.

(** ** The tool handlers *)

Section Tools.
Context `{ToolRuntime}.

Lemma js_of_string_inj (a b : string) : js_of_string a = js_of_string b → a = b.
Proof.
  unfold js_of_string. intros Heq.
  assert (Inj (=) (=) Ascii.N_of_ascii) as Hinj.
  { intros x y Hxy.
    by rewrite <- (Ascii.ascii_N_embedding x), <- (Ascii.ascii_N_embedding y), Hxy. }
  apply (inj (fmap Ascii.N_of_ascii)) in Heq.
  by rewrite <- (String.string_of_list_ascii_of_string a),
             <- (String.string_of_list_ascii_of_string b), Heq.
Qed.

Lemma strictEq_literal (a b : string) :
  strictEq (js_of_string a) b = String.eqb a b.
Proof.
  unfold strictEq. destruct (String.eqb_spec a b) as [->|Hne].
  - by rewrite bool_decide_eq_true_2.
  - rewrite bool_decide_eq_false_2; [done|]. by intros ?%js_of_string_inj.
Qed.

Lemma strictEq_true (name : jsstring) (literal : string) :
  strictEq name literal = true → name = js_of_string literal.
Proof. unfold strictEq. by intros ?%bool_decide_eq_true. Qed.

Lemma strictEq_false (name : jsstring) (literal : string) :
  strictEq name literal = false → name ≠ js_of_string literal.
Proof. unfold strictEq. by intros ?%bool_decide_eq_false. Qed.


Lemma TOOLS_functional (lit : string) (schema schema' : Schema) :
  (lit, schema) ∈ TOOLS → (lit, schema') ∈ TOOLS → schema = schema'.
Proof.
  assert (NoDup (TOOLS.*1)) as Hnodup by compute_done.
  intros Hin Hin'.
  apply (elem_of_list_to_map_1 (M := gmap string)) in Hin; [|done].
  apply (elem_of_list_to_map_1 (M := gmap string)) in Hin'; [|done].
  congruence.
Qed.

Lemma toolNames_spec (name : jsstring) :
  name ∈ toolNames ↔ ∃ lit schema, (lit, schema) ∈ TOOLS ∧ name = js_of_string lit.
Proof.
  unfold toolNames. rewrite list_elem_of_fmap. split.
  - intros ([lit schema] & -> & Hin). by exists lit, schema.
  - intros (lit & schema & Hin & ->). by exists (lit, schema).
Qed.

Ltac chosen Heq lit schema :=
  right; apply strictEq_true in Heq as ->;
  exists lit, schema; eexists;
  split; [compute_done|];
  split; [reflexivity|];
  split; [reflexivity|].

Lemma parseServerParams_cases (name : jsstring) (args : Value) (o : DispatchOptions) :
  (parseServerParams name args o = Done None ∧
   Forall (λ lit, name ≠ js_of_string lit)
     ["server_current"; "server_list_attachable"; "server_start"; "server_stop";
      "server_get"; "server_detach"; "server_reattach"]%string) ∨
  (∃ lit schema v,
      (lit, schema) ∈ TOOLS ∧ name = js_of_string lit ∧
      parseServerParams (js_of_string lit) args o = returned (zodParse schema v) ∧
      parseNonServerParams (js_of_string lit) args = Done None ∧
      (lit ≠ "server_current"%string → lit ≠ "server_list_attachable"%string →
       v = args)).
Proof.
  unfold parseServerParams at 1.
  destruct (strictEq name "server_current") eqn:H1.
  { chosen H1 "server_current"%string ServerCurrentParamsSchema. by split. }
  destruct (strictEq name "server_list_attachable") eqn:H2.
  { chosen H2 "server_list_attachable"%string ServerListAttachableParamsSchema.
    by split. }
  destruct (strictEq name "server_start") eqn:H3.
  { chosen H3 "server_start"%string ServerStartParamsSchema. by split. }
  destruct (strictEq name "server_stop") eqn:H4.
  { chosen H4 "server_stop"%string ServerStopParamsSchema. by split. }
  destruct (strictEq name "server_get") eqn:H5.
  { chosen H5 "server_get"%string ServerGetParamsSchema. by split. }
  destruct (strictEq name "server_detach") eqn:H6.
  { chosen H6 "server_detach"%string ServerDetachParamsSchema. by split. }
  destruct (strictEq name "server_reattach") eqn:H7.
  { chosen H7 "server_reattach"%string ServerReattachParamsSchema. by split. }
  left. split; [done|].
  repeat (constructor; [by apply strictEq_false|]). constructor.
Qed.


Ltac chosen' Heq lit schema :=
  right; apply strictEq_true in Heq as ->;
  exists lit, schema;
  split; [compute_done|]; by repeat split.

Lemma parseNonServerParams_cases (name : jsstring) (args : Value) :
  (parseNonServerParams name args = Done None ∧
   Forall (λ lit, name ≠ js_of_string lit)
     ["process_get_execution"; "shell_set_default_workdir";
      "list_execution_outputs"; "read_execution_output";
      "delete_execution_outputs"; "get_cleanup_suggestions";
      "perform_auto_cleanup"; "terminal_operate"; "terminal_list";
      "terminal_get_info"; "terminal_close"; "command_history_query"]%string) ∨
  (∃ lit schema,
      (lit, schema) ∈ TOOLS ∧ name = js_of_string lit ∧
      lit ≠ "server_current"%string ∧ lit ≠ "server_list_attachable"%string ∧
      parseNonServerParams (js_of_string lit) args = returned (zodParse schema args)).
Proof.
  unfold parseNonServerParams at 1.
  destruct (strictEq name "process_get_execution") eqn:H1.
  { chosen' H1 "process_get_execution"%string ShellGetExecutionParamsSchema. }
  destruct (strictEq name "shell_set_default_workdir") eqn:H2.
  { chosen' H2 "shell_set_default_workdir"%string ShellSetDefaultWorkdirParamsSchema. }
  destruct (strictEq name "list_execution_outputs") eqn:H3.
  { chosen' H3 "list_execution_outputs"%string FileListParamsSchema. }
  destruct (strictEq name "read_execution_output") eqn:H4.
  { chosen' H4 "read_execution_output"%string FileReadParamsSchema. }
  destruct (strictEq name "delete_execution_outputs") eqn:H5.
  { chosen' H5 "delete_execution_outputs"%string FileDeleteParamsSchema. }
  destruct (strictEq name "get_cleanup_suggestions") eqn:H6.
  { chosen' H6 "get_cleanup_suggestions"%string CleanupSuggestionsParamsSchema. }
  destruct (strictEq name "perform_auto_cleanup") eqn:H7.
  { chosen' H7 "perform_auto_cleanup"%string AutoCleanupParamsSchema. }
  destruct (strictEq name "terminal_operate") eqn:H8.
  { chosen' H8 "terminal_operate"%string TerminalOperateParamsSchema. }
  destruct (strictEq name "terminal_list") eqn:H9.
  { chosen' H9 "terminal_list"%string TerminalListParamsSchema. }
  destruct (strictEq name "terminal_get_info") eqn:H10.
  { chosen' H10 "terminal_get_info"%string TerminalGetParamsSchema. }
  destruct (strictEq name "terminal_close") eqn:H11.
  { chosen' H11 "terminal_close"%string TerminalCloseParamsSchema. }
  destruct (strictEq name "command_history_query") eqn:H12.
  { chosen' H12 "command_history_query"%string CommandHistoryQueryParamsSchema. }
  left. split; [done|].
  repeat (constructor; [by apply strictEq_false|]). constructor.
Qed.

(** What the [try] block comes to for a name other than [shell_execute]
    that is not disabled: a schema of the list was chosen and threw, or
    gave parameters the call went out with, or gave a falsy value; or no
    schema was chosen, the name being none of the list. *)
Lemma callTool_try_cases (disabled : list jsstring) (name : jsstring)
    (args : Value) (s : Server) :
  name ∉ disabled → name ≠ js_of_string "shell_execute" →
  (∃ lit schema v,
      (lit, schema) ∈ TOOLS ∧ name = js_of_string lit ∧
      (lit ≠ "server_current"%string → lit ≠ "server_list_attachable"%string →
       v = args) ∧
      ((∃ e, zodParse schema v = Raise e ∧
             callTool_try disabled name args s = (Raise (Foreign e), s)) ∨
       (∃ p, zodParse schema v = Done p ∧ toBoolean p = true ∧
             callTool_try disabled name args s =
               dispatchParsed name p (dispatchOptionsOf s) s) ∨
       (∃ p, zodParse schema v = Done p ∧ toBoolean p = false ∧
             callTool_try disabled name args s =
               dispatchUnparsed name args (dispatchOptionsOf s) s))) ∨
  ((name ∉ toolNames) ∧
   callTool_try disabled name args s =
     dispatchUnparsed name args (dispatchOptionsOf s) s).
Proof.
  intros Hdisabled Hshell. unfold callTool_try.
  rewrite bool_decide_eq_false_2 by done.
  assert (strictEq name "shell_execute" = false) as ->
    by (unfold strictEq; by rewrite bool_decide_eq_false_2).
  cbv zeta.
  destruct (parseServerParams_cases name args (dispatchOptionsOf s))
    as [[-> Hserver]|(lit & schema & v & Hin & -> & -> & -> & Hv)].
  - destruct (parseNonServerParams_cases name args)
      as [[-> Hnon]|(lit & schema & Hin & -> & Hc & Hl & ->)].
    + right. split; [|done].
      intros (lit & schema & Hin & ->)%toolNames_spec.
      repeat match goal with
             | Hall : Forall _ (_ :: _) |- _ =>
                 apply Forall_cons in Hall as [? Hall]
             end.
      repeat (apply elem_of_cons in Hin as [Hin|Hin];
              [injection Hin as -> ->; done|]).
      by apply elem_of_nil in Hin.
    + left. exists lit, schema, args. split; [done|]. split; [done|].
      split; [done|].
      destruct (zodParse schema args) as [p|e]; simpl.
      * destruct (toBoolean p) eqn:Hp; [right; left|right; right]; by exists p.
      * left. by exists e.
  - left. exists lit, schema, v. split; [done|]. split; [done|]. split; [done|].
    destruct (zodParse schema v) as [p|e]; simpl.
    + destruct (toBoolean p) eqn:Hp; [right; left|right; right]; by exists p.
    + left. by exists e.
Qed.

Lemma dispatchAndAnswer_state (name : jsstring) (params : Value)
    (o : DispatchOptions) (s : Server) :
  (dispatchAndAnswer name params o s).2 =
    mkServer (s_env s) (s_cwd s) (dispatchToolCall name params o (s_runtime s)).2
      (s_trace s ++ [Dispatched name params o]).
Proof. unfold dispatchAndAnswer. by destruct (dispatchToolCall _ _ _ _).1. Qed.


Lemma callTool_state (disabled : list jsstring) (name : jsstring)
    (args : Value) (s : Server) :
  (callTool disabled name args s).2 = (callTool_try disabled name args s).2.
Proof. unfold callTool. by destruct (callTool_try disabled name args s).1. Qed.

Lemma callTool_result (disabled : list jsstring) (name : jsstring)
    (args : Value) (s : Server) :
  (callTool disabled name args s).1 =
    match (callTool_try disabled name args s).1 with
    | Done answer => Done answer
    | Raise error => Raise (callTool_catch error)
    end.
Proof. unfold callTool. by destruct (callTool_try disabled name args s).1. Qed.

Lemma callTool_catch_foreign (e : Exception) :
  callTool_catch (Foreign e) = Foreign e ∨
  callTool_catch (Foreign e) = McpError InvalidRequest (errorMessage e).
Proof. simpl. destruct (instanceofMCPShellError e); [by right|by left]. Qed.

Ltac caught e :=
  split; [done|]; split; [done|]; split; [done|];
  cbn [fst snd]; destruct (callTool_catch_foreign e) as [Hc|Hc]; rewrite Hc;
  [by left|by right].

Lemma dispatches_app (tr tr' : list ToolEvent) :
  dispatches (tr ++ tr') = dispatches tr ++ dispatches tr'.
Proof. unfold dispatches. apply omap_app. Qed.

(** X24. A tool named in the list of disabled tools is neither advertised
    nor run: the answer to [ListTools] leaves it out, and a call of it is
    refused with [MethodNotFound] before anything else happens. *)
Theorem disabled_tool_hidden_and_refused (disabled : list jsstring)
    (name : jsstring) (args : Value) (s : Server) :
  name ∈ disabled →
  (∀ tool, tool ∈ listTools disabled → js_of_string tool.1 ≠ name) ∧
  callTool disabled name args s =
    (Raise (McpError MethodNotFound
              (js_of_string "Tool " ++ name ++ js_of_string " is disabled")), s).
Proof.
  intros Hin. split.
  - intros tool [Hnot _]%list_elem_of_filter Heq. by rewrite Heq in Hnot.
  - unfold callTool, callTool_try. by rewrite bool_decide_eq_true_2.
Qed.

(** X25. A tool of the advertised list is run only on what its advertised
    schema gave back: when the schema throws, nothing is dispatched and the
    call fails; otherwise there is exactly one call of the runtime, under
    the tool's name, with the parameters the schema returned. *)
Theorem advertised_schema_guards_dispatch (disabled : list jsstring)
    (tool : string * Schema) (args : Value) (s : Server) :
  tool ∈ listTools disabled →
  (∀ v p, zodParse tool.2 v = Done p → toBoolean p = true) →
  let name := js_of_string tool.1 in
  let r := callTool disabled name args s in
  ∃ v evs,
    (tool.1 ≠ "server_current"%string →
     tool.1 ≠ "server_list_attachable"%string → v = args) ∧
    s_trace r.2 = s_trace s ++ evs ∧
    ((∃ e, zodParse tool.2 v = Raise e ∧
           dispatches evs = [] ∧ s_runtime r.2 = s_runtime s ∧
           (r.1 = Raise (Foreign e) ∨
            r.1 = Raise (McpError InvalidRequest (errorMessage e)))) ∨
     (∃ p, zodParse tool.2 v = Done p ∧
           dispatches evs = [(name, p, dispatchOptionsOf s)] ∧
           s_runtime r.2 =
             (dispatchToolCall name p (dispatchOptionsOf s) (s_runtime s)).2)).
Proof.
  intros [Hnot Hin]%list_elem_of_filter Htruthy name r.
  destruct tool as [lit schema]. simpl in Hnot, Hin, Htruthy. cbn [fst snd].
  subst r. rewrite callTool_state, callTool_result.
  destruct (decide (lit = "shell_execute"%string)) as [->|Hshell].
  - assert (schema = ShellExecuteParamsSchema) as ->
      by (eapply TOOLS_functional; [done|compute_done]).
    exists args. unfold callTool_try.
    rewrite bool_decide_eq_false_2 by done.
    subst name. rewrite strictEq_literal, String.eqb_refl. cbv zeta.
    unfold shellExecute, shellExecuteCatch.
    destruct (zodParse ShellExecuteParamsSchema args) as [p|e] eqn:Hparse.
    + pose proof (dispatchAndAnswer_state (js_of_string "shell_execute") p
                    (dispatchOptionsOf s) s) as Hstate.
      destruct (dispatchAndAnswer _ p _ s) as [[answer|e] s']; simpl in Hstate;
        subst s'; cbn [fst snd].
      * exists [Dispatched (js_of_string "shell_execute") p (dispatchOptionsOf s)].
        split; [done|]. split; [done|]. right. by exists p.
      * destruct (instanceofZodError e); cbn [logged s_trace s_runtime].
        -- eexists. split; [done|]. rewrite <- app_assoc. split; [done|].
           right. by exists p.
        -- eexists. split; [done|]. split; [done|]. right. by exists p.
    + destruct (instanceofZodError e); cbn [fst snd logged s_trace s_runtime].
      * eexists. split; [done|]. split; [done|]. left. exists e. caught e.
      * exists []. split; [done|]. rewrite app_nil_r. split; [done|].
        left. exists e. caught e.
  - assert (name ≠ js_of_string "shell_execute") as Hshell'
      by (by intros ?%js_of_string_inj).
    destruct (callTool_try_cases disabled name args s Hnot Hshell')
      as [(lit' & schema' & v & Hin' & Hname & Hv & Hcases)|[Hunknown _]].
    2:{ exfalso. apply Hunknown, toolNames_spec. by exists lit, schema. }
    apply js_of_string_inj in Hname as <-.
    assert (schema' = schema) as -> by (by eapply TOOLS_functional).
    exists v.
    destruct Hcases as [(e & Hparse & ->)|[(p & Hparse & _ & ->)|(p & Hparse & Hp & _)]].
    + exists []. split; [done|]. rewrite app_nil_r. split; [done|].
      left. exists e. caught e.
    + unfold dispatchParsed.
      pose proof (dispatchAndAnswer_state name p (dispatchOptionsOf s) s) as Hstate.
      destruct (dispatchAndAnswer name p _ s) as [[answer|e] s']; simpl in Hstate;
        subst s'; cbn [fst snd s_trace s_runtime];
        (eexists; split; [done|]; split; [done|]; right; by exists p).
    + apply Htruthy in Hparse. congruence.
Qed.


(** X26. Every error a tool call ends with is one of four: the refusal of
    a disabled tool, [MethodNotFound] for a name outside the list that the
    runtime does not support, [InvalidRequest] with the message of an
    [MCPShellError], or what a schema or the runtime threw, unchanged, and
    then never an [MCPShellError]. *)
Theorem tool_errors_classified (disabled : list jsstring) (name : jsstring)
    (args : Value) (s s' : Server) (error : ToolError) :
  (∀ schema v p, zodParse schema v = Done p → toBoolean p = true) →
  callTool disabled name args s = (Raise error, s') →
  ((name ∈ disabled) ∧ s' = s ∧
   error = McpError MethodNotFound
             (js_of_string "Tool " ++ name ++ js_of_string " is disabled")) ∨
  ((name ∉ disabled) ∧ (name ∉ toolNames) ∧
   s_trace s' = s_trace s ++ [Dispatched name args (dispatchOptionsOf s)] ∧
   error = McpError MethodNotFound (js_of_string "Unknown tool: " ++ name)) ∨
  ((name ∉ disabled) ∧
   ∃ e, instanceofMCPShellError e = true ∧
        error = McpError InvalidRequest (errorMessage e)) ∨
  ((name ∉ disabled) ∧
   ∃ e, instanceofMCPShellError e = false ∧ error = Foreign e).
Proof.
  intros Htruthy Hcall.
  assert (∀ e, error = callTool_catch (Foreign e) →
               (∃ e, instanceofMCPShellError e = true ∧
                     error = McpError InvalidRequest (errorMessage e)) ∨
               (∃ e, instanceofMCPShellError e = false ∧ error = Foreign e))
    as Hforeign.
  { intros e ->. simpl. destruct (instanceofMCPShellError e) eqn:He;
      [left|right]; by exists e. }
  pose proof (callTool_state disabled name args s) as Hstate.
  pose proof (callTool_result disabled name args s) as Hresult.
  rewrite Hcall in Hstate, Hresult. cbn [fst snd] in Hstate, Hresult.
  destruct (decide (name ∈ disabled)) as [Hin|Hnot].
  { left. unfold callTool_try in Hstate, Hresult.
    rewrite bool_decide_eq_true_2 in Hstate, Hresult by done.
    simpl in Hstate, Hresult. by simplify_eq. }
  right.
  destruct (decide (name = js_of_string "shell_execute")) as [Hshell|Hshell].
  - right. unfold callTool_try in Hstate, Hresult.
    rewrite bool_decide_eq_false_2 in Hstate, Hresult by done.
    rewrite Hshell, strictEq_literal, String.eqb_refl in Hstate, Hresult.
    cbv zeta in Hstate, Hresult. rewrite <- Hshell in Hstate, Hresult.
    unfold shellExecute, shellExecuteCatch in Hresult.
    destruct (zodParse ShellExecuteParamsSchema args) as [p|e].
    + destruct (dispatchAndAnswer name p (dispatchOptionsOf s) s).1 as [answer|e];
        [done|].
      cbn [fst] in Hresult.
      destruct (Hforeign e) as [?|?]; [congruence|by left|by right].
    + cbn [fst] in Hresult.
      destruct (Hforeign e) as [?|?]; [congruence|by left|by right].
  - destruct (callTool_try_cases disabled name args s Hnot Hshell)
      as [(lit & schema & v & _ & _ & _ & Hcases)|[Hunknown Htry]].
    + right.
      destruct Hcases as [(e & _ & Htry)|[(p & _ & _ & Htry)|(p & Hparse & Hp & _)]].
      * rewrite Htry in Hresult. cbn [fst] in Hresult.
        destruct (Hforeign e) as [?|?]; [congruence|by left|by right].
      * rewrite Htry in Hresult. unfold dispatchParsed in Hresult.
        destruct (dispatchAndAnswer name p (dispatchOptionsOf s) s).1 as [answer|e];
          [done|].
        cbn [fst] in Hresult.
        destruct (Hforeign e) as [?|?]; [congruence|by left|by right].
      * apply Htruthy in Hparse. congruence.
    + rewrite Htry in Hstate, Hresult. unfold dispatchUnparsed in Hstate, Hresult.
      pose proof (dispatchAndAnswer_state name args (dispatchOptionsOf s) s) as Hd.
      destruct (dispatchAndAnswer name args (dispatchOptionsOf s) s)
        as [[answer|e] s'']; cbn [fst snd] in Hstate, Hresult, Hd; [done|].
      destruct (instanceofError e && startsWith _ _);
        cbn [fst snd] in Hstate, Hresult.
      * left. split; [done|]. split; [done|]. split; [|by simplify_eq/=].
        by rewrite Hstate, Hd.
      * right. destruct (Hforeign e) as [?|?]; [congruence|by left|by right].
Qed.

(** X27. A report on [console.error] is written by a call of
    [shell_execute] that ends with a [ZodError], once, with the arguments as
    they came and the errors of the [ZodError]; no other call writes one,
    and a [ZodError] of the schema of [shell_execute] is always reported. *)
Theorem validation_report_only_for_shell_execute (disabled : list jsstring)
    (name : jsstring) (args : Value) (s : Server) :
  let r := callTool disabled name args s in
  let confused := hasKey "explanation" args || hasKey "isBackground" args in
  ∃ evs,
    s_trace r.2 = s_trace s ++ evs ∧
    (reports evs = [] ∨
     ((name ∉ disabled) ∧ name = js_of_string "shell_execute" ∧
      ∃ e, instanceofZodError e = true ∧
           r.1 = Raise (callTool_catch (Foreign e)) ∧
           reports evs =
             [mkErrorDetails (js_of_string (specificMessage confused)) args
                (zodErrors e) (toISOString (s_runtime r.2))
                (js_of_string (hint confused))])) ∧
    ((name ∉ disabled) → name = js_of_string "shell_execute" →
     ∀ e, zodParse ShellExecuteParamsSchema args = Raise e →
          instanceofZodError e = true → reports evs ≠ []).
Proof.
  intros r confused. subst r. rewrite callTool_state, callTool_result.
  destruct (decide (name ∈ disabled)) as [Hin|Hnot].
  { exists []. unfold callTool_try. rewrite bool_decide_eq_true_2 by done.
    rewrite app_nil_r. split; [done|]. split; [by left|done]. }
  destruct (decide (name = js_of_string "shell_execute")) as [Hshell|Hshell].
  - unfold callTool_try. rewrite bool_decide_eq_false_2 by done.
    assert (strictEq name "shell_execute" = true) as ->
      by (by rewrite Hshell, strictEq_literal).
    cbv zeta.
    unfold shellExecute, shellExecuteCatch.
    destruct (zodParse ShellExecuteParamsSchema args) as [p|e] eqn:Hparse.
    + pose proof (dispatchAndAnswer_state name p (dispatchOptionsOf s) s) as Hstate.
      destruct (dispatchAndAnswer name p (dispatchOptionsOf s) s)
        as [[answer|e] s']; cbn [fst snd] in Hstate |- *; subst s'.
      * eexists. split; [done|]. split; [by left|done].
      * destruct (instanceofZodError e) eqn:Hzod;
          cbn [fst snd logged s_trace s_runtime].
        -- eexists. rewrite <- app_assoc. split; [done|].
           split; [|done]. right. split; [done|]. split; [done|]. by exists e.
        -- eexists. split; [done|]. split; [by left|done].
    + destruct (instanceofZodError e) eqn:Hzod;
        cbn [fst snd logged s_trace s_runtime].
      * eexists. split; [done|]. split; [|done].
        right. split; [done|]. split; [done|]. by exists e.
      * exists []. rewrite app_nil_r. split; [done|]. split; [by left|].
        intros _ _ e' [= <-] He'. congruence.
  - destruct (callTool_try_cases disabled name args s Hnot Hshell)
      as [(lit & schema & v & _ & _ & _ & Hcases)|[_ Htry]].
    + destruct Hcases as [(e & _ & ->)|[(p & _ & _ & ->)|(p & _ & _ & ->)]].
      * exists []. rewrite app_nil_r. split; [done|]. split; [by left|done].
      * unfold dispatchParsed.
        pose proof (dispatchAndAnswer_state name p (dispatchOptionsOf s) s) as Hd.
        destruct (dispatchAndAnswer name p (dispatchOptionsOf s) s)
          as [[answer|e] s']; cbn [fst snd] in Hd |- *; subst s';
          (eexists; split; [done|]; split; [by left|done]).
      * unfold dispatchUnparsed.
        pose proof (dispatchAndAnswer_state name args (dispatchOptionsOf s) s) as Hd.
        destruct (dispatchAndAnswer name args (dispatchOptionsOf s) s)
          as [[answer|e] s']; cbn [fst snd] in Hd |- *; subst s';
          [|destruct (instanceofError e && startsWith _ _); cbn [fst snd]];
          (eexists; split; [done|]; split; [by left|done]).
    + rewrite Htry. unfold dispatchUnparsed.
      pose proof (dispatchAndAnswer_state name args (dispatchOptionsOf s) s) as Hd.
      destruct (dispatchAndAnswer name args (dispatchOptionsOf s) s)
        as [[answer|e] s']; cbn [fst snd] in Hd |- *; subst s';
        [|destruct (instanceofError e && startsWith _ _); cbn [fst snd]];
        (eexists; split; [done|]; split; [by left|done]).
Qed.

End Tools.

(** ** The notifications of background processes *)

Section Notifications.

(** X28. The preview of a command in a notification is never longer than
    40 code units; it is the command itself exactly when the command has at
    most 40, and shares its first 37 otherwise. The size of the output is
    left out exactly when there is no output. *)
Theorem notification_info_bounds (executionInfo : ExecutionInfo) :
  let info := getProcessNotificationInfo executionInfo in
  (length info.1 ≤ 40)%nat ∧
  (info.1 = command executionInfo ↔ (length (command executionInfo) ≤ 40)%nat) ∧
  take 37 info.1 = take 37 (command executionInfo) ∧
  (info.2 = [] ↔
   default [] (stdout executionInfo) = [] ∧ default [] (stderr executionInfo) = []).
Proof.
  destruct executionInfo as [cmd out err]. intros info. subst info.
  cbv [getProcessNotificationInfo command stdout stderr fst snd].
  split; [|split; [|split]].
  - destruct (Nat.ltb_spec 40 (length cmd)); [|lia].
    rewrite length_app, length_take.
    change (length (js_of_string "...")) with 3%nat. lia.
  - destruct (Nat.ltb_spec 40 (length cmd)); [|split; [lia|done]].
    split; [|lia]. intros Heq. apply (f_equal length) in Heq.
    rewrite length_app, length_take in Heq.
    change (length (js_of_string "...")) with 3%nat in Heq. lia.
  - destruct (Nat.ltb_spec 40 (length cmd)); [|done].
    rewrite take_app_le by (rewrite length_take; lia).
    by rewrite take_take, Nat.min_id.
  - destruct (Nat.ltb_spec 0 (default 0 (length <$> out) + default 0 (length <$> err)))%nat
      as [Hpos|Hzero].
    + split; [done|]. intros [Hout Herr].
      destruct out as [out|], err as [err|]; simpl in *; subst; simpl in *; lia.
    + split; [intros _|done].
      destruct out as [[|? ?]|], err as [[|? ?]|]; simpl in *; done || lia.
Qed.

End Notifications.

(** ** The theorems at work on the reference runtime *)

Section Examples.
Import Reference.
#[local] Existing Instance codec.

Ltac decide_it := refine (bool_decide_unpack _ _); vm_compute; exact I.

Lemma chunked_delivery_witness :
  let chunks :=
    [take 10 ping;
     (drop 10 ping ++ CRLF ++ garbage ++ [LF] ++ take 3 reply);
     (drop 3 reply ++ [LF])] in
  feed newReadBuffer chunks =
    Some ([Returned pingMessage; Thrown syntaxError; Returned replyMessage],
          mkReadBuffer (Some [])) ∧
  ∃ out rb rb1 rb2,
    feed newReadBuffer chunks = Some (out, rb) ∧
    feedThenDrain newReadBuffer chunks = Some (out, rb2) ∧
    feed newReadBuffer [concat chunks] = Some (out, rb1) ∧
    pendingBytes rb = pendingBytes rb1 ∧
    pendingBytes rb2 = pendingBytes rb1.
Proof.
  intros chunks. split.
  - vm_compute. reflexivity.
  - apply chunked_delivery_same_messages.
Defined.

Lemma readBuffer_framing_witness :
  let chunks :=
    [take 5 garbage; (drop 5 garbage ++ CRLF ++ ping ++ [LF] ++ take 7 reply)] in
  let l := garbage ++ [x0d] in
  let r := ping ++ [LF] ++ take 7 reply in
  let t := take 7 reply in
  let next := drop 7 reply ++ [LF] in
  let rb := foldl append newReadBuffer chunks in
  ((concat chunks = l ++ LF :: r) ∧ (LF ∉ l) ∧ (LF ∉ t)) ∧
  recordText l = text "not json" ∧
  readMessage rb = (Thrown syntaxError, mkReadBuffer (Some r)) ∧
  (∃ rb', drain (readMessage rb).2 = Some ([Returned pingMessage], rb') ∧
          pendingBytes rb' = t) ∧
  readMessage (mkReadBuffer (Some t)) = (Returned None, mkReadBuffer (Some t)) ∧
  append (mkReadBuffer (Some t)) next = mkReadBuffer (Some (reply ++ [LF])).
Proof.
  intros chunks l r t next rb.
  assert (concat chunks = l ++ LF :: r) as H1 by (vm_compute; reflexivity).
  assert (LF ∉ l) as H2 by decide_it.
  assert (LF ∉ t) as H3 by decide_it.
  destruct (readBuffer_framing chunks l r t next H1 H2 H3)
    as (Hread & _ & Hthrown & Hnull & Happend).
  split; [done|]. split; [vm_compute; reflexivity|].
  destruct (Hthrown syntaxError) as (Hread' & rb' & Hdrain & Hpending);
    [vm_compute; reflexivity|].
  split; [exact Hread'|]. split.
  - exists rb'. split; [exact Hdrain|exact Hpending].
  - split; [exact Hnull|]. rewrite Happend. vm_compute. reflexivity.
Defined.

Lemma validMessage_ping : validMessage pingMessage.
Proof.
  constructor.
  - decide_it.
  - vm_compute. reflexivity.
  - vm_compute. reflexivity.
  - vm_compute. reflexivity.
  - vm_compute. reflexivity.
Defined.







Lemma socket_path_fallback_witness :
  (∃ r p' tr,
      main (H0 := manager 1) (process 1 [] readyWorld) = Some (r, p') ∧
      trace (world p') = tr ∧
      managerEvents tr =
        [EvManagerStart "/home/user" true (Returned "server-0"%string);
         EvManagerGet "server-0"
           (Returned (InfoObject (Some "/run/shell/child.sock"%string)))]) ∧
  (∃ p',
      main (H0 := manager 3) (process 3 ["--daemon"%string] readyWorld) =
        Some (Returned tt, p') ∧
      exited (world p') = Some 1 ∧
      trace (world p') =
        [EvLog LogInfo "`--daemon` is enabled (default behavior)." None;
         EvManagerStart "/home/user" true (Returned "server-0"%string);
         EvManagerGet "server-0" (Returned (InfoObject None));
         EvManagerStop "server-0" true (Returned tt);
         EvManagerStart "/home/user" false (Returned "server-1"%string);
         EvManagerGet "server-1" (Returned (InfoObject None));
         EvLog LogError "Failed to start shell-server process for MCP proxy"
           (Some err_no_child_socket);
         EvExit 1]).
Proof.
  split.
  - destruct (socket_path_fallback (H0 := manager 1) (process 1 [] readyWorld)
                "server-0" (InfoObject (Some "/run/shell/child.sock"%string))
                1%nat 1%nat eq_refl eq_refl eq_refl eq_refl)
      as (Hfirst & _).
    destruct (Hfirst "/run/shell/child.sock"%string eq_refl)
      as (r & p' & tr & Hrun & Htr & Hmgr); [discriminate|].
    exists r, p', tr. split; [exact Hrun|]. split; [exact Htr|exact Hmgr].
  - destruct (socket_path_fallback (H0 := manager 3)
                (process 3 ["--daemon"%string] readyWorld)
                "server-0" (InfoObject None)
                1%nat 1%nat eq_refl eq_refl eq_refl eq_refl)
      as (_ & Hsecond).
    destruct (Hsecond eq_refl 1%nat "server-1"%string 2%nat (InfoObject None) 2%nat
                eq_refl eq_refl eq_refl)
      as (r & p' & tr & Hrun & Htr & _ & Hfatal).
    destruct (Hfatal eq_refl) as (-> & Hexit & ->).
    exists p'. split; [exact Hrun|]. split; [exact Hexit|exact Htr].
Defined.


End Examples.

(** ** More examples on the reference runtime *)

Section MoreExamples.
Import Reference Scenarios.
#[local] Existing Instance codec.

Ltac decide_it := refine (bool_decide_unpack _ _); vm_compute; exact I.

Lemma appearsAt_before (t0 uid t : Z) (p : string) :
  t < t0 → appearsAt t0 uid t p = Thrown (errno ENOENT).
Proof. intros Ht. unfold appearsAt. by destruct (Z.ltb_spec t t0); [|lia]. Qed.

Lemma appearsAt_after (t0 uid t : Z) (p : string) :
  t0 ≤ t → appearsAt t0 uid t p = Returned (socketFile uid).
Proof. intros Ht. unfold appearsAt. by destruct (Z.ltb_spec t t0); [lia|]. Qed.

Lemma acceptsFrom_before (t0 t : Z) (p : string) :
  t < t0 → acceptsFrom t0 t p = Thrown (errno ECONNREFUSED).
Proof. intros Ht. unfold acceptsFrom. by destruct (Z.ltb_spec t t0); [|lia]. Qed.

Lemma acceptsFrom_after (t0 t : Z) (p : string) :
  t0 ≤ t → acceptsFrom t0 t p = Returned tt.
Proof. intros Ht. unfold acceptsFrom. by destruct (Z.ltb_spec t t0); [lia|]. Qed.

Lemma socket_found_at_first_poll_witness :
  let p := "/run/shell/child.sock"%string in
  (∃ w', waitForSocketReady p lateWorld = Some (Returned tt, w') ∧ now w' = 600) ∧
  (∃ w' tr, waitForSocketReady p tooLateWorld = Some (Thrown err_socket_timeout, w') ∧
            now w' = 3000 ∧
            trace w' = trace tooLateWorld ++ tr ∧
            length (statCalls tr) = 15%nat).
Proof.
  intros p. split.
  - destruct (socket_found_at_first_poll p lateWorld 500) as [Hfound _].
    + split; intros t; reflexivity.
    + intros t Ht. exists (errno ENOENT). split; [by apply appearsAt_before|reflexivity].
    + intros t Ht. exists (socketFile 1000). split; [by apply appearsAt_after|reflexivity].
    + destruct Hfound as (w' & Hrun & Hnow); [by vm_compute|].
      exists w'. split; [exact Hrun|exact Hnow].
  - destruct (socket_found_at_first_poll p tooLateWorld 2900) as [_ Hmissed].
    + split; intros t; reflexivity.
    + intros t Ht. exists (errno ENOENT). split; [by apply appearsAt_before|reflexivity].
    + intros t Ht. exists (socketFile 1000). split; [by apply appearsAt_after|reflexivity].
    + apply Hmissed. by vm_compute.
Defined.

Lemma connection_accepted_at_first_attempt_witness :
  let p := "/run/shell/child.sock"%string in
  (∃ w', startTransport p refusingWorld = Some (Returned tt, w') ∧ now w' = 1800) ∧
  (∃ w' tr, startTransport p slowDaemonWorld = Some (Thrown (errno ECONNREFUSED), w') ∧
            now w' = 2000 ∧
            trace w' = trace slowDaemonWorld ++ tr ∧
            length (connectCalls tr) = 10%nat).
Proof.
  intros p. split.
  - destruct (connection_accepted_at_first_attempt p refusingWorld 1800) as [Hfound _].
    + split; intros t; reflexivity.
    + intros t Ht. exists (errno ECONNREFUSED).
      split; [by apply acceptsFrom_before|reflexivity].
    + intros t Ht. by apply acceptsFrom_after.
    + destruct Hfound as (w' & Hrun & Hnow); [by vm_compute|].
      exists w'. split; [exact Hrun|exact Hnow].
  - destruct (connection_accepted_at_first_attempt p slowDaemonWorld 1900) as [_ Hmissed].
    + split; intros t; reflexivity.
    + intros t Ht. exists (errno ECONNREFUSED).
      split; [by apply acceptsFrom_before|reflexivity].
    + intros t Ht. by apply acceptsFrom_after.
    + destruct Hmissed as (w' & tr & e & Hrun & Hnow & Htr & Hcount & He); [by vm_compute|].
      assert (errno ECONNREFUSED = e) as <- by (vm_compute in He; by injection He).
      exists w', tr. split; [exact Hrun|]. split; [exact Hnow|]. split; [exact Htr|exact Hcount].
Defined.

Lemma validMessage_reply : validMessage replyMessage.
Proof.
  constructor.
  - decide_it.
  - vm_compute. reflexivity.
  - vm_compute. reflexivity.
  - vm_compute. reflexivity.
  - vm_compute. reflexivity.
Defined.

Lemma message_stream_round_trip_witness :
  let chunks :=
    [take 7 ping; (drop 7 ping ++ [LF] ++ take 3 reply); (drop 3 reply ++ [LF])] in
  ∃ rb, feed newReadBuffer chunks = Some ([Returned pingMessage; Returned replyMessage], rb) ∧
        pendingBytes rb = [].
Proof.
  intros chunks.
  apply (message_stream_round_trip [pingMessage; replyMessage] chunks).
  - repeat constructor; [apply validMessage_ping|apply validMessage_reply].
  - vm_compute. reflexivity.
Defined.

Lemma session_ends_on_transport_close_witness :
  let noise :=
    [StdinData (garbage ++ [LF]); TransportError (errno EPERM);
     StdinData (ping ++ [LF]); StdinClose] in
  (∃ w', session noise sessionWorld = Some (Returned tt, w') ∧ exited w' = None) ∧
  (∃ w', session (noise ++ [TransportClose; TransportMessage replyMessage]) sessionWorld =
           Some (Returned tt, w') ∧
         exited w' = Some 0 ∧
         session [TransportMessage replyMessage] w' = Some (Returned tt, w')).
Proof.
  intros noise. split.
  - destruct (session_ends_on_transport_close noise sessionWorld eq_refl)
      as (w' & Hrun & Hexit & _).
    exists w'. split; [exact Hrun|exact Hexit].
  - destruct (session_ends_on_transport_close
                (noise ++ [TransportClose; TransportMessage replyMessage]) sessionWorld eq_refl)
      as (w' & Hrun & Hexit & Hmore).
    exists w'. split; [exact Hrun|]. split; [exact Hexit|].
    apply Hmore. rewrite Hexit. discriminate.
Defined.

Lemma stdout_carries_daemon_messages_witness :
  let cbs :=
    [TransportMessage replyMessage; StdinData (garbage ++ [LF]);
     TransportError (errno EPERM); TransportMessage pingMessage; StdinClose;
     TransportClose; TransportMessage replyMessage] in
  ∃ w' tr,
    session cbs sessionWorld = Some (Returned tt, w') ∧
    trace w' = trace sessionWorld ++ tr ∧
    stdoutOf tr = [serializeMessage replyMessage; serializeMessage pingMessage].
Proof.
  intros cbs.
  destruct (stdout_carries_daemon_messages cbs sessionWorld eq_refl)
    as (w' & tr & Hrun & Htr & Hout).
  exists w', tr. split; [exact Hrun|]. split; [exact Htr|exact Hout].
Defined.

Lemma main_fails_closed_witness :
  (∃ p' tr,
      main (H0 := manager 1) (process 1 [] readyWorld) = Some (Returned tt, p') ∧
      trace (world p') = tr ∧ stdoutOf tr = [] ∧
      exited (world p') = None ∧ listening (world p') = true) ∧
  (∃ p' tr,
      main (H0 := manager 3) (process 3 [] readyWorld) = Some (Returned tt, p') ∧
      trace (world p') = tr ∧ stdoutOf tr = [] ∧
      exited (world p') = Some 1 ∧ listening (world p') = false).
Proof.
  split.
  - destruct (main_fails_closed (H0 := manager 1) (process 1 [] readyWorld) eq_refl eq_refl)
      as (p' & tr & Hrun & Htr & Hout & _ & Hcase).
    exists p', tr. split; [exact Hrun|]. split; [exact Htr|]. split; [exact Hout|].
    assert (∃ q, main (H0 := manager 1) (process 1 [] readyWorld) = Some (Returned tt, q) ∧
                 exited (world q) = None ∧ listening (world q) = true)
      as (q & Hq & Hexit & Hlisten)
      by (eexists; split; [vm_compute; reflexivity|split; reflexivity]).
    rewrite Hrun in Hq. injection Hq as <-. split; [exact Hexit|exact Hlisten].
  - destruct (main_fails_closed (H0 := manager 3) (process 3 [] readyWorld) eq_refl eq_refl)
      as (p' & tr & Hrun & Htr & Hout & _ & Hcase).
    exists p', tr. split; [exact Hrun|]. split; [exact Htr|]. split; [exact Hout|].
    assert (∃ q, main (H0 := manager 3) (process 3 [] readyWorld) = Some (Returned tt, q) ∧
                 exited (world q) = Some 1 ∧ listening (world q) = false)
      as (q & Hq & Hexit & Hlisten)
      by (eexists; split; [vm_compute; reflexivity|split; reflexivity]).
    rewrite Hrun in Hq. injection Hq as <-. split; [exact Hexit|exact Hlisten].
Defined.

Lemma workdir_precedence_witness :
  defaultWorkdir (H0 := manager 1) configuredProcess = "/srv/work"%string ∧
  ∃ p' r tr,
    main (H0 := manager 1) configuredProcess = Some (Returned tt, p') ∧
    trace (world p') = EvManagerStart "/srv/work" true r :: tr ∧
    (∀ d a c, EvManagerStart d a c ∈ tr → d = "/srv/work"%string).
Proof.
  destruct (workdir_precedence (H0 := manager 1) configuredProcess eq_refl eq_refl)
    as (p' & r & tr & Hrun & Htr & Hall & _ & Hsecond & _).
  assert (defaultWorkdir (H0 := manager 1) configuredProcess = "/srv/work"%string) as Hdir.
  { apply Hsecond; [vm_compute; reflexivity|vm_compute; reflexivity|discriminate]. }
  split; [exact Hdir|].
  rewrite Hdir in Htr, Hall.
  exists p', r, tr. split; [exact Hrun|]. split; [exact Htr|exact Hall].
Defined.

Lemma socket_path_comes_from_manager_witness :
  ∃ p' tr,
    main (H0 := manager 2) (process 2 [] lateWorld) = Some (Returned tt, p') ∧
    trace (world p') = tr ∧
    ∀ tr1 ev tr2,
      tr = tr1 ++ ev :: tr2 →
      ∀ q, ((∃ c, ev = EvStat q c) ∨ (∃ c, ev = EvConnect q c)) →
           q ≠ ""%string ∧
           ∃ id, EvManagerGet id (Returned (InfoObject (Some q))) ∈ tr1.
Proof.
  destruct (socket_path_comes_from_manager (H0 := manager 2) (process 2 [] lateWorld)
              eq_refl eq_refl)
    as (p' & tr & Hrun & Htr & Hpaths).
  exists p', tr. split; [exact Hrun|]. split; [exact Htr|exact Hpaths].
Defined.

Lemma info_flags_short_circuit_witness :
  ∃ p',
    main (H0 := manager 1) versionProcess = Some (Returned tt, p') ∧
    serverManager p' = 0%nat ∧
    trace (world p') = [EvStdout (js_of_string ("2.0.1" +:+ newline))].
Proof.
  destruct (info_flags_short_circuit (H0 := manager 1) versionProcess (or_introl eq_refl))
    as (ver & Hver & Hrun).
  assert ("2.0.1"%string = ver) as <- by (vm_compute in Hver; by injection Hver).
  eexists. split; [exact Hrun|]. split; reflexivity.
Defined.

Lemma daemon_requires_socket_path_witness :
  ∃ d',
    daemon_main unconfiguredDaemon = Some (Returned tt, d') ∧
    d_trace d' = [startupFailed err_socket_path_required] ∧
    d_exitCode d' = Some 1 ∧
    fs d' = ∅ ∧
    d_listening d' = None.
Proof.
  destruct (daemon_requires_socket_path unconfiguredDaemon eq_refl)
    as (d' & Hrun & Htr & Hexit & Hfs & Hlisten).
  exists d'. split; [exact Hrun|]. split; [exact Htr|]. split; [exact Hexit|].
  split; [exact Hfs|exact Hlisten].
Defined.

Lemma daemon_parent_blocked_witness :
  ∃ d',
    daemon_main blockedDaemon = Some (Returned tt, d') ∧
    d_trace d' =
      [DMkdir "/run/mcp" (Thrown (errno EEXIST)); startupFailed (errno EEXIST)] ∧
    d_exitCode d' = Some 1 ∧
    fs d' = fs blockedDaemon ∧
    d_listening d' = None.
Proof.
  destruct (daemon_parent_blocked blockedDaemon "/run/mcp/daemon.sock" (regularFile 1000))
    as (d' & Hrun & Htr & Hexit & Hfs & Hlisten);
    [vm_compute; reflexivity|discriminate|vm_compute; reflexivity|reflexivity|].
  exists d'. split; [exact Hrun|]. split; [exact Htr|]. split; [exact Hexit|].
  split; [exact Hfs|exact Hlisten].
Defined.



End MoreExamples.

(** ** The tool handlers at work on their reference runtime *)

Section ToolExamples.
Import ToolsReference.

Lemma disabled_tools_round_trip_witness :
  DISABLED_TOOLS (Some (js_of_string " shell_execute ,server_stop")) =
    [js_of_string "shell_execute"; js_of_string "server_stop"].
Proof.
  apply (disabled_tools_round_trip
           [js_of_string " shell_execute "; js_of_string "server_stop"]
           [js_of_string "shell_execute"; js_of_string "server_stop"]).
  - constructor; [|constructor; [|constructor]].
    + exists (js_of_string " "), (js_of_string " ").
      split; [reflexivity|]. split; by repeat constructor.
    + exists [], []. split; [reflexivity|]. split; constructor.
  - constructor; [|constructor; [|constructor]];
      (split; [compute_done|split; eexists; split; reflexivity]).
Defined.

Lemma disabled_tool_hidden_and_refused_witness :
  let disabled := DISABLED_TOOLS (Some (js_of_string " shell_execute ,server_stop")) in
  (∀ tool, tool ∈ listTools disabled →
           js_of_string tool.1 ≠ js_of_string "server_stop") ∧
  @callTool tools disabled (js_of_string "server_stop") (Obj []) freshServer =
    (Raise (McpError MethodNotFound (js_of_string "Tool server_stop is disabled")),
     freshServer).
Proof.
  apply (@disabled_tool_hidden_and_refused tools
           (DISABLED_TOOLS (Some (js_of_string " shell_execute ,server_stop")))
           (js_of_string "server_stop") (Obj []) freshServer).
  compute_done.
Defined.

Lemma advertised_schema_guards_dispatch_witness :
  let tool := ("server_list_attachable"%string, ServerListAttachableParamsSchema) in
  let name := js_of_string "server_list_attachable" in
  let r := @callTool tools [] name Undefined freshServer in
  ∃ v evs,
    (tool.1 ≠ "server_current"%string →
     tool.1 ≠ "server_list_attachable"%string → v = Undefined) ∧
    s_trace r.2 = s_trace freshServer ++ evs ∧
    ((∃ e, zodParse tool.2 v = Raise e ∧
           dispatches evs = [] ∧ s_runtime r.2 = s_runtime freshServer ∧
           (r.1 = Raise (Foreign e) ∨
            r.1 = Raise (McpError InvalidRequest (errorMessage e)))) ∨
     (∃ p, zodParse tool.2 v = Done p ∧
           dispatches evs = [(name, p, dispatchOptionsOf freshServer)] ∧
           s_runtime r.2 =
             (dispatchToolCall name p (dispatchOptionsOf freshServer)
                (s_runtime freshServer)).2)).
Proof.
  apply (@advertised_schema_guards_dispatch tools []
           ("server_list_attachable"%string, ServerListAttachableParamsSchema)
           Undefined freshServer).
  - compute_done.
  - intros [|s|members] p; simpl; intros [= <-]; done.
Defined.

Lemma tool_errors_classified_witness :
  let name := js_of_string "no_such_tool" in
  let error := McpError MethodNotFound (js_of_string "Unknown tool: no_such_tool") in
  let s' := (@callTool tools [] name Undefined freshServer).2 in
  ((name ∈ @nil jsstring) ∧ s' = freshServer ∧
   error = McpError MethodNotFound
             (js_of_string "Tool " ++ name ++ js_of_string " is disabled")) ∨
  ((name ∉ @nil jsstring) ∧ (name ∉ toolNames) ∧
   s_trace s' =
     s_trace freshServer ++ [Dispatched name Undefined (dispatchOptionsOf freshServer)] ∧
   error = McpError MethodNotFound (js_of_string "Unknown tool: " ++ name)) ∨
  ((name ∉ @nil jsstring) ∧
   ∃ e, instanceofMCPShellError e = true ∧
        error = McpError InvalidRequest (errorMessage e)) ∨
  ((name ∉ @nil jsstring) ∧
   ∃ e, instanceofMCPShellError e = false ∧ error = Foreign e).
Proof.
  apply (@tool_errors_classified tools [] (js_of_string "no_such_tool") Undefined
           freshServer).
  - intros schema [|s|members] p; simpl; [done|done|].
    destruct schema, (member "command" members); intros [= <-]; done.
  - reflexivity.
Defined.

End ToolExamples.
